(** * Storage handles of nda (c++/nda/storage/handle.hpp)

    A shallow embedding of the five storage handles of [nda::mem]
    (heap, stack, SSO, shared, borrowed) over an explicit machine state:
    typed memory cells, the allocator, the table of reference counts, the
    heap-handle objects that other handles refer to, and a trace of the
    observable operations (allocator calls, constructor and destructor
    calls, reference-count operations, foreign release callbacks). *)

From stdpp Require Import gmap list.

Local Open Scope Z_scope.

(** ** Machine integers *)

(** [size_t] is an unsigned 64-bit integer and [long] a signed one. *)
Definition SIZE_MODULUS : Z := 2 ^ 64.
Definition LONG_MAX : Z := 2 ^ 63 - 1.

(** Conversion to [size_t] (what [_size = size] does for a [long size]). *)
Definition to_size_t (z : Z) : Z := z mod SIZE_MODULUS.

(** Conversion to [long] (what [long size() { return _size; }] does). *)
Definition to_long (z : Z) : Z :=
  let m := z mod SIZE_MODULUS in
  if decide (m <= LONG_MAX) then m else m - SIZE_MODULUS.

(** ** Pointers *)

(** A pointer is a storage region and an offset counted in elements.  The
    regions are: the null page, a block handed out by an allocator, the
    inline [buffer] member of a stack or SSO handle object (named by the
    address of that object), and memory owned by a foreign library. *)
Inductive region : Type :=
  | NullPage
  | HeapBlock (b : Z)
  | InlineBuffer (obj : Z)
  | ForeignMem (f : Z).

#[global] Instance region_eq_dec : EqDecision region.
Proof. solve_decision. Defined.

#[global] Instance region_countable : Countable region.
Proof.
  refine (inj_countable'
    (fun r => match r with
              | NullPage => inl ()
              | HeapBlock b => inr (inl b)
              | InlineBuffer o => inr (inr (inl o))
              | ForeignMem f => inr (inr (inr f))
              end)
    (fun s => match s with
              | inl _ => NullPage
              | inr (inl b) => HeapBlock b
              | inr (inr (inl o)) => InlineBuffer o
              | inr (inr (inr f)) => ForeignMem f
              end) _).
  by intros [].
Defined.

Definition ptr : Type := region * Z.

Definition nullptr : ptr := (NullPage, 0).

(** [p + k] on an element pointer. *)
Definition ptr_add (p : ptr) (k : Z) : ptr := (p.1, p.2 + k).

(** [buffer.data()], as an element pointer, of the handle object at address
    [obj]. *)
Definition buffer_data (obj : Z) : ptr := (InlineBuffer obj, 0).

(** ** Element types *)

(** What the handles ask of their [value_type]: its width, the type traits
    tested by [if constexpr], the value made by [T()] and the value whose
    representation is all zero bytes. *)
Class ValueType (T : Type) : Type := {
  sizeof : Z;
  is_trivial : bool;
  is_trivially_copyable : bool;
  is_complex : bool;
  default_value : T;
  zero_value : T
}.

(** ** Observable operations *)

Inductive event : Type :=
  | EvAllocate (bytes : Z) (p : ptr)
  | EvAllocateZero (bytes : Z) (p : ptr)
  | EvDeallocate (p : ptr) (bytes : Z)
  | EvDefaultConstruct (p : ptr)
  | EvCopyConstruct (dst src : ptr)
  | EvMemcpy (dst src : ptr) (bytes : Z)
  | EvDestroy (p : ptr)
  | EvRtableGet (id : Z)
  | EvRtableIncref (id : Z)
  | EvRtableDecref (id : Z)
  | EvForeignDecref (callback handle : Z).

#[global] Instance event_eq_dec : EqDecision event.
Proof. solve_decision. Defined.

Definition is_allocator_call (e : event) : bool :=
  match e with
  | EvAllocate _ _ | EvAllocateZero _ _ | EvDeallocate _ _ => true
  | _ => false
  end.

Definition is_rtable_call (e : event) : bool :=
  match e with
  | EvRtableGet _ | EvRtableIncref _ | EvRtableDecref _ => true
  | _ => false
  end.

(** The operations that release a buffer or its elements. *)
Definition is_release (e : event) : bool :=
  match e with
  | EvDestroy _ | EvDeallocate _ _ | EvForeignDecref _ _ => true
  | _ => false
  end.

(** ** The handle records *)

Module handle_heap.
Record t : Type := mk {
  _data : ptr;  (* Pointer to the start of the memory block *)
  _size : Z;    (* Size of the memory block (a size_t) *)
  _id : Z       (* The id in the refcounts table, 0: no memory sharing *)
}.
(** The default member initializers: [handle_heap() = default]. *)
Definition null : t := {| _data := nullptr; _size := 0; _id := 0 |}.
End handle_heap.

Module handle_stack.
Record t : Type := mk {
  buffer : Z   (* the object whose inline storage this is *)
}.
End handle_stack.

Module handle_sso.
Record t : Type := mk {
  buffer : Z;  (* the object whose inline storage this is *)
  _data : ptr;
  _size : Z
}.
End handle_sso.

Module handle_shared.
Record t : Type := mk {
  _data : ptr;
  _size : Z;
  _id : Z;              (* 0 corresponds to a null handle *)
  _foreign_handle : Z;  (* void *, 0 is nullptr *)
  _foreign_decref : Z   (* void *, 0 is nullptr *)
}.
Definition null : t :=
  {| _data := nullptr; _size := 0; _id := 0;
     _foreign_handle := 0; _foreign_decref := 0 |}.
End handle_shared.

Module handle_borrowed.
Record t : Type := mk {
  _parent : option Z;  (* handle_heap<T0, void> const *, None is nullptr *)
  _data : ptr
}.
Definition null : t := {| _parent := None; _data := nullptr |}.
End handle_borrowed.

(** ** Machine state *)

(** The allocator's block descriptor, [allocators::blk_t]. *)
Record blk_t : Type := { blk_ptr : ptr; blk_size : Z }.

Record state (T : Type) : Type := State {
  cells : gmap ptr T;                 (* the elements alive in memory *)
  live : gmap Z Z;                    (* allocated blocks and their byte size *)
  avail : Z;                          (* bytes the allocator can still serve *)
  refcounts : gmap Z Z;               (* globals::rtable *)
  heaps : gmap Z handle_heap.t;       (* heap-handle objects, by address *)
  trace : list event                  (* operations performed so far *)
}.
Arguments State {T}.
Arguments cells {T}.
Arguments live {T}.
Arguments avail {T}.
Arguments refcounts {T}.
Arguments heaps {T}.
Arguments trace {T}.

Section Machine.
Context {T : Type} `{VT : ValueType T}.

Definition set_cells (f : gmap ptr T -> gmap ptr T) (st : state T) : state T :=
  State (f (cells st)) (live st) (avail st) (refcounts st) (heaps st) (trace st).

Definition set_refcounts (f : gmap Z Z -> gmap Z Z) (st : state T) : state T :=
  State (cells st) (live st) (avail st) (f (refcounts st)) (heaps st) (trace st).

Definition set_heaps (f : gmap Z handle_heap.t -> gmap Z handle_heap.t)
    (st : state T) : state T :=
  State (cells st) (live st) (avail st) (refcounts st) (f (heaps st)) (trace st).

Definition emit (e : event) (st : state T) : state T :=
  State (cells st) (live st) (avail st) (refcounts st) (heaps st) (trace st ++ [e]).

(** [for (size_t i = 0; i < n; ++i) body(i);] *)
Fixpoint loop_from (i : Z) (k : nat) (body : Z -> state T -> state T)
    (st : state T) : state T :=
  match k with
  | O => st
  | S k' => loop_from (i + 1) k' body (body i st)
  end.

Definition for_loop (n : Z) (body : Z -> state T -> state T)
    (st : state T) : state T :=
  loop_from 0 (Z.to_nat n) body st.

(** *** Element operations *)

(** [new (p) T()] *)
Definition placement_new_default (p : ptr) (st : state T) : state T :=
  emit (EvDefaultConstruct p) (set_cells <[p := default_value]> st).

(** The cell [dst] receives what the cell [src] holds; a cell that holds no
    element (uninitialized or destroyed storage) is copied as such. *)
Definition copy_cell (dst src : ptr) (m : gmap ptr T) : gmap ptr T :=
  match m !! src with
  | Some v => <[dst := v]> m
  | None => delete dst m
  end.

(** [new (dst) T(x)] where [x] is the element at [src] *)
Definition placement_new_copy (dst src : ptr) (st : state T) : state T :=
  emit (EvCopyConstruct dst src) (set_cells (copy_cell dst src) st).

(** [p->~T()] *)
Definition destroy_at (p : ptr) (st : state T) : state T :=
  emit (EvDestroy p) (set_cells (delete p) st).

(** [std::memcpy(dst, src, n * sizeof(T))] *)
Definition memcpy (dst src : ptr) (n : Z) (st : state T) : state T :=
  emit (EvMemcpy dst src (to_size_t (n * sizeof)))
    (for_loop n (fun i => set_cells (copy_cell (ptr_add dst i) (ptr_add src i))) st).

(** *** The allocator *)

(** A key that [m] does not hold, and that is not 0. *)
Definition fresh_key {A : Type} (m : gmap Z A) : Z :=
  1 + map_fold (fun k _ r => Z.max k r) 0 m.

(** Modelled from the spec: [allocators.hpp] is not among the sources.
    [allocate(byte_size) -> block] returns uninitialized memory;
    [allocate_zero] is its zero-filled variant; [deallocate(block)] gives the
    block back.  A request that the system cannot satisfy yields a null block,
    which every handle constructor turns into a fatal error.  The one
    allocator state stands for every [allocator_singleton<Allocator>]. *)
Definition allocate (s : Z) (st : state T) : blk_t * state T :=
  if decide (s <= avail st) then
    let b := fresh_key (live st) in
    let p := (HeapBlock b, 0) in
    ({| blk_ptr := p; blk_size := s |},
     State (cells st) (<[b := s]> (live st)) (avail st - s)
           (refcounts st) (heaps st) (trace st ++ [EvAllocate s p]))
  else ({| blk_ptr := nullptr; blk_size := s |}, emit (EvAllocate s nullptr) st).

(** Modelled from the spec: [allocate_zero(byte_size) -> block], the
    zero-filled variant of [allocate]. *)
Definition allocate_zero (s : Z) (st : state T) : blk_t * state T :=
  if decide (s <= avail st) then
    let b := fresh_key (live st) in
    let p := (HeapBlock b, 0) in
    let st1 :=
      for_loop (s `div` sizeof)
        (fun i => set_cells <[ptr_add p i := zero_value]>) st in
    ({| blk_ptr := p; blk_size := s |},
     State (cells st1) (<[b := s]> (live st)) (avail st - s)
           (refcounts st) (heaps st) (trace st ++ [EvAllocateZero s p]))
  else ({| blk_ptr := nullptr; blk_size := s |}, emit (EvAllocateZero s nullptr) st).

Definition in_block (b : Z) (kv : ptr * T) : Prop := kv.1.1 = HeapBlock b.

#[local] Instance in_block_dec b kv : Decision (in_block b kv).
Proof. unfold in_block. apply _. Defined.

(** Modelled from the spec: [deallocate(block)].  The block stops being
    allocated and its cells are gone; a pointer that is not an allocated
    block is left alone. *)
Definition deallocate (blk : blk_t) (st : state T) : state T :=
  match (blk_ptr blk).1 with
  | HeapBlock b =>
      match live st !! b with
      | Some s =>
          State (filter (fun kv => ~ in_block b kv) (cells st))
                (delete b (live st)) (avail st + s)
                (refcounts st) (heaps st)
                (trace st ++ [EvDeallocate (blk_ptr blk) (blk_size blk)])
      | None => emit (EvDeallocate (blk_ptr blk) (blk_size blk)) st
      end
  | _ => emit (EvDeallocate (blk_ptr blk) (blk_size blk)) st
  end.

(** *** The table of reference counts *)

(** Modelled from the spec: [refcount(id) -> count], the diagnostic read
    [globals::rtable.refcounts()[id]]; an id that is not registered counts
    0. *)
Definition rtable_refcount (id : Z) (st : state T) : Z :=
  default 0 (refcounts st !! id).

(** Modelled from the spec: [rtable.hpp] is not among the sources.
    [get() -> id] allocates a fresh id with count 1, and id 0 is reserved;
    [incref(id)] increments the count; [decref(id) -> bool] decrements it and
    returns true iff this decrement made the count reach zero, in which case
    the entry is removed. *)
Definition rtable_get (st : state T) : Z * state T :=
  let id := fresh_key (refcounts st) in
  (id, emit (EvRtableGet id) (set_refcounts <[id := 1]> st)).

(** Modelled from the spec: [incref(id)]. *)
Definition rtable_incref (id : Z) (st : state T) : state T :=
  emit (EvRtableIncref id)
    (set_refcounts <[id := rtable_refcount id st + 1]> st).

(** Modelled from the spec: [decref(id) -> bool]. *)
Definition rtable_decref (id : Z) (st : state T) : bool * state T :=
  let c := rtable_refcount id st - 1 in
  if decide (c = 0)
  then (true, emit (EvRtableDecref id) (set_refcounts (delete id) st))
  else (false, emit (EvRtableDecref id) (set_refcounts <[id := c]> st)).

(** ** Heap handle *)

Definition handle_heap_is_null (h : handle_heap.t) : bool :=
  bool_decide (handle_heap._data h = nullptr).

Definition handle_heap_has_shared_memory (h : handle_heap.t) : bool :=
  bool_decide (handle_heap._id h <> 0).

Definition handle_heap_data (h : handle_heap.t) : ptr := handle_heap._data h.

Definition handle_heap_size (h : handle_heap.t) : Z :=
  to_long (handle_heap._size h).

(** [if constexpr (!std::is_trivial_v<T>) for (i < n) data[i].~T();] *)
Definition destroy_elements (data : ptr) (n : Z) (st : state T) : state T :=
  if is_trivial then st
  else for_loop n (fun i => destroy_at (ptr_add data i)) st.

Definition handle_heap_decref (h : handle_heap.t) (st : state T) : state T :=
  if handle_heap_is_null h then st
  else
    (* has_shared_memory() and not globals::rtable.decref(_id) *)
    let '(others_remain, st1) :=
      if handle_heap_has_shared_memory h
      then let '(last, s) := rtable_decref (handle_heap._id h) st in (negb last, s)
      else (false, st) in
    if others_remain then st1
    else
      let st2 := destroy_elements (handle_heap._data h) (handle_heap._size h) st1 in
      deallocate {| blk_ptr := handle_heap._data h;
                    blk_size := to_size_t (handle_heap._size h * sizeof) |} st2.

(** [~handle_heap() noexcept { decref(); }] *)
Definition handle_heap_dtor (h : handle_heap.t) (st : state T) : state T :=
  handle_heap_decref h st.

(** [handle_heap(long size, do_not_initialize_t)]; [None] is the fatal error
    of [ASSERT(b.ptr != nullptr)]. *)
Definition handle_heap_ctor_noinit (size : Z) (st : state T)
    : option (handle_heap.t * state T) :=
  if decide (size = 0) then Some (handle_heap.null, st)
  else
    let '(b, st1) := allocate (to_size_t (size * sizeof)) st in
    if decide (blk_ptr b = nullptr) then None
    else Some ({| handle_heap._data := blk_ptr b;
                  handle_heap._size := to_size_t size;
                  handle_heap._id := 0 |}, st1).

(** [globals::init_dcmplx], a compile-time flag declared outside
    [handle.hpp]. *)
Variable init_dcmplx : bool.

(** [handle_heap(long size)] *)
Definition handle_heap_ctor (size : Z) (st : state T)
    : option (handle_heap.t * state T) :=
  if decide (size = 0) then Some (handle_heap.null, st)
  else
    let '(b, st1) :=
      if is_complex && init_dcmplx
      then allocate_zero (to_size_t (size * sizeof)) st
      else allocate (to_size_t (size * sizeof)) st in
    if decide (blk_ptr b = nullptr) then None
    else
      let data := blk_ptr b in
      let st2 :=
        if negb is_trivial && negb is_complex
        then for_loop (to_size_t size)
               (fun i => placement_new_default (ptr_add data i)) st1
        else st1 in
      Some ({| handle_heap._data := data;
               handle_heap._size := to_size_t size;
               handle_heap._id := 0 |}, st2).

(** The body shared by the two cloning constructors of the heap handle:
    [memcpy] for trivially copyable types, placement new otherwise. *)
Definition clone_into (h : handle_heap.t) (xdata : ptr) (xsize : Z)
    (st : state T) : state T :=
  if handle_heap_is_null h then st
  else if is_trivially_copyable
  then memcpy (handle_heap._data h) xdata xsize st
  else for_loop (handle_heap._size h)
         (fun i => placement_new_copy (ptr_add (handle_heap._data h) i)
                                      (ptr_add xdata i)) st.

(** The cloning constructors: a block for [xsize] elements, left
    uninitialized by the delegated constructor, then filled from [xdata]. *)
Definition handle_heap_clone (xdata : ptr) (xsize : Z) (st : state T)
    : option (handle_heap.t * state T) :=
  match handle_heap_ctor_noinit xsize st with
  | None => None
  | Some (h, st1) => Some (h, clone_into h xdata xsize st1)
  end.

(** [handle_heap(handle_heap const &x)] *)
Definition handle_heap_copy_ctor (x : handle_heap.t) (st : state T)
    : option (handle_heap.t * state T) :=
  handle_heap_clone (handle_heap_data x) (handle_heap_size x) st.

(** ** Stack and SSO handles *)

(** The template parameter of [handle_stack<T, Size>] and
    [handle_sso<T, Size>]. *)
Variable Size : Z.

Definition handle_stack_data (h : handle_stack.t) : ptr :=
  buffer_data (handle_stack.buffer h).

(** [handle_stack(long) : handle_stack{}], for the object at address
    [this].  The delegation to [handle_stack{}] value-initializes the object
    and, the default constructor being defaulted, zero-fills its buffer
    before the body runs. *)
Definition handle_stack_ctor (this : Z) (size : Z) (st : state T)
    : handle_stack.t * state T :=
  let h := {| handle_stack.buffer := this |} in
  let st0 :=
    for_loop Size
      (fun i => set_cells <[ptr_add (handle_stack_data h) i := zero_value]>) st in
  (h, if negb is_trivial && negb is_complex
      then for_loop Size
             (fun i => placement_new_default (ptr_add (handle_stack_data h) i)) st0
      else st0).

Definition handle_stack_is_null (h : handle_stack.t) : bool := false.

Definition handle_stack_size (h : handle_stack.t) : Z := to_long Size.

Definition handle_sso_on_heap (h : handle_sso.t) : bool :=
  bool_decide (Size < handle_sso._size h).

Definition handle_sso_is_null (h : handle_sso.t) : bool :=
  bool_decide (handle_sso._data h = nullptr).

Definition handle_sso_data (h : handle_sso.t) : ptr := handle_sso._data h.

Definition handle_sso_size (h : handle_sso.t) : Z := to_long (handle_sso._size h).

(** [handle_sso() = default], for the object at address [this]. *)
Definition handle_sso_default (this : Z) : handle_sso.t :=
  {| handle_sso.buffer := this; handle_sso._data := nullptr; handle_sso._size := 0 |}.

(** The source of a move, afterwards. *)
Definition moved_from (x : handle_sso.t) : handle_sso.t :=
  {| handle_sso.buffer := handle_sso.buffer x;
     handle_sso._data := nullptr; handle_sso._size := 0 |}.

(** [void clean() noexcept] *)
Definition handle_sso_clean (h : handle_sso.t) (st : state T)
    : handle_sso.t * state T :=
  if handle_sso_is_null h then (h, st)
  else
    let st1 := destroy_elements (handle_sso_data h) (handle_sso._size h) st in
    let st2 :=
      if handle_sso_on_heap h
      then deallocate {| blk_ptr := handle_sso._data h;
                         blk_size := to_size_t (handle_sso._size h * sizeof) |} st1
      else st1 in
    ({| handle_sso.buffer := handle_sso.buffer h;
        handle_sso._data := nullptr;
        handle_sso._size := handle_sso._size h |}, st2).

(** [~handle_sso() noexcept { clean(); }] *)
Definition handle_sso_dtor (h : handle_sso.t) (st : state T) : state T :=
  (handle_sso_clean h st).2.

(** What the move constructor and the move assignment do once [this] is
    clean: take the size, steal the pointer on the heap path, copy the
    elements into the own buffer on the stack path, and null the source.
    [same] tells that [x] is the object [this] itself (a self-assignment), in
    which case [x[i]] is read through the pointer just stored.  On entry
    [this->_data] is null, by its default initializer or by [clean()].
    The result is [this], the source [x], and the state. *)
Definition handle_sso_take (this : Z) (same : bool) (x : handle_sso.t)
    (st : state T) : handle_sso.t * handle_sso.t * state T :=
  let size := handle_sso._size x in
  let '(data, st1) :=
    if bool_decide (Size < size) then (handle_sso._data x, st)
    else if decide (size <> 0) then
      let data := buffer_data this in
      let xdata := if same then data else handle_sso._data x in
      (data, for_loop size
               (fun i => placement_new_copy (ptr_add data i) (ptr_add xdata i)) st)
    else (nullptr, st) in
  ({| handle_sso.buffer := this; handle_sso._data := data; handle_sso._size := size |},
   {| handle_sso.buffer := handle_sso.buffer x;
      handle_sso._data := nullptr; handle_sso._size := 0 |},
   st1).

(** [handle_sso(handle_sso &&x) noexcept], for the object at address [this]. *)
Definition handle_sso_move_ctor (this : Z) (x : handle_sso.t) (st : state T)
    : handle_sso.t * handle_sso.t * state T :=
  handle_sso_take this false x st.

(** [handle_sso &operator=(handle_sso &&x) noexcept].  When [x] is the object
    assigned to, it is read after [clean()] has nulled its pointer, and the
    one object ends as the nulled source. *)
Definition handle_sso_move_assign (self x : handle_sso.t) (st : state T)
    : handle_sso.t * handle_sso.t * state T :=
  let '(self1, st1) := handle_sso_clean self st in
  if decide (handle_sso.buffer self = handle_sso.buffer x) then
    let '(_, x', st2) := handle_sso_take (handle_sso.buffer self) true self1 st1 in
    (x', x', st2)
  else handle_sso_take (handle_sso.buffer self) false x st1.

(** [handle_sso(long size, do_not_initialize_t)] *)
Definition handle_sso_ctor_noinit (this : Z) (size : Z) (st : state T)
    : option (handle_sso.t * state T) :=
  if decide (size = 0) then Some (handle_sso_default this, st)
  else
    let sz := to_size_t size in
    if negb (bool_decide (Size < sz)) then
      Some ({| handle_sso.buffer := this; handle_sso._data := buffer_data this;
               handle_sso._size := sz |}, st)
    else
      let '(b, st1) := allocate (to_size_t (size * sizeof)) st in
      if decide (blk_ptr b = nullptr) then None
      else Some ({| handle_sso.buffer := this; handle_sso._data := blk_ptr b;
                    handle_sso._size := sz |}, st1).

(** [handle_sso(handle_sso const &x)] *)
Definition handle_sso_copy_ctor (this : Z) (x : handle_sso.t) (st : state T)
    : option (handle_sso.t * state T) :=
  match handle_sso_ctor_noinit this (handle_sso_size x) st with
  | None => None
  | Some (h, st1) =>
      Some (h, for_loop (handle_sso._size h)
                 (fun i => placement_new_copy (ptr_add (handle_sso._data h) i)
                                              (ptr_add (handle_sso._data x) i)) st1)
  end.

(** [handle_sso(long size)] *)
Definition handle_sso_ctor (this : Z) (size : Z) (st : state T)
    : option (handle_sso.t * state T) :=
  if decide (size = 0) then Some (handle_sso_default this, st)
  else
    let sz := to_size_t size in
    let alloc :=
      if negb (bool_decide (Size < sz)) then Some (buffer_data this, st)
      else
        let '(b, st1) :=
          if is_complex && init_dcmplx
          then allocate_zero (to_size_t (size * sizeof)) st
          else allocate (to_size_t (size * sizeof)) st in
        if decide (blk_ptr b = nullptr) then None else Some (blk_ptr b, st1) in
    match alloc with
    | None => None
    | Some (data, st1) =>
        let st2 :=
          if negb is_trivial && negb is_complex
          then for_loop (to_size_t size)
                 (fun i => placement_new_default (ptr_add data i)) st1
          else st1 in
        Some ({| handle_sso.buffer := this; handle_sso._data := data;
                 handle_sso._size := sz |}, st2)
    end.

(** ** Shared handle *)

Definition handle_shared_is_null (s : handle_shared.t) : bool :=
  bool_decide (handle_shared._data s = nullptr).

Definition handle_shared_data (s : handle_shared.t) : ptr := handle_shared._data s.

Definition handle_shared_size (s : handle_shared.t) : Z :=
  to_long (handle_shared._size s).

(** [long refcount() const] *)
Definition handle_shared_refcount (s : handle_shared.t) (st : state T) : Z :=
  rtable_refcount (handle_shared._id s) st.

(** [void decref() noexcept] *)
Definition handle_shared_decref (s : handle_shared.t) (st : state T) : state T :=
  if handle_shared_is_null s then st
  else
    let '(last, st1) := rtable_decref (handle_shared._id s) st in
    if negb last then st1
    else if decide (handle_shared._foreign_handle s <> 0) then
      emit (EvForeignDecref (handle_shared._foreign_decref s)
                            (handle_shared._foreign_handle s)) st1
    else
      let st2 := destroy_elements (handle_shared._data s) (handle_shared._size s) st1 in
      deallocate {| blk_ptr := handle_shared._data s;
                    blk_size := to_size_t (handle_shared._size s * sizeof) |} st2.

(** [void incref() noexcept]; a debug build first checks [!is_null()]. *)
Definition handle_shared_incref (s : handle_shared.t) (st : state T) : state T :=
  rtable_incref (handle_shared._id s) st.

(** [~handle_shared() noexcept { decref(); }] *)
Definition handle_shared_dtor (s : handle_shared.t) (st : state T) : state T :=
  handle_shared_decref s st.

(** [void _copy(handle_shared const &x)]: all five fields. *)
Definition handle_shared_copy (x : handle_shared.t) : handle_shared.t :=
  {| handle_shared._data := handle_shared._data x;
     handle_shared._size := handle_shared._size x;
     handle_shared._id := handle_shared._id x;
     handle_shared._foreign_handle := handle_shared._foreign_handle x;
     handle_shared._foreign_decref := handle_shared._foreign_decref x |}.

(** [handle_shared(handle_shared const &x) noexcept] *)
Definition handle_shared_copy_ctor (x : handle_shared.t) (st : state T)
    : handle_shared.t * state T :=
  let s := handle_shared_copy x in
  (s, if negb (handle_shared_is_null s) then handle_shared_incref s st else st).

(** [handle_shared &operator=(handle_shared const &x) noexcept] *)
Definition handle_shared_copy_assign (self x : handle_shared.t) (st : state T)
    : handle_shared.t * state T :=
  let st1 := handle_shared_decref self st in
  let s := handle_shared_copy x in
  (s, handle_shared_incref s st1).

(** [handle_shared(T *data, size_t size, void *foreign_handle,
    void *foreign_decref)] *)
Definition handle_shared_foreign_ctor (data : ptr) (size : Z)
    (foreign_handle foreign_decref : Z) (st : state T)
    : handle_shared.t * state T :=
  let '(id, st1) := rtable_get st in
  ({| handle_shared._data := data; handle_shared._size := size;
      handle_shared._id := id;
      handle_shared._foreign_handle := foreign_handle;
      handle_shared._foreign_decref := foreign_decref |}, st1).

(** [x._id] of the heap-handle object at address [x]. *)
Definition heap_id_at (x : Z) (st : state T) : Z :=
  match heaps st !! x with
  | Some hx => handle_heap._id hx
  | None => 0
  end.

(** [x._id = id] on the heap-handle object at address [x]. *)
Definition heap_set_id (x : Z) (id : Z) (st : state T) : state T :=
  set_heaps
    (alter (fun hx => {| handle_heap._data := handle_heap._data hx;
                         handle_heap._size := handle_heap._size hx;
                         handle_heap._id := id |}) x) st.

(** [handle_shared(handle_heap<T, void> const &x) noexcept], where [x] is the
    address of the heap handle; [None] when no such object exists. *)
Definition handle_shared_from_heap (x : Z) (st : state T)
    : option (handle_shared.t * state T) :=
  match heaps st !! x with
  | None => None
  | Some hx =>
      let data := handle_heap_data hx in
      let size := to_size_t (handle_heap_size hx) in
      if handle_heap_is_null hx then
        Some ({| handle_shared._data := data; handle_shared._size := size;
                 handle_shared._id := 0;
                 handle_shared._foreign_handle := 0;
                 handle_shared._foreign_decref := 0 |}, st)
      else
        (* Get an id if necessary: check, lock, check again, assign *)
        let st1 :=
          if decide (heap_id_at x st = 0) then
            if decide (heap_id_at x st = 0) then
              let '(id, st') := rtable_get st in heap_set_id x id st'
            else st
          else st in
        let s := {| handle_shared._data := data; handle_shared._size := size;
                    handle_shared._id := heap_id_at x st1;
                    handle_shared._foreign_handle := 0;
                    handle_shared._foreign_decref := 0 |} in
        Some (s, handle_shared_incref s st1)
  end.

(** [handle_heap(handle_shared<T> const &x)]: the same code as the copy
    constructor. *)
Definition handle_heap_copy_ctor_shared (x : handle_shared.t) (st : state T)
    : option (handle_heap.t * state T) :=
  handle_heap_clone (handle_shared_data x) (handle_shared_size x) st.

(** ** Borrowed handle *)

(** The constructors of [handle_borrowed<T>], one per overload.  A heap
    handle with the default ([void]) allocator is taken by its address, as
    the constructor keeps that address; the template overload takes heap
    handles of every other allocator. *)
Inductive borrowed_ctor : Type :=
  | BorrowDefault
  | BorrowPtr (p : ptr)
  | BorrowCopy (x : handle_borrowed.t)
  | BorrowBorrowed (x : handle_borrowed.t) (offset : Z)
  | BorrowHeapVoid (x : Z) (offset : Z)
  | BorrowHeapAlloc (x : handle_heap.t) (offset : Z)
  | BorrowShared (x : handle_shared.t) (offset : Z)
  | BorrowBorrowedConst (x : handle_borrowed.t) (offset : Z)
  | BorrowStack (x : handle_stack.t) (offset : Z)
  | BorrowSso (x : handle_sso.t) (offset : Z).

Definition handle_borrowed_data (b : handle_borrowed.t) : ptr :=
  handle_borrowed._data b.

Definition handle_borrowed_parent (b : handle_borrowed.t) : option Z :=
  handle_borrowed._parent b.

Definition handle_borrowed_is_null (b : handle_borrowed.t) : bool :=
  bool_decide (handle_borrowed._data b = nullptr).

Definition from_data (p : ptr) : handle_borrowed.t :=
  {| handle_borrowed._parent := None; handle_borrowed._data := p |}.

(** Running a constructor; [None] when the heap handle referred to does not
    exist. *)
Definition handle_borrowed_ctor (c : borrowed_ctor) (st : state T)
    : option (handle_borrowed.t * state T) :=
  match c with
  | BorrowDefault => Some (handle_borrowed.null, st)
  | BorrowPtr p => Some (from_data p, st)
  | BorrowCopy x => Some (x, st)
  | BorrowBorrowed x offset =>
      Some (from_data (ptr_add (handle_borrowed_data x) offset), st)
  | BorrowHeapVoid x offset =>
      match heaps st !! x with
      | Some hx =>
          Some ({| handle_borrowed._parent := Some x;
                   handle_borrowed._data := ptr_add (handle_heap_data hx) offset |},
                st)
      | None => None
      end
  | BorrowHeapAlloc x offset =>
      Some ({| handle_borrowed._parent := None;
               handle_borrowed._data := ptr_add (handle_heap_data x) offset |}, st)
  | BorrowShared x offset =>
      Some (from_data (ptr_add (handle_shared_data x) offset), st)
  | BorrowBorrowedConst x offset =>
      Some (from_data (ptr_add (handle_borrowed_data x) offset), st)
  | BorrowStack x offset =>
      Some (from_data (ptr_add (handle_stack_data x) offset), st)
  | BorrowSso x offset =>
      Some (from_data (ptr_add (handle_sso_data x) offset), st)
  end.

(** ** Reading the trace *)

(** [evs] are the operations performed from [st] to [st']. *)
Definition performed (st st' : state T) (evs : list event) : Prop :=
  trace st' = trace st ++ evs.

(** The events that are not destructor calls on elements stored in [r]. *)
Definition spares (r : region) (e : event) : Prop :=
  forall p, e = EvDestroy p -> p.1 <> r.

(** What the loops over elements leave alone: the allocator, the table and
    the heap-handle objects. *)
Definition same_bookkeeping (st st' : state T) : Prop :=
  live st' = live st /\ avail st' = avail st /\
  refcounts st' = refcounts st /\ heaps st' = heaps st.

(** The destructor calls of [destroy_elements]. *)
Definition destroy_events (data : ptr) (n : Z) : list event :=
  if is_trivial then [] else (fun i => EvDestroy (ptr_add data i)) <$> seqZ 0 n.

(** The copy-constructor calls of a loop over [n] elements. *)
Definition copy_events (dst src : ptr) (n : Z) : list event :=
  (fun i => EvCopyConstruct (ptr_add dst i) (ptr_add src i)) <$> seqZ 0 n.

(** The events of the release of the native buffer of [s] by its last
    holder. *)
Definition release_events (s : handle_shared.t) : list event :=
  EvRtableDecref (handle_shared._id s)
    :: destroy_events (handle_shared._data s) (handle_shared._size s)
    ++ [EvDeallocate (handle_shared._data s)
          (to_size_t (handle_shared._size s * sizeof))].

(** The events that are not operations on the table of reference counts. *)
Definition no_rtable_call (e : event) : Prop := is_rtable_call e = false.

(** What destroying a cloned heap handle [h] does not do to the buffer at
    [xdata] it was cloned from. *)
Definition leaves_alone (xdata : ptr) (h : handle_heap.t) (st : state T) : Prop :=
  let st' := handle_heap_dtor h st in
  refcounts st' = refcounts st /\
  (exists evs, performed st st' evs /\ Forall no_rtable_call evs) /\
  (forall p, p.1 = xdata.1 -> cells st' !! p = cells st !! p) /\
  (forall b, xdata.1 = HeapBlock b -> live st' !! b = live st !! b).

(** ** Well-formed handles *)

(** An SSO handle holds its elements inline: its pointer is its own buffer
    and its size is at most the capacity. *)
Definition sso_inline_resident (x : handle_sso.t) : Prop :=
  handle_sso._data x = buffer_data (handle_sso.buffer x) /\
  0 < handle_sso._size x <= Size.

(** An SSO handle holds its elements on the heap: its size exceeds the
    capacity. *)
Definition sso_heap_resident (x : handle_sso.t) : Prop :=
  Size < handle_sso._size x.

(** The data pointer of an SSO handle is null, its own buffer, or the start
    of a block from the allocator. *)
Definition sso_data_wf (x : handle_sso.t) : Prop :=
  handle_sso._data x = nullptr \/
  handle_sso._data x = buffer_data (handle_sso.buffer x) \/
  exists b, handle_sso._data x = (HeapBlock b, 0).

(** The storage that [p] points into is in use: a block from the allocator
    is one that is allocated now. *)
Definition storage_live (p : ptr) (st : state T) : Prop :=
  forall b, p.1 = HeapBlock b -> is_Some (live st !! b).

End Machine.

Arguments handle_stack_size Size h : clear implicits.
Arguments handle_stack_is_null h : clear implicits.

(** ** Concrete element types and states *)

(** A trivial element type of eight bytes, such as [long]. *)
#[global] Instance long_type : ValueType Z :=
  {| sizeof := 8; is_trivial := true; is_trivially_copyable := true;
     is_complex := false; default_value := 0; zero_value := 0 |}.

(** An element type with constructors and a destructor of its own, such as
    [std::vector<long>]. *)
#[global] Instance vector_type : ValueType (list Z) :=
  {| sizeof := 24; is_trivial := false; is_trivially_copyable := false;
     is_complex := false; default_value := []; zero_value := [] |}.

(** A state with no memory in use and [capacity] bytes to allocate. *)
Definition initial (T : Type) (capacity : Z) : state T :=
  State ∅ ∅ capacity ∅ ∅ [].

(** A heap handle of four elements in block 1, not shared. *)
Definition heap_of_four : handle_heap.t :=
  {| handle_heap._data := (HeapBlock 1, 0); handle_heap._size := 4;
     handle_heap._id := 0 |}.

(** A state where [heap_of_four] is the heap-handle object at address 10,
    holding the elements 11, 12, 13 and 14, and where the object at address
    20 is a null heap handle. *)
Definition four_longs : state Z :=
  State (list_to_map [((HeapBlock 1, 0), 11); ((HeapBlock 1, 1), 12);
                      ((HeapBlock 1, 2), 13); ((HeapBlock 1, 3), 14)])
        {[ 1 := 32 ]} 1000 ∅
        (<[ 10 := heap_of_four ]> {[ 20 := handle_heap.null ]}) [].

(** Two blocks of [long]s: block 1 holds 11, 12, 13, 14 and block 2 holds 21,
    22, 23. *)
Definition two_blocks : state Z :=
  State (list_to_map [((HeapBlock 1, 0), 11); ((HeapBlock 1, 1), 12);
                      ((HeapBlock 1, 2), 13); ((HeapBlock 1, 3), 14);
                      ((HeapBlock 2, 0), 21); ((HeapBlock 2, 1), 22);
                      ((HeapBlock 2, 2), 23)])
        (<[ 1 := 32 ]> {[ 2 := 24 ]}) 1000 ∅ ∅ [].

(** SSO handles of capacity 2 that are on the heap, on blocks 1 and 2. *)
Definition sso_block_1 : handle_sso.t :=
  {| handle_sso.buffer := 1; handle_sso._data := (HeapBlock 1, 0);
     handle_sso._size := 4 |}.
Definition sso_block_2 : handle_sso.t :=
  {| handle_sso.buffer := 2; handle_sso._data := (HeapBlock 2, 0);
     handle_sso._size := 3 |}.

(** An SSO handle of capacity 2 holding two vectors inline, and the state
    where they live. *)
Definition sso_inline_2 : handle_sso.t :=
  {| handle_sso.buffer := 2; handle_sso._data := buffer_data 2;
     handle_sso._size := 2 |}.
Definition two_vectors : state (list Z) :=
  State (list_to_map [((InlineBuffer 2, 0), [1]); ((InlineBuffer 2, 1), [2; 3])])
        ∅ 1000 ∅ ∅ [].

(** The shared handle made from the heap handle at address 10, and the state
    after that promotion. *)
Definition promoted_four : handle_shared.t * state Z :=
  default (handle_shared.null, four_longs)
          (handle_shared_from_heap 10 four_longs).

(** A borrowed handle on the heap handle at address 10. *)
Definition borrowed_of_four : handle_borrowed.t :=
  {| handle_borrowed._parent := Some 10;
     handle_borrowed._data := (HeapBlock 1, 0) |}.

From Stdlib Require Import Ascii.

(** * The other operations of the handles *)

Section MoreHandles.
Context {T : Type} `{VT : ValueType T}.

(** ** Heap handle: zero-filled construction, moves and copy assignment *)

(** [handle_heap(long size, init_zero_t)] *)
Definition handle_heap_ctor_zero (size : Z) (st : state T)
    : option (handle_heap.t * state T) :=
  if decide (size = 0) then Some (handle_heap.null, st)
  else
    let '(b, st1) := allocate_zero (to_size_t (size * sizeof)) st in
    if decide (blk_ptr b = nullptr) then None
    else Some ({| handle_heap._data := blk_ptr b;
                  handle_heap._size := to_size_t size;
                  handle_heap._id := 0 |}, st1).

(** [handle_heap(handle_heap &&x) noexcept]: the new handle and the source
    afterwards. *)
Definition handle_heap_move_ctor (x : handle_heap.t)
    : handle_heap.t * handle_heap.t :=
  ({| handle_heap._data := handle_heap._data x;
      handle_heap._size := handle_heap._size x;
      handle_heap._id := handle_heap._id x |},
   {| handle_heap._data := nullptr; handle_heap._size := 0;
      handle_heap._id := 0 |}).

(** The move constructor on heap-handle objects: the object at [this] is
    constructed from the object at [x]; [None] when [x] is no object. *)
Definition handle_heap_move_ctor_at (this x : Z) (st : state T)
    : option (state T) :=
  match heaps st !! x with
  | None => None
  | Some hx =>
      let '(h, x') := handle_heap_move_ctor hx in
      Some (set_heaps <[x := x']> (set_heaps <[this := h]> st))
  end.

(** [handle_heap &operator=(handle_heap &&x) noexcept] on heap-handle
    objects; [this] and [x] may be the same object. *)
Definition handle_heap_move_assign_at (this x : Z) (st : state T)
    : option (state T) :=
  match heaps st !! this with
  | None => None
  | Some hthis =>
      let st1 := handle_heap_decref hthis st in
      match heaps st1 !! x with
      | None => None
      | Some hx =>
          let '(h, x') := handle_heap_move_ctor hx in
          Some (set_heaps <[x := x']> (set_heaps <[this := h]> st1))
      end
  end.

(** [handle_heap &operator=(handle_heap const &x)], that is
    [*this = handle_heap{x}]: a temporary is copy-constructed from [x],
    move-assigned to [*this], and destroyed. *)
Definition handle_heap_copy_assign_at (this x : Z) (st : state T)
    : option (state T) :=
  match heaps st !! x with
  | None => None
  | Some hx =>
      match handle_heap_copy_ctor hx st with
      | None => None
      | Some (tmp, st1) =>
          match heaps st1 !! this with
          | None => None
          | Some hthis =>
              let st2 := handle_heap_decref hthis st1 in
              let '(h, tmp') := handle_heap_move_ctor tmp in
              Some (handle_heap_dtor tmp' (set_heaps <[this := h]> st2))
          end
      end
  end.

(** ** Shared handle: moves *)

(** What a move leaves of its source: [_data], [_size] and [_id] are
    reset, the foreign fields stay. *)
Definition handle_shared_invalidate (x : handle_shared.t) : handle_shared.t :=
  {| handle_shared._data := nullptr; handle_shared._size := 0;
     handle_shared._id := 0;
     handle_shared._foreign_handle := handle_shared._foreign_handle x;
     handle_shared._foreign_decref := handle_shared._foreign_decref x |}.

(** [handle_shared(handle_shared &&x) noexcept]: the new handle and the
    source afterwards. *)
Definition handle_shared_move_ctor (x : handle_shared.t)
    : handle_shared.t * handle_shared.t :=
  (handle_shared_copy x, handle_shared_invalidate x).

(** [handle_shared &operator=(handle_shared &&x) noexcept], for a source [x]
    that is another object than [*this]: the new value of [*this], the source
    afterwards, and the state. *)
Definition handle_shared_move_assign (self x : handle_shared.t) (st : state T)
    : handle_shared.t * handle_shared.t * state T :=
  let st1 := handle_shared_decref self st in
  (handle_shared_copy x, handle_shared_invalidate x, st1).

(** The same operator when [x] is [*this] itself: the one object ends
    invalidated. *)
Definition handle_shared_move_assign_self (self : handle_shared.t) (st : state T)
    : handle_shared.t * state T :=
  let st1 := handle_shared_decref self st in
  (handle_shared_invalidate (handle_shared_copy self), st1).

(** ** Stack handle: copies, moves, destruction *)

Variable Size : Z.

(** [handle_stack &operator=(handle_stack const &x)] *)
Definition handle_stack_copy_assign (self x : handle_stack.t) (st : state T)
    : handle_stack.t * state T :=
  (self,
   for_loop Size
     (fun i => placement_new_copy (ptr_add (handle_stack_data self) i)
                                  (ptr_add (handle_stack_data x) i)) st).

(** [handle_stack(handle_stack &&x) noexcept { operator=(x); }]: inside the
    body [x] is an lvalue, so that the copy assignment is what runs. *)
Definition handle_stack_move_ctor (this : Z) (x : handle_stack.t) (st : state T)
    : handle_stack.t * state T :=
  handle_stack_copy_assign {| handle_stack.buffer := this |} x st.

(** [handle_stack &operator=(handle_stack &&x) noexcept] *)
Definition handle_stack_move_assign (self x : handle_stack.t) (st : state T)
    : handle_stack.t * state T :=
  handle_stack_copy_assign self x st.

(** [~handle_stack() noexcept] *)
Definition handle_stack_dtor (h : handle_stack.t) (st : state T) : state T :=
  destroy_elements (handle_stack_data h) Size st.

(** ** SSO handle: copy assignment *)

(** [handle_sso &operator=(handle_sso const &x) noexcept].  When [x] is
    [*this] itself, its size is read after [clean()] and its elements are
    read through the pointer just stored. *)
Definition handle_sso_copy_assign (self x : handle_sso.t) (st : state T)
    : option (handle_sso.t * state T) :=
  let '(self1, st1) := handle_sso_clean Size self st in
  let same := bool_decide (handle_sso.buffer self = handle_sso.buffer x) in
  let size := if same then handle_sso._size self1 else handle_sso._size x in
  if decide (size = 0) then
    Some ({| handle_sso.buffer := handle_sso.buffer self;
             handle_sso._data := handle_sso._data self1;
             handle_sso._size := size |}, st1)
  else
    let alloc :=
      if bool_decide (Size < size) then
        let '(b, st2) := allocate (to_size_t (size * sizeof)) st1 in
        if decide (blk_ptr b = nullptr) then None else Some (blk_ptr b, st2)
      else Some (buffer_data (handle_sso.buffer self), st1) in
    match alloc with
    | None => None
    | Some (data, st2) =>
        let xdata := if same then data else handle_sso._data x in
        Some ({| handle_sso.buffer := handle_sso.buffer self;
                 handle_sso._data := data; handle_sso._size := size |},
              for_loop size
                (fun i => placement_new_copy (ptr_add data i) (ptr_add xdata i))
                st2)
    end.

(** ** Invariants *)

(** The invariant of the SSO handle: null with size 0, or its elements in
    its own buffer with a size up to the capacity, or its elements on a block
    from the allocator with a size above the capacity. *)
Definition sso_invariant (h : handle_sso.t) : Prop :=
  (handle_sso._data h = nullptr /\ handle_sso._size h = 0) \/
  sso_inline_resident Size h \/
  (Size < handle_sso._size h /\ exists b, handle_sso._data h = (HeapBlock b, 0)).

(** How many of the events are calls of the allocator. *)
Definition allocator_calls (evs : list event) : nat :=
  length (filter (fun e => is_allocator_call e = true) evs).

(** The constructor calls of a loop over [n] elements. *)
Definition default_events (data : ptr) (n : Z) : list event :=
  (fun i => EvDefaultConstruct (ptr_add data i)) <$> seqZ 0 n.

(** The events of a heap handle of [n <> 0] elements on the block at [data],
    from its construction to its destruction. *)
Definition heap_lifetime_events (init_dcmplx : bool) (n : Z) (data : ptr)
    : list event :=
  let bytes := to_size_t (n * sizeof) in
  [if is_complex && init_dcmplx then EvAllocateZero bytes data
   else EvAllocate bytes data]
  ++ (if negb is_trivial && negb is_complex
      then default_events data (to_size_t n) else [])
  ++ destroy_events data (to_size_t n)
  ++ [EvDeallocate data bytes].

End MoreHandles.


(** * Strings in a character buffer (c++/nda/h5.hpp) *)

Module h5_details.
Local Open Scope nat_scope.

(** [h5::char_buf], declared by the h5 library: the characters, and the
    lengths (number of strings, width of a string). *)
Record char_buf : Type := { buffer : list ascii; lengths : list nat }.

Definition NUL : ascii := Ascii.zero.

(** The C string that starts at the head of [l]: the characters before the
    first NUL (or all of them, if there is none). *)
Fixpoint c_string (l : list ascii) : list ascii :=
  match l with
  | [] => []
  | c :: l' => if decide (c = NUL) then [] else c :: c_string l'
  end.

(** [x.c_str()]: the characters of [x] followed by a NUL. *)
Definition c_str (x : list ascii) : list ascii := x ++ [NUL].

(** Storing the characters [cs] from position [pos] on. *)
Fixpoint write_chars (pos : nat) (cs : list ascii) (buf : list ascii)
    : list ascii :=
  match cs with
  | [] => buf
  | c :: cs' => write_chars (S pos) cs' (<[pos := c]> buf)
  end.

(** [strcpy(&buf[pos], src)]: the C string at [src] and its NUL. *)
Definition strcpy (pos : nat) (src : list ascii) (buf : list ascii)
    : list ascii :=
  write_chars pos (c_string src ++ [NUL]) buf.

(** [for (auto &x : v) s = std::max(s, x.size() + 1);] *)
Definition max_width (v : list (list ascii)) : nat :=
  foldl (fun s x => Nat.max s (length x + 1)) 0 v.

(** [for (auto &x : v) { strcpy(&buf[i * s], x.c_str()); ++i; }] *)
Fixpoint copy_strings (i s : nat) (v : list (list ascii)) (buf : list ascii)
    : list ascii :=
  match v with
  | [] => buf
  | x :: v' => copy_strings (S i) s v' (strcpy (i * s) (c_str x) buf)
  end.

(** [h5::char_buf to_char_buf(A const &v)], for a one-dimensional array of
    strings. *)
Definition to_char_buf (v : list (list ascii)) : char_buf :=
  let s := max_width v in
  let buf := replicate (length v * s) NUL in
  {| buffer := copy_strings 0 s v buf; lengths := [length v; s] |}.

(** [void from_char_buf(h5::char_buf const &cb, A &v)]: the new contents of
    [v], which is resized to [cb.lengths[0]] strings, each one the C string
    at its position of the buffer. *)
Definition from_char_buf (cb : char_buf) : list (list ascii) :=
  let len_string := nth 1 (lengths cb) 0 in
  (fun i => c_string (drop (i * len_string) (buffer cb)))
    <$> seq 0 (nth 0 (lengths cb) 0).

(** A string followed by NULs up to the width [s]. *)
Definition padded (s : nat) (x : list ascii) : list ascii :=
  x ++ replicate (s - length x) NUL.

End h5_details.

(** * The overlap checks of the MPI reduction (c++/nda/mpi/reduce.hpp) *)

Module lazy_mpi.

(** What [invoke] reads of an [array_contiguous_view]: the address of its
    first element (counted in elements), its number of elements and its
    shape. *)
Record view_t : Type := {
  data_start : Z;
  size : Z;
  shape : list Z
}.

(** [struct reduce]: the source view, the root and the [all] flag (the
    communicator gives the rank of the calling process; the operation is
    passed on as it is). *)
Record reduce : Type := {
  source : view_t;
  root : Z;
  all : bool
}.

Inductive mpi_buffer : Type :=
  | MPI_IN_PLACE
  | Buffer (p : Z).

Definition INT_MAX : Z := 2 ^ 31 - 1.

(** The conversion of a [long] to the [int] that [MPI_Reduce] and
    [MPI_Allreduce] take as their count. *)
Definition to_int (z : Z) : Z :=
  let m := z mod 2 ^ 32 in
  if decide (m <= INT_MAX) then m else m - 2 ^ 32.

(** The two MPI calls, with their [int count]. *)
Inductive mpi_call : Type :=
  | MPI_Reduce (sendbuf : mpi_buffer) (recvbuf : Z) (count : Z) (root : Z)
  | MPI_Allreduce (sendbuf : mpi_buffer) (recvbuf : Z) (count : Z).

(** The three [NDA_RUNTIME_ERROR]s of [invoke]. *)
Inductive reduce_error : Type :=
  | SamePointerDifferentSize
  | ShapeMismatch
  | OverlappingArrays.

Section Invoke.

(** [resize_or_check_if_view(target_view, sha)], declared outside
    [reduce.hpp]: whether it returns ([true]) or throws. *)
Variable resize_or_check_if_view : view_t -> list Z -> bool.

(** [void invoke(view_t target_view) const], on the process of rank
    [rank]: the error thrown, or the MPI call made. *)
Definition invoke (r : reduce) (rank : Z) (target_view : view_t)
    : reduce_error + mpi_call :=
  let in_place :=
    bool_decide (data_start target_view = data_start (source r)) in
  let sha := shape (source r) in
  let v_p := data_start target_view in
  let rhs_p := data_start (source r) in
  let rhs_n_elem := size (source r) in
  let call :=
    if negb (all r) then
      if in_place
      then MPI_Reduce (if bool_decide (rank = root r) then MPI_IN_PLACE
                       else Buffer rhs_p) rhs_p (to_int rhs_n_elem) (root r)
      else MPI_Reduce (Buffer rhs_p) v_p (to_int rhs_n_elem) (root r)
    else
      if in_place then MPI_Allreduce MPI_IN_PLACE rhs_p (to_int rhs_n_elem)
      else MPI_Allreduce (Buffer rhs_p) v_p (to_int rhs_n_elem) in
  if in_place then
    if decide (size (source r) <> size target_view)
    then inl SamePointerDifferentSize
    else inr call
  else
    if (bool_decide (rank = root r) || all r)
       && negb (resize_or_check_if_view target_view sha)
    then inl ShapeMismatch
    else if decide (Z.abs (data_start target_view - data_start (source r))
                    < size (source r))
    then inl OverlappingArrays
    else inr call.

End Invoke.

Definition recvbuf_of (c : mpi_call) : Z :=
  match c with
  | MPI_Reduce _ p _ _ | MPI_Allreduce _ p _ => p
  end.

Definition sendbuf_of (c : mpi_call) : mpi_buffer :=
  match c with
  | MPI_Reduce b _ _ _ | MPI_Allreduce b _ _ => b
  end.

Definition count_of (c : mpi_call) : Z :=
  match c with
  | MPI_Reduce _ _ n _ | MPI_Allreduce _ _ n => n
  end.

End lazy_mpi.

(** * The hyperslab of a slice (c++/nda/h5.hpp) *)

Module h5_slice.

(** An element of the slice tuple: an integer, or an [nda::range], of which
    the function reads [first()], [step()] and [size()]. *)
Inductive slice_item : Type :=
  | Index (i : Z)
  | Range (first step size : Z).

(** [h5::array_interface::hyperslab], declared by the h5 library: three
    vectors of [hsize_t], an unsigned integer of 64 bits. *)
Record hyperslab : Type := {
  offset : list Z;
  stride : list Z;
  count : list Z
}.

(** The conversion of a [long] (or of another integer) to [hsize_t]. *)
Definition to_hsize_t (z : Z) : Z := z mod 2 ^ 64.

(** [std::is_same_v<IR, nda::range>] *)
Definition is_range (it : slice_item) : bool :=
  match it with Range _ _ _ => true | Index _ => false end.

(** The number of [nda::range]s among the elements of the tuple. *)
Definition sliced_rank (slice : list slice_item) : nat :=
  length (filter (fun it => is_range it = true) slice).

(** The fold over the positions [n] of the tuple, with the counter [m] of
    the shape entries written so far. *)
Fixpoint fill (n m : nat) (slice : list slice_item) (hsl : hyperslab)
    (shape : list Z) : hyperslab * list Z :=
  match slice with
  | [] => (hsl, shape)
  | Index ir :: rest =>
      fill (S n) m rest
        {| offset := <[n := to_hsize_t ir]> (offset hsl);
           stride := stride hsl;
           count := <[n := 1]> (count hsl) |} shape
  | Range first step size :: rest =>
      fill (S n) (S m) rest
        {| offset := <[n := to_hsize_t first]> (offset hsl);
           stride := <[n := to_hsize_t step]> (stride hsl);
           count := <[n := to_hsize_t size]> (count hsl) |} (<[m := size]> shape)
  end.

(** [hyperslab_and_shape_from_slice(slice, is_complex)], where [hsl0] is
    the hyperslab that the h5 library constructs for the length of the slice
    and [is_complex]. *)
Definition hyperslab_and_shape_from_slice (hsl0 : hyperslab)
    (slice : list slice_item) : hyperslab * list Z :=
  fill 0 0 slice hsl0 (replicate (sliced_rank slice) 0).

(** What a slice element selects along its dimension. *)
Definition item_count (it : slice_item) : Z :=
  match it with Index _ => 1 | Range _ _ size => size end.

Definition item_offset (it : slice_item) : Z :=
  match it with Index i => i | Range first _ _ => first end.

Definition item_stride (it : slice_item) : option Z :=
  match it with Index _ => None | Range _ step _ => Some step end.

(** A slice element whose index or first index, and whose size, are not
    negative. *)
Definition item_nonneg (it : slice_item) : Prop :=
  0 <= item_offset it <= LONG_MAX /\ 0 <= item_count it <= LONG_MAX.

Definition range_sizes (slice : list slice_item) : list Z :=
  omap (fun it => match it with Range _ _ size => Some size | Index _ => None end)
       slice.

Definition product (l : list Z) : Z := foldr Z.mul 1 l.

End h5_slice.


(** * Properties *)

(** ** Machine integers *)

Lemma to_size_t_small (z : Z) : 0 <= z <= LONG_MAX -> to_size_t z = z.
Proof.
  unfold to_size_t, SIZE_MODULUS, LONG_MAX. intros H.
  apply Z.mod_small. lia.
Qed.

Lemma to_long_small (z : Z) : 0 <= z <= LONG_MAX -> to_long z = z.
Proof.
  unfold to_long, SIZE_MODULUS, LONG_MAX. intros H.
  rewrite Z.mod_small by lia.
  destruct (decide (z <= 2 ^ 63 - 1)); lia.
Qed.

(** ** Fresh keys *)

Lemma fresh_key_above {A : Type} (m : gmap Z A) (k : Z) :
  is_Some (m !! k) -> k < fresh_key m.
Proof.
  unfold fresh_key.
  cut (forall j, is_Some (m !! j) -> j <= map_fold (fun k _ r => Z.max k r) 0 m).
  { intros Hcut Hk. specialize (Hcut k Hk). lia. }
  apply (map_fold_weak_ind
           (fun r (m' : gmap Z A) => forall j, is_Some (m' !! j) -> j <= r)).
  - intros j [x Hx]. by rewrite lookup_empty in Hx.
  - intros i x m' r Hi IH j Hj.
    destruct (decide (i = j)) as [->|Hne]; [lia|].
    rewrite lookup_insert_ne in Hj by done.
    specialize (IH j Hj). lia.
Qed.

Lemma fresh_key_pos {A : Type} (m : gmap Z A) : 0 < fresh_key m.
Proof.
  unfold fresh_key.
  cut (0 <= map_fold (fun k (_ : A) r => Z.max k r) 0 m); [lia|].
  apply (map_fold_weak_ind (fun r (_ : gmap Z A) => 0 <= r)); intros; lia.
Qed.

Lemma fresh_key_fresh {A : Type} (m : gmap Z A) : m !! fresh_key m = None.
Proof.
  destruct (m !! fresh_key m) eqn:E; [|done].
  assert (fresh_key m < fresh_key m) by (apply fresh_key_above; eauto).
  lia.
Qed.

Section Properties.
Context {T : Type} `{VT : ValueType T}.
Implicit Types st : state T.

(** ** Loops *)

(** An invariant indexed by the loop counter is carried through the loop. *)
Lemma loop_from_ind (P : Z -> state T -> Prop) body (k : nat) :
  forall i st,
    P i st ->
    (forall j s, i <= j < i + Z.of_nat k -> P j s -> P (j + 1) (body j s)) ->
    P (i + Z.of_nat k) (loop_from i k body st).
Proof.
  induction k as [|k IH]; intros i st H0 Hstep; simpl.
  - by replace (i + Z.of_nat 0) with i by lia.
  - replace (i + Z.of_nat (S k)) with ((i + 1) + Z.of_nat k) by lia.
    apply IH.
    + apply Hstep; [lia|done].
    + intros j s Hj. apply Hstep. lia.
Qed.

Lemma for_loop_ind (P : Z -> state T -> Prop) body (n : Z) st :
  0 <= n ->
  P 0 st ->
  (forall j s, 0 <= j < n -> P j s -> P (j + 1) (body j s)) ->
  P n (for_loop n body st).
Proof.
  intros Hn H0 Hstep. unfold for_loop.
  replace n with (0 + Z.of_nat (Z.to_nat n)) at 1 by lia.
  apply loop_from_ind; [done|].
  intros j s Hj. apply Hstep. lia.
Qed.

(** A property of states that every iteration keeps holds after the loop. *)
Lemma for_loop_preserves (P : state T -> Prop) body (n : Z) st :
  P st -> (forall j s, P s -> P (body j s)) -> P (for_loop n body st).
Proof.
  intros H0 Hstep. unfold for_loop.
  generalize 0 at 1. revert st H0.
  induction (Z.to_nat n) as [|k IH]; intros st H0 i; simpl; [done|].
  apply IH. by apply Hstep.
Qed.

(** ** Construction from a size (C3) *)

Lemma allocate_ptr (s : Z) st :
  s <= avail st -> blk_ptr (allocate s st).1 = (HeapBlock (fresh_key (live st)), 0).
Proof. intros H. unfold allocate. by rewrite decide_True. Qed.

Lemma allocate_zero_ptr (s : Z) st :
  s <= avail st ->
  blk_ptr (allocate_zero s st).1 = (HeapBlock (fresh_key (live st)), 0).
Proof. intros H. unfold allocate_zero. by rewrite decide_True. Qed.

Lemma handle_heap_ctor_fields init_dcmplx (n : Z) st h st' :
  handle_heap_ctor init_dcmplx n st = Some (h, st') ->
  handle_heap._size h = to_size_t n /\
  (handle_heap._data h = nullptr <-> n = 0).
Proof.
  unfold handle_heap_ctor. intros H.
  destruct (decide (n = 0)) as [->|Hn].
  - injection H as <- <-. done.
  - destruct (if is_complex && init_dcmplx then _ else _) as [b st1].
    destruct (decide (blk_ptr b = nullptr)) as [|Hb]; [done|].
    injection H as <- <-. simpl. split; [done|]. split; intros; done.
Qed.

Lemma handle_heap_ctor_total init_dcmplx (n : Z) st :
  to_size_t (n * sizeof) <= avail st ->
  is_Some (handle_heap_ctor init_dcmplx n st).
Proof.
  intros Hroom. unfold handle_heap_ctor.
  destruct (decide (n = 0)); [eauto|].
  destruct (is_complex && init_dcmplx).
  - pose proof (allocate_zero_ptr _ st Hroom) as Hp.
    destruct (allocate_zero _ st) as [b st1]. simpl in Hp.
    rewrite decide_False; [eauto|]. by rewrite Hp.
  - pose proof (allocate_ptr _ st Hroom) as Hp.
    destruct (allocate _ st) as [b st1]. simpl in Hp.
    rewrite decide_False; [eauto|]. by rewrite Hp.
Qed.

Lemma handle_sso_ctor_fields init_dcmplx Size this (n : Z) st h st' :
  handle_sso_ctor init_dcmplx Size this n st = Some (h, st') ->
  handle_sso._size h = to_size_t n /\
  (handle_sso._data h = nullptr <-> n = 0).
Proof.
  unfold handle_sso_ctor. intros H.
  destruct (decide (n = 0)) as [->|Hn].
  - injection H as <- <-. done.
  - destruct (negb (bool_decide (Size < to_size_t n))).
    + injection H as <- <-. simpl. split; [done|]. split; intros; done.
    + destruct (if is_complex && init_dcmplx then _ else _) as [b st1].
      destruct (decide (blk_ptr b = nullptr)) as [|Hb]; [done|].
      injection H as <- <-. simpl. split; [done|]. split; intros; done.
Qed.

Lemma handle_sso_ctor_total init_dcmplx Size this (n : Z) st :
  to_size_t (n * sizeof) <= avail st ->
  is_Some (handle_sso_ctor init_dcmplx Size this n st).
Proof.
  intros Hroom. unfold handle_sso_ctor.
  destruct (decide (n = 0)); [eauto|].
  destruct (negb (bool_decide (Size < to_size_t n))); [eauto|].
  destruct (is_complex && init_dcmplx).
  - pose proof (allocate_zero_ptr _ st Hroom) as Hp.
    destruct (allocate_zero _ st) as [b st1]. simpl in Hp.
    rewrite decide_False; [eauto|]. by rewrite Hp.
  - pose proof (allocate_ptr _ st Hroom) as Hp.
    destruct (allocate _ st) as [b st1]. simpl in Hp.
    rewrite decide_False; [eauto|]. by rewrite Hp.
Qed.

(** C3, as amended.  Constructing a heap or SSO handle from a size [n >= 0]
    yields, whenever the construction completes, [size() == n] and
    [is_null() == (n == 0)], and the construction completes when the
    allocator can serve [n * sizeof(T)] bytes.  A stack handle ignores [n]:
    its [size()] is the capacity [Size] and its [is_null()] is false. *)
Theorem owning_ctor_size_and_null init_dcmplx Size (n : Z) st :
  0 <= n <= LONG_MAX ->
  (forall h st', handle_heap_ctor init_dcmplx n st = Some (h, st') ->
     handle_heap_size h = n /\ handle_heap_is_null h = bool_decide (n = 0)) /\
  (forall this h st', handle_sso_ctor init_dcmplx Size this n st = Some (h, st') ->
     handle_sso_size h = n /\ handle_sso_is_null h = bool_decide (n = 0)) /\
  (to_size_t (n * sizeof) <= avail st ->
     is_Some (handle_heap_ctor init_dcmplx n st) /\
     forall this, is_Some (handle_sso_ctor init_dcmplx Size this n st)) /\
  (forall this,
     let h := (handle_stack_ctor Size this n st).1 in
     handle_stack_size Size h = to_long Size /\
     (0 <= Size <= LONG_MAX -> handle_stack_size Size h = Size) /\
     handle_stack_is_null h = false).
Proof.
  intros Hn. repeat split.
  - apply handle_heap_ctor_fields in H as [Hs _].
    unfold handle_heap_size. rewrite Hs, to_size_t_small by done.
    by apply to_long_small.
  - apply handle_heap_ctor_fields in H as [_ Hd].
    unfold handle_heap_is_null. apply bool_decide_ext, Hd.
  - apply handle_sso_ctor_fields in H as [Hs _].
    unfold handle_sso_size. rewrite Hs, to_size_t_small by done.
    by apply to_long_small.
  - apply handle_sso_ctor_fields in H as [_ Hd].
    unfold handle_sso_is_null. apply bool_decide_ext, Hd.
  - by apply handle_heap_ctor_total.
  - intros this. by apply handle_sso_ctor_total.
  - intros HS. by apply to_long_small.
Qed.

(** ** Borrowed handles (C7, C9) *)

(** C7.  A borrowed handle constructed from the heap handle at address [x]
    with offset [k] has [data()] equal to the heap handle's [data() + k], and
    the construction changes nothing: the heap handle keeps its data pointer,
    its size and its id.  The same holds for a heap handle of another
    allocator, which the constructor only reads. *)
Theorem borrowed_from_heap_offset (x : Z) (hx : handle_heap.t) (k : Z) st :
  heaps st !! x = Some hx ->
  (exists b st',
     handle_borrowed_ctor (BorrowHeapVoid x k) st = Some (b, st') /\
     handle_borrowed_data b = ptr_add (handle_heap_data hx) k /\
     heaps st' !! x = Some hx /\
     st' = st) /\
  (exists b,
     handle_borrowed_ctor (BorrowHeapAlloc hx k) st = Some (b, st) /\
     handle_borrowed_data b = ptr_add (handle_heap_data hx) k).
Proof.
  intros Hx. split.
  - exists {| handle_borrowed._parent := Some x;
              handle_borrowed._data := ptr_add (handle_heap_data hx) k |}, st.
    simpl. by rewrite Hx.
  - eexists. split; [reflexivity|done].
Qed.

(** C9, as amended.  The [parent()] of a freshly constructed borrowed handle
    is the heap handle at [x] exactly when it was constructed from that heap
    handle (default allocator), or copied from a borrowed handle whose
    [parent()] is already [x]; every other constructor leaves it null. *)
Theorem borrowed_parent_origin (c : borrowed_ctor) st b st' (x : Z) :
  handle_borrowed_ctor c st = Some (b, st') ->
  handle_borrowed_parent b = Some x <->
  (exists k, c = BorrowHeapVoid x k) \/
  (exists b0, c = BorrowCopy b0 /\ handle_borrowed_parent b0 = Some x).
Proof.
  intros H.
  destruct c; simpl in H; try destruct (heaps st !! _);
    simplify_eq; unfold handle_borrowed_parent; simpl;
    (split; [intros ? | intros [[? ?]|[? [? ?]]]]); simplify_eq; eauto.
Qed.

(** ** The table of reference counts *)

Lemma rtable_refcount_incref id st :
  rtable_refcount id (rtable_incref id st) = rtable_refcount id st + 1.
Proof.
  unfold rtable_incref, rtable_refcount. simpl. by rewrite lookup_insert_eq.
Qed.

Lemma rtable_get_fresh st :
  (rtable_get st).1 <> 0 /\ refcounts st !! (rtable_get st).1 = None /\
  rtable_refcount (rtable_get st).1 (rtable_get st).2 = 1.
Proof.
  unfold rtable_get, rtable_refcount. simpl. split; [|split].
  - pose proof (fresh_key_pos (refcounts st)). lia.
  - apply fresh_key_fresh.
  - by rewrite lookup_insert_eq.
Qed.

Lemma rtable_decref_spec id st :
  (rtable_decref id st).1 = bool_decide (rtable_refcount id st = 1) /\
  rtable_refcount id (rtable_decref id st).2 = rtable_refcount id st - 1 /\
  performed st (rtable_decref id st).2 [EvRtableDecref id] /\
  cells (rtable_decref id st).2 = cells st /\
  live (rtable_decref id st).2 = live st /\
  avail (rtable_decref id st).2 = avail st /\
  heaps (rtable_decref id st).2 = heaps st.
Proof.
  unfold rtable_decref, performed.
  destruct (decide (rtable_refcount id st - 1 = 0)) as [Hz|Hz]; simpl.
  - rewrite bool_decide_eq_true_2 by lia. unfold rtable_refcount at 1. simpl.
    rewrite lookup_delete_eq. simpl. repeat split; lia.
  - rewrite bool_decide_eq_false_2 by lia. unfold rtable_refcount at 1. simpl.
    rewrite lookup_insert_eq. done.
Qed.

(** ** Promotion of a heap handle (C1) *)

Lemma heap_id_at_set x id st :
  is_Some (heaps st !! x) -> heap_id_at x (heap_set_id x id st) = id.
Proof.
  intros [hx Hx]. unfold heap_id_at, heap_set_id. simpl.
  by rewrite lookup_alter_eq, Hx.
Qed.

(** The shared handle that refers to the buffer of [hx] under [id]. *)
Lemma from_heap_unregistered (x : Z) (hx : handle_heap.t) st :
  heaps st !! x = Some hx ->
  handle_heap._id hx = 0 ->
  handle_heap_is_null hx = false ->
  let id := fresh_key (refcounts st) in
  handle_shared_from_heap x st =
    Some ({| handle_shared._data := handle_heap_data hx;
             handle_shared._size := to_size_t (handle_heap_size hx);
             handle_shared._id := id;
             handle_shared._foreign_handle := 0;
             handle_shared._foreign_decref := 0 |},
          rtable_incref id (heap_set_id x id (rtable_get st).2)).
Proof.
  intros Hx Hid Hnull id.
  assert (H0 : heap_id_at x st = 0) by (unfold heap_id_at; by rewrite Hx).
  unfold handle_shared_from_heap. rewrite Hx, Hnull, H0. simpl.
  unfold handle_shared_incref. simpl.
  rewrite heap_id_at_set by (simpl; eauto). done.
Qed.

Lemma from_heap_registered (x : Z) (hx : handle_heap.t) st :
  heaps st !! x = Some hx ->
  handle_heap._id hx <> 0 ->
  handle_heap_is_null hx = false ->
  handle_shared_from_heap x st =
    Some ({| handle_shared._data := handle_heap_data hx;
             handle_shared._size := to_size_t (handle_heap_size hx);
             handle_shared._id := handle_heap._id hx;
             handle_shared._foreign_handle := 0;
             handle_shared._foreign_decref := 0 |},
          rtable_incref (handle_heap._id hx) st).
Proof.
  intros Hx Hid Hnull.
  assert (H0 : heap_id_at x st = handle_heap._id hx)
    by (unfold heap_id_at; by rewrite Hx).
  unfold handle_shared_from_heap. rewrite Hx, Hnull.
  rewrite decide_False by (by rewrite H0).
  by rewrite H0.
Qed.

(** The state after the first promotion of the heap handle at [x]. *)
Lemma promoted_state (x : Z) (hx : handle_heap.t) st :
  heaps st !! x = Some hx ->
  let id := fresh_key (refcounts st) in
  let st1 := rtable_incref id (heap_set_id x id (rtable_get st).2) in
  id <> 0 /\
  heaps st1 !! x = Some {| handle_heap._data := handle_heap._data hx;
                           handle_heap._size := handle_heap._size hx;
                           handle_heap._id := id |} /\
  heap_id_at x st1 = id /\
  rtable_refcount id st1 = 2 /\
  performed st st1 [EvRtableGet id; EvRtableIncref id].
Proof.
  intros Hx id st1.
  assert (Hx1 : heaps st1 !! x =
                Some {| handle_heap._data := handle_heap._data hx;
                        handle_heap._size := handle_heap._size hx;
                        handle_heap._id := id |}).
  { subst st1. simpl. by rewrite lookup_alter_eq, Hx. }
  split; [pose proof (fresh_key_pos (refcounts st)); subst id; lia|].
  split; [done|].
  split; [unfold heap_id_at; by rewrite Hx1|].
  split.
  - subst st1. rewrite rtable_refcount_incref. unfold rtable_refcount. simpl.
    fold id. by rewrite lookup_insert_eq.
  - subst st1. unfold performed. simpl. by rewrite <- app_assoc.
Qed.

(** C1, as amended.  A null heap handle is not promoted: the shared handle
    built from it is null and nothing is registered.  For a non-null heap
    handle whose id is 0, the first cross-construction registers an id that
    the table did not hold, writes it into the heap handle's id field and
    increments its count; the second cross-construction from the same heap
    handle finds that id and only increments the count.  Both shared handles
    and the heap handle end with the same id, and the count goes to 2 and
    then to 3 (the table's [get] starts it at 1). *)
Theorem promote_twice_same_id (x : Z) (hx : handle_heap.t) st :
  heaps st !! x = Some hx ->
  handle_heap._id hx = 0 ->
  (handle_heap_is_null hx = true ->
   exists s, handle_shared_from_heap x st = Some (s, st) /\
             handle_shared._id s = 0 /\ handle_shared_is_null s = true) /\
  (handle_heap_is_null hx = false ->
   exists s1 st1 s2 st2 id,
    handle_shared_from_heap x st = Some (s1, st1) /\
    handle_shared_from_heap x st1 = Some (s2, st2) /\
    id <> 0 /\ refcounts st !! id = None /\
    handle_shared._id s1 = id /\ heap_id_at x st1 = id /\
    performed st st1 [EvRtableGet id; EvRtableIncref id] /\
    handle_shared._id s2 = id /\ heap_id_at x st2 = id /\
    performed st1 st2 [EvRtableIncref id] /\
    rtable_refcount id st1 = 2 /\ rtable_refcount id st2 = 3).
Proof.
  intros Hx Hid. split; intros Hnull.
  - unfold handle_shared_from_heap. rewrite Hx, Hnull. eexists. split; [reflexivity|].
    split; [done|]. exact Hnull.
  - destruct (promoted_state x hx st Hx) as (Hpos & Hx1 & Hid1 & Hc & Htr).
    pose proof (from_heap_unregistered x hx st Hx Hid Hnull) as H1. simpl in H1.
    set (id := fresh_key (refcounts st)) in *.
    set (st1 := rtable_incref id (heap_set_id x id (rtable_get st).2)) in *.
    pose proof (from_heap_registered x _ st1 Hx1 Hpos Hnull) as H2. simpl in H2.
    assert (Hc2 : rtable_refcount id (rtable_incref id st1) = 3)
      by (rewrite rtable_refcount_incref; lia).
    exists {| handle_shared._data := handle_heap_data hx;
              handle_shared._size := to_size_t (handle_heap_size hx);
              handle_shared._id := id;
              handle_shared._foreign_handle := 0;
              handle_shared._foreign_decref := 0 |}, st1.
    exists {| handle_shared._data := handle_heap_data hx;
              handle_shared._size := to_size_t (handle_heap_size hx);
              handle_shared._id := id;
              handle_shared._foreign_handle := 0;
              handle_shared._foreign_decref := 0 |}, (rtable_incref id st1), id.
    split; [exact H1|]. split; [exact H2|].
    split; [done|]. split; [apply fresh_key_fresh|].
    repeat split; done.
Qed.

(** ** Copies of a shared handle (C2) *)

Lemma handle_shared_copy_same (x : handle_shared.t) : handle_shared_copy x = x.
Proof. by destruct x. Qed.

(** The copy constructor copies the five fields and increments the count
    exactly when the copy is not null. *)
Lemma handle_shared_copy_ctor_spec (x : handle_shared.t) st :
  (handle_shared_copy_ctor x st).1 = x /\
  (handle_shared_is_null x = true -> (handle_shared_copy_ctor x st).2 = st) /\
  (handle_shared_is_null x = false ->
   (handle_shared_copy_ctor x st).2 = rtable_incref (handle_shared._id x) st).
Proof.
  unfold handle_shared_copy_ctor. rewrite handle_shared_copy_same. simpl.
  split; [done|]. split; intros ->; done.
Qed.

(** A sole holder copied: both handles report 2, and after either one is
    destroyed the other reports 1. *)
Lemma handle_shared_copy_ctor_counts (s1 : handle_shared.t) st :
  handle_shared_is_null s1 = false ->
  handle_shared_refcount s1 st = 1 ->
  let s2 := (handle_shared_copy_ctor s1 st).1 in
  let st' := (handle_shared_copy_ctor s1 st).2 in
  handle_shared_refcount s1 st' = 2 /\
  handle_shared_refcount s2 st' = 2 /\
  handle_shared_refcount s2 (handle_shared_dtor s1 st') = 1 /\
  handle_shared_refcount s1 (handle_shared_dtor s2 st') = 1.
Proof.
  intros Hnull Hc.
  destruct (handle_shared_copy_ctor_spec s1 st) as (-> & _ & ->); [|done].
  unfold handle_shared_refcount in *.
  assert (H2 : rtable_refcount (handle_shared._id s1)
                 (rtable_incref (handle_shared._id s1) st) = 2)
    by (rewrite rtable_refcount_incref; lia).
  split; [done|]. split; [done|].
  unfold handle_shared_dtor, handle_shared_decref. rewrite Hnull.
  destruct (rtable_decref_spec (handle_shared._id s1)
              (rtable_incref (handle_shared._id s1) st)) as (Hr & Hn & _).
  destruct (rtable_decref _ _) as [last st1]. simpl in *.
  rewrite H2 in Hr, Hn. rewrite bool_decide_eq_false_2 in Hr by lia.
  subst last. simpl. split; lia.
Qed.

(** A buffer adopted from a foreign library has one holder; copied, both
    handles report 2, and after either one is destroyed the other reports
    1. *)
Lemma foreign_shared_copy_counts (data : ptr) (size fh fd : Z) st :
  data <> nullptr ->
  let s1 := (handle_shared_foreign_ctor data size fh fd st).1 in
  let st1 := (handle_shared_foreign_ctor data size fh fd st).2 in
  let s2 := (handle_shared_copy_ctor s1 st1).1 in
  let st2 := (handle_shared_copy_ctor s1 st1).2 in
  handle_shared_refcount s1 st1 = 1 /\
  handle_shared_refcount s1 st2 = 2 /\
  handle_shared_refcount s2 st2 = 2 /\
  handle_shared_refcount s2 (handle_shared_dtor s1 st2) = 1 /\
  handle_shared_refcount s1 (handle_shared_dtor s2 st2) = 1.
Proof.
  intros Hdata s1 st1 s2 st2.
  assert (Hnull : handle_shared_is_null s1 = false)
    by (by apply bool_decide_eq_false_2).
  assert (Hc : handle_shared_refcount s1 st1 = 1)
    by (destruct (rtable_get_fresh st) as (_ & _ & H); exact H).
  split; [exact Hc|].
  exact (handle_shared_copy_ctor_counts s1 st1 Hnull Hc).
Qed.

(** C2, at the failing input.  Copy-assigning from the null shared handle
    calls [incref()] on the copy although it is null: after the release of
    the old value, the operation performed is [incref(0)], and the table's
    count under the reserved id 0 is one more than before.  The copy
    constructor, at the same source, performs nothing. *)
Theorem handle_shared_copy_assign_null (self : handle_shared.t) st :
  let r := handle_shared_copy_assign self handle_shared.null st in
  handle_shared_is_null r.1 = true /\
  performed (handle_shared_decref self st) r.2 [EvRtableIncref 0] /\
  rtable_refcount 0 r.2 = rtable_refcount 0 (handle_shared_decref self st) + 1 /\
  handle_shared_copy_ctor handle_shared.null st = (handle_shared.null, st).
Proof.
  simpl. split; [done|]. split; [done|]. split; [|done].
  unfold handle_shared_incref. simpl. apply rtable_refcount_incref.
Qed.

(** ** Traces of loops *)

Lemma loop_from_trace (ev : Z -> event) body :
  (forall j s, trace (body j s) = trace s ++ [ev j]) ->
  forall (k : nat) i st,
    trace (loop_from i k body st) = trace st ++ (ev <$> seqZ i (Z.of_nat k)).
Proof.
  intros Hbody. induction k as [|k IH]; intros i st; simpl.
  - by rewrite app_nil_r.
  - rewrite IH, Hbody, (seqZ_cons i) by lia.
    replace (Z.pred (Z.of_nat (S k))) with (Z.of_nat k) by lia.
    by rewrite <- app_assoc.
Qed.

Lemma for_loop_trace (ev : Z -> event) body (n : Z) st :
  (forall j s, trace (body j s) = trace s ++ [ev j]) ->
  performed st (for_loop n body st) (ev <$> seqZ 0 n).
Proof.
  intros Hbody. unfold performed, for_loop.
  rewrite (loop_from_trace ev) by done.
  unfold seqZ. by rewrite Nat2Z.id.
Qed.

Lemma for_loop_bookkeeping body (n : Z) st :
  (forall j s, same_bookkeeping s (body j s)) ->
  same_bookkeeping st (for_loop n body st).
Proof.
  intros Hbody.
  apply (for_loop_preserves (fun s => same_bookkeeping st s)); [done|].
  intros j s (? & ? & ? & ?). destruct (Hbody j s) as (? & ? & ? & ?).
  repeat split; congruence.
Qed.

(** ** Destruction of elements *)

Lemma destroy_elements_spec (data : ptr) (n : Z) st :
  performed st (destroy_elements data n st) (destroy_events data n) /\
  same_bookkeeping st (destroy_elements data n st) /\
  (forall p, p.1 <> data.1 ->
     cells (destroy_elements data n st) !! p = cells st !! p).
Proof.
  unfold destroy_elements, destroy_events. destruct is_trivial.
  - unfold performed. by rewrite app_nil_r.
  - split; [by apply for_loop_trace|]. split.
    + by apply for_loop_bookkeeping.
    + intros p Hp.
      apply (for_loop_preserves (fun s => cells s !! p = cells st !! p)); [done|].
      intros j s <-. simpl. apply lookup_delete_ne.
      intros <-. by apply Hp.
Qed.

Lemma destroy_events_spare (data : ptr) (n : Z) (r : region) :
  data.1 <> r -> Forall (spares r) (destroy_events data n).
Proof.
  intros Hr. unfold destroy_events. destruct is_trivial; [constructor|].
  apply Forall_fmap, Forall_forall. intros i _ p [= <-]. done.
Qed.

Lemma deallocate_spec (blk : blk_t) st :
  performed st (deallocate blk st) [EvDeallocate (blk_ptr blk) (blk_size blk)] /\
  refcounts (deallocate blk st) = refcounts st /\
  heaps (deallocate blk st) = heaps st /\
  (forall p, p.1 <> (blk_ptr blk).1 -> cells (deallocate blk st) !! p = cells st !! p) /\
  (forall b, (blk_ptr blk).1 <> HeapBlock b -> live (deallocate blk st) !! b = live st !! b).
Proof.
  unfold deallocate, performed.
  destruct ((blk_ptr blk).1) as [|b| |] eqn:Hb; try done.
  destruct (live st !! b) as [s|] eqn:Hl; [|done]. simpl.
  split; [done|]. split; [done|]. split; [done|]. split.
  - intros p Hp. rewrite map_lookup_filter.
    destruct (cells st !! p) as [v|]; [|done]. simpl.
    rewrite option_guard_True; [done|]. unfold in_block. simpl. congruence.
  - intros b' Hb'. apply lookup_delete_ne. congruence.
Qed.


(** ** Release of a shared buffer (C4) *)

Lemma performed_inv st st' evs evs' :
  performed st st' evs -> performed st st' evs' -> evs = evs'.
Proof. unfold performed. intros -> H. by apply app_inv_head in H. Qed.

Lemma performed_trans st st1 st2 evs1 evs2 :
  performed st st1 evs1 -> performed st1 st2 evs2 ->
  performed st st2 (evs1 ++ evs2).
Proof. unfold performed. intros H1 ->. by rewrite H1, app_assoc. Qed.

(** The events of releasing a natively allocated buffer. *)
Lemma release_native_spec (data : ptr) (size : Z) st :
  performed st
    (deallocate {| blk_ptr := data; blk_size := to_size_t (size * sizeof) |}
       (destroy_elements data size st))
    (destroy_events data size ++ [EvDeallocate data (to_size_t (size * sizeof))]).
Proof.
  eapply performed_trans.
  - apply destroy_elements_spec.
  - apply (deallocate_spec {| blk_ptr := data; blk_size := _ |}).
Qed.

Lemma handle_heap_dtor_others_remain (h : handle_heap.t) st :
  handle_heap_is_null h = false ->
  handle_heap_has_shared_memory h = true ->
  (rtable_decref (handle_heap._id h) st).1 = false ->
  handle_heap_dtor h st = (rtable_decref (handle_heap._id h) st).2.
Proof.
  intros Hnull Hsh Hdec. unfold handle_heap_dtor, handle_heap_decref.
  rewrite Hnull, Hsh. destruct (rtable_decref _ st) as [last st1].
  simpl in *. by subst last.
Qed.

Lemma handle_heap_dtor_last (h : handle_heap.t) st :
  handle_heap_is_null h = false ->
  handle_heap_has_shared_memory h = true ->
  (rtable_decref (handle_heap._id h) st).1 = true ->
  performed st (handle_heap_dtor h st)
    (EvRtableDecref (handle_heap._id h)
       :: destroy_events (handle_heap._data h) (handle_heap._size h)
       ++ [EvDeallocate (handle_heap._data h)
             (to_size_t (handle_heap._size h * sizeof))]).
Proof.
  intros Hnull Hsh Hdec. unfold handle_heap_dtor, handle_heap_decref.
  rewrite Hnull, Hsh.
  destruct (rtable_decref_spec (handle_heap._id h) st) as (_ & _ & Htr & _).
  destruct (rtable_decref _ st) as [last st1]. simpl in *. subst last. simpl.
  apply (performed_trans _ _ _ [_] _ Htr), release_native_spec.
Qed.

Lemma handle_shared_dtor_others_remain (s : handle_shared.t) st :
  handle_shared_is_null s = false ->
  (rtable_decref (handle_shared._id s) st).1 = false ->
  handle_shared_dtor s st = (rtable_decref (handle_shared._id s) st).2.
Proof.
  intros Hnull Hdec. unfold handle_shared_dtor, handle_shared_decref.
  rewrite Hnull. destruct (rtable_decref _ st) as [last st1].
  simpl in *. by subst last.
Qed.

Lemma handle_shared_dtor_last (s : handle_shared.t) st :
  handle_shared_is_null s = false ->
  (rtable_decref (handle_shared._id s) st).1 = true ->
  performed st (handle_shared_dtor s st)
    (EvRtableDecref (handle_shared._id s) ::
     if decide (handle_shared._foreign_handle s <> 0)
     then [EvForeignDecref (handle_shared._foreign_decref s)
                           (handle_shared._foreign_handle s)]
     else destroy_events (handle_shared._data s) (handle_shared._size s)
          ++ [EvDeallocate (handle_shared._data s)
                (to_size_t (handle_shared._size s * sizeof))]).
Proof.
  intros Hnull Hdec. unfold handle_shared_dtor, handle_shared_decref.
  rewrite Hnull.
  destruct (rtable_decref_spec (handle_shared._id s) st) as (_ & _ & Htr & _).
  destruct (rtable_decref _ st) as [last st1]. simpl in *. subst last. simpl.
  destruct (decide (handle_shared._foreign_handle s <> 0)).
  - apply (performed_trans _ _ _ [_] _ Htr). done.
  - apply (performed_trans _ _ _ [_] _ Htr), release_native_spec.
Qed.

(** One destruction.  Destroying a heap handle that has been promoted to
    shared, or a shared handle, while other holders remain (the table's [decref] returns
    false) performs the [decref] and nothing else: no element is destroyed,
    no block is deallocated, memory is as before.  A destructor call on an
    element, a deallocation or a foreign release callback occurs in such a
    destruction only if its [decref] returned true, and then the release
    does occur: the foreign callback for a foreign buffer, the element
    destructors followed by the deallocation otherwise. *)
Theorem shared_release_only_by_last (h : handle_heap.t) (s : handle_shared.t) st :
  (handle_heap_is_null h = false ->
   handle_heap_has_shared_memory h = true ->
   (rtable_decref (handle_heap._id h) st).1 = false ->
   performed st (handle_heap_dtor h st) [EvRtableDecref (handle_heap._id h)] /\
   cells (handle_heap_dtor h st) = cells st /\
   live (handle_heap_dtor h st) = live st) /\
  (handle_shared_is_null s = false ->
   (rtable_decref (handle_shared._id s) st).1 = false ->
   performed st (handle_shared_dtor s st) [EvRtableDecref (handle_shared._id s)] /\
   cells (handle_shared_dtor s st) = cells st /\
   live (handle_shared_dtor s st) = live st) /\
  (handle_heap_has_shared_memory h = true ->
   forall evs, performed st (handle_heap_dtor h st) evs ->
   Exists (fun e => is_release e = true) evs ->
   handle_heap_is_null h = false /\
   (rtable_decref (handle_heap._id h) st).1 = true) /\
  (forall evs, performed st (handle_shared_dtor s st) evs ->
   Exists (fun e => is_release e = true) evs ->
   handle_shared_is_null s = false /\
   (rtable_decref (handle_shared._id s) st).1 = true) /\
  (handle_heap_is_null h = false ->
   handle_heap_has_shared_memory h = true ->
   (rtable_decref (handle_heap._id h) st).1 = true ->
   performed st (handle_heap_dtor h st)
     (EvRtableDecref (handle_heap._id h)
        :: destroy_events (handle_heap._data h) (handle_heap._size h)
        ++ [EvDeallocate (handle_heap._data h)
              (to_size_t (handle_heap._size h * sizeof))])) /\
  (handle_shared_is_null s = false ->
   (rtable_decref (handle_shared._id s) st).1 = true ->
   performed st (handle_shared_dtor s st)
     (EvRtableDecref (handle_shared._id s) ::
      if decide (handle_shared._foreign_handle s <> 0)
      then [EvForeignDecref (handle_shared._foreign_decref s)
                            (handle_shared._foreign_handle s)]
      else destroy_events (handle_shared._data s) (handle_shared._size s)
           ++ [EvDeallocate (handle_shared._data s)
                 (to_size_t (handle_shared._size s * sizeof))])).
Proof.
  assert (Hheap : handle_heap_is_null h = false ->
            handle_heap_has_shared_memory h = true ->
            (rtable_decref (handle_heap._id h) st).1 = false ->
            performed st (handle_heap_dtor h st) [EvRtableDecref (handle_heap._id h)] /\
            cells (handle_heap_dtor h st) = cells st /\
            live (handle_heap_dtor h st) = live st).
  { intros Hn Hs Hd. rewrite handle_heap_dtor_others_remain by done.
    destruct (rtable_decref_spec (handle_heap._id h) st) as (_ & _ & ? & ? & ? & _).
    done. }
  assert (Hshared : handle_shared_is_null s = false ->
            (rtable_decref (handle_shared._id s) st).1 = false ->
            performed st (handle_shared_dtor s st) [EvRtableDecref (handle_shared._id s)] /\
            cells (handle_shared_dtor s st) = cells st /\
            live (handle_shared_dtor s st) = live st).
  { intros Hn Hd. rewrite handle_shared_dtor_others_remain by done.
    destruct (rtable_decref_spec (handle_shared._id s) st) as (_ & _ & ? & ? & ? & _).
    done. }
  split; [exact Hheap|]. split; [exact Hshared|]. split; [|split; [|split]].
  - intros Hs evs Hp Hex.
    destruct (handle_heap_is_null h) eqn:Hn.
    { unfold handle_heap_dtor, handle_heap_decref in Hp. rewrite Hn in Hp.
      assert (evs = []) as ->.
      { apply (performed_inv st st); [done|]. unfold performed. by rewrite app_nil_r. }
      by apply Exists_nil in Hex. }
    split; [done|].
    destruct ((rtable_decref (handle_heap._id h) st).1) eqn:Hd; [done|].
    destruct (Hheap eq_refl Hs eq_refl) as (Hp' & _).
    rewrite (performed_inv _ _ _ _ Hp Hp') in Hex.
    apply Exists_cons in Hex as [Hex|Hex]; [done|by apply Exists_nil in Hex].
  - intros evs Hp Hex.
    destruct (handle_shared_is_null s) eqn:Hn.
    { unfold handle_shared_dtor, handle_shared_decref in Hp. rewrite Hn in Hp.
      assert (evs = []) as ->.
      { apply (performed_inv st st); [done|]. unfold performed. by rewrite app_nil_r. }
      by apply Exists_nil in Hex. }
    split; [done|].
    destruct ((rtable_decref (handle_shared._id s) st).1) eqn:Hd; [done|].
    destruct (Hshared eq_refl eq_refl) as (Hp' & _).
    rewrite (performed_inv _ _ _ _ Hp Hp') in Hex.
    apply Exists_cons in Hex as [Hex|Hex]; [done|by apply Exists_nil in Hex].
  - apply handle_heap_dtor_last.
  - apply handle_shared_dtor_last.
Qed.

(** A heap handle promoted once and the shared handle made from it: in
    whichever order the two are destroyed, the first destruction only
    decrements the count and the second one destroys the elements and
    deallocates the block, once. *)
Lemma promoted_buffer_released_once (x : Z) (hx : handle_heap.t) st :
  heaps st !! x = Some hx ->
  handle_heap._id hx = 0 ->
  handle_heap_is_null hx = false ->
  exists s st1 hx1 id,
    handle_shared_from_heap x st = Some (s, st1) /\
    heaps st1 !! x = Some hx1 /\
    handle_heap._id hx1 = id /\ handle_shared._id s = id /\
    performed st1 (handle_shared_dtor s (handle_heap_dtor hx1 st1))
      ([EvRtableDecref id; EvRtableDecref id]
         ++ destroy_events (handle_shared._data s) (handle_shared._size s)
         ++ [EvDeallocate (handle_shared._data s)
               (to_size_t (handle_shared._size s * sizeof))]) /\
    performed st1 (handle_heap_dtor hx1 (handle_shared_dtor s st1))
      ([EvRtableDecref id; EvRtableDecref id]
         ++ destroy_events (handle_heap._data hx) (handle_heap._size hx)
         ++ [EvDeallocate (handle_heap._data hx)
               (to_size_t (handle_heap._size hx * sizeof))]).
Proof.
  intros Hx Hid Hnull.
  destruct (promoted_state x hx st Hx) as (Hid0 & Hx1 & _ & Hc & _).
  pose proof (from_heap_unregistered x hx st Hx Hid Hnull) as H1. simpl in H1.
  set (id := fresh_key (refcounts st)) in *.
  set (st1 := rtable_incref id (heap_set_id x id (rtable_get st).2)) in *.
  set (hx1 := {| handle_heap._data := handle_heap._data hx;
                 handle_heap._size := handle_heap._size hx;
                 handle_heap._id := id |}) in *.
  set (s := {| handle_shared._data := handle_heap_data hx;
               handle_shared._size := to_size_t (handle_heap_size hx);
               handle_shared._id := id;
               handle_shared._foreign_handle := 0;
               handle_shared._foreign_decref := 0 |}) in *.
  assert (Hs : handle_shared._id s = id) by done.
  assert (Hsnull : handle_shared_is_null s = false) by exact Hnull.
  assert (Hsh : handle_heap_has_shared_memory hx1 = true)
    by (unfold handle_heap_has_shared_memory; simpl; by apply bool_decide_eq_true_2).
  assert (Hsf : handle_shared._foreign_handle s = 0) by done.
  destruct (rtable_decref_spec id st1) as (Hr1 & Hn1 & Ht1 & _).
  rewrite Hc in Hr1, Hn1. rewrite bool_decide_eq_false_2 in Hr1 by lia.
  destruct (rtable_decref_spec id (rtable_decref id st1).2) as (Hr2 & _).
  rewrite Hn1 in Hr2. rewrite bool_decide_eq_true_2 in Hr2 by lia.
  exists s, st1, hx1, id. split; [done|]. split; [done|]. split; [done|].
  split; [done|]. split.
  - rewrite (handle_heap_dtor_others_remain hx1 st1) by done. simpl.
    apply (performed_trans _ _ _ [_] _ Ht1).
    pose proof (handle_shared_dtor_last s (rtable_decref id st1).2 Hsnull) as Hl.
    rewrite Hs, Hsf in Hl. rewrite decide_False in Hl by lia. by apply Hl.
  - rewrite (handle_shared_dtor_others_remain s st1) by (by rewrite ?Hs).
    rewrite Hs.
    apply (performed_trans _ _ _ [_] _ Ht1).
    by apply (handle_heap_dtor_last hx1 (rtable_decref id st1).2).
Qed.

(** The last holder of a native buffer releases it, and the id is no longer
    counted. *)
Lemma handle_shared_dtor_only_holder (s : handle_shared.t) st :
  handle_shared_is_null s = false ->
  handle_shared._foreign_handle s = 0 ->
  rtable_refcount (handle_shared._id s) st = 1 ->
  performed st (handle_shared_dtor s st) (release_events s) /\
  rtable_refcount (handle_shared._id s) (handle_shared_dtor s st) = 0.
Proof.
  intros Hnull Hf Hone.
  destruct (rtable_decref_spec (handle_shared._id s) st) as (Hd & Hc & _).
  rewrite Hone in Hd, Hc. rewrite bool_decide_eq_true_2 in Hd by done.
  split.
  - pose proof (handle_shared_dtor_last s st Hnull Hd) as Hp.
    rewrite decide_False in Hp by (intros H; by apply H). exact Hp.
  - unfold handle_shared_dtor, handle_shared_decref. rewrite Hnull.
    destruct (rtable_decref _ st) as [last st1]. simpl in *. subst last. simpl.
    rewrite decide_False by (intros H; by apply H).
    set (st2 := destroy_elements _ _ st1).
    destruct (destroy_elements_spec (handle_shared._data s)
                (handle_shared._size s) st1) as (_ & (_ & _ & Hr2 & _) & _).
    destruct (deallocate_spec
                {| blk_ptr := handle_shared._data s;
                   blk_size := to_size_t (handle_shared._size s * sizeof) |} st2)
      as (_ & Hr3 & _).
    unfold rtable_refcount in *. rewrite Hr3. subst st2. rewrite Hr2. exact Hc.
Qed.

(** With [k + 1] holders of the native buffer of [s], all of them copies of
    [s], the first [k] destructions only decrement the count and the last
    one releases the buffer: once. *)
Lemma shared_holders_released_once (s : handle_shared.t) (k : nat) :
  handle_shared_is_null s = false ->
  handle_shared._foreign_handle s = 0 ->
  forall st,
    rtable_refcount (handle_shared._id s) st = Z.of_nat (S k) ->
    performed st (Nat.iter (S k) (handle_shared_dtor s) st)
      (replicate k (EvRtableDecref (handle_shared._id s)) ++ release_events s).
Proof.
  intros Hnull Hf. induction k as [|k IH]; intros st Hcount.
  - simpl. by apply handle_shared_dtor_only_holder.
  - rewrite Nat.iter_succ_r.
    destruct (rtable_decref_spec (handle_shared._id s) st) as (Hd & Hc & Ht & _).
    rewrite Hcount in Hd, Hc. rewrite bool_decide_eq_false_2 in Hd by lia.
    rewrite (handle_shared_dtor_others_remain s st Hnull Hd).
    change (replicate (S k) ?e ++ ?l) with ([e] ++ (replicate k e ++ l)).
    apply (performed_trans _ _ _ _ _ Ht). apply IH. lia.
Qed.

(** C4.  The release of a shared buffer is not always the only one.  A
    shared handle that is the only holder of a natively allocated buffer
    (its count is 1), copy-assigned to itself and then destroyed, releases
    the buffer twice: [operator=] decrements the count to zero, destroys the
    elements and deallocates the block, then copies the fields of the handle
    onto themselves and increments the count, so that the handle is not null
    and its count is 1 again; the [decref] of the destructor then returns
    true once more, and the elements are destroyed and the same pointer is
    deallocated a second time. *)
Theorem shared_self_assign_releases_twice (s : handle_shared.t) st :
  handle_shared_is_null s = false ->
  handle_shared._foreign_handle s = 0 ->
  rtable_refcount (handle_shared._id s) st = 1 ->
  (handle_shared_copy_assign s s st).1 = s /\
  performed st (handle_shared_copy_assign s s st).2
    (release_events s ++ [EvRtableIncref (handle_shared._id s)]) /\
  rtable_refcount (handle_shared._id s) (handle_shared_copy_assign s s st).2 = 1 /\
  performed st
    (handle_shared_dtor (handle_shared_copy_assign s s st).1
       (handle_shared_copy_assign s s st).2)
    (release_events s ++ [EvRtableIncref (handle_shared._id s)]
       ++ release_events s).
Proof.
  intros Hnull Hf Hone. unfold handle_shared_copy_assign. cbn [fst snd].
  rewrite handle_shared_copy_same.
  destruct (handle_shared_dtor_only_holder s st Hnull Hf Hone) as [Hp1 Hz].
  change (handle_shared_decref s st) with (handle_shared_dtor s st).
  set (st1 := handle_shared_dtor s st) in *.
  assert (Hp2 : performed st1 (handle_shared_incref s st1)
                  [EvRtableIncref (handle_shared._id s)]) by done.
  assert (Hone2 : rtable_refcount (handle_shared._id s) (handle_shared_incref s st1) = 1)
    by (unfold handle_shared_incref; rewrite rtable_refcount_incref; lia).
  destruct (handle_shared_dtor_only_holder s (handle_shared_incref s st1)
              Hnull Hf Hone2) as [Hp3 _].
  split; [done|]. split; [exact (performed_trans _ _ _ _ _ Hp1 Hp2)|].
  split; [done|].
  rewrite app_assoc.
  exact (performed_trans _ _ _ _ _ (performed_trans _ _ _ _ _ Hp1 Hp2) Hp3).
Qed.

(** ** Copies of elements *)

Lemma ptr_add_region (p : ptr) (k : Z) : (ptr_add p k).1 = p.1.
Proof. done. Qed.

Lemma ptr_add_inj (p : ptr) (j k : Z) : ptr_add p j = ptr_add p k -> j = k.
Proof. unfold ptr_add. intros [= H]. lia. Qed.

Lemma copy_cell_lookup (dst src p : ptr) (m : gmap ptr T) :
  copy_cell dst src m !! p = if decide (p = dst) then m !! src else m !! p.
Proof.
  unfold copy_cell. destruct (m !! src) as [v|] eqn:Hs.
  - destruct (decide (p = dst)) as [->|Hne].
    + by rewrite lookup_insert_eq.
    + by rewrite lookup_insert_ne.
  - destruct (decide (p = dst)) as [->|Hne].
    + by rewrite lookup_delete_eq.
    + by rewrite lookup_delete_ne.
Qed.

(** A loop that copies cell [src + j] to cell [dst + j], for two pointers
    into different regions: the first [n] cells at [dst] end equal to the
    first [n] cells at [src], and no cell outside the region of [dst]
    changes. *)
Lemma for_loop_copy_cells body (dst src : ptr) (n : Z) st :
  (forall j s, cells (body j s)
               = copy_cell (ptr_add dst j) (ptr_add src j) (cells s)) ->
  dst.1 <> src.1 ->
  (forall i, 0 <= i < n ->
     cells (for_loop n body st) !! ptr_add dst i = cells st !! ptr_add src i) /\
  (forall p, p.1 <> dst.1 -> cells (for_loop n body st) !! p = cells st !! p).
Proof.
  intros Hbody Hreg.
  destruct (decide (0 <= n)) as [Hn|Hn].
  2: { unfold for_loop. replace (Z.to_nat n) with 0%nat by lia. simpl.
       split; [intros; lia|done]. }
  pose (P := fun (j : Z) (s : state T) =>
    (forall i, 0 <= i < j -> cells s !! ptr_add dst i = cells st !! ptr_add src i) /\
    (forall p, p.1 <> dst.1 -> cells s !! p = cells st !! p)).
  cut (P n (for_loop n body st)); [done|].
  apply for_loop_ind; [done| |].
  - split; [intros; lia|done].
  - intros j s Hj [Hcopied Hframe]. split.
    + intros i Hi. rewrite Hbody, copy_cell_lookup.
      destruct (decide (ptr_add dst i = ptr_add dst j)) as [Heq|Hne].
      * apply ptr_add_inj in Heq as ->. apply Hframe.
        rewrite ptr_add_region. congruence.
      * apply Hcopied.
        destruct (decide (i = j)) as [->|]; [done|lia].
    + intros p Hp. rewrite Hbody, copy_cell_lookup.
      rewrite decide_False; [by apply Hframe|].
      intros ->. by rewrite ptr_add_region in Hp.
Qed.

Lemma copy_construct_loop_spec (dst src : ptr) (n : Z) st :
  let st' := for_loop n (fun i => placement_new_copy (ptr_add dst i) (ptr_add src i)) st in
  performed st st' (copy_events dst src n) /\
  same_bookkeeping st st' /\
  (dst.1 <> src.1 ->
   (forall i, 0 <= i < n -> cells st' !! ptr_add dst i = cells st !! ptr_add src i) /\
   (forall p, p.1 <> dst.1 -> cells st' !! p = cells st !! p)).
Proof.
  simpl. split; [|split].
  - by apply (for_loop_trace (fun i => EvCopyConstruct (ptr_add dst i) (ptr_add src i))).
  - by apply for_loop_bookkeeping.
  - intros Hreg. by apply for_loop_copy_cells.
Qed.

Lemma memcpy_spec (dst src : ptr) (n : Z) st :
  performed st (memcpy dst src n st) [EvMemcpy dst src (to_size_t (n * sizeof))] /\
  same_bookkeeping st (memcpy dst src n st) /\
  (dst.1 <> src.1 ->
   (forall i, 0 <= i < n ->
      cells (memcpy dst src n st) !! ptr_add dst i = cells st !! ptr_add src i) /\
   (forall p, p.1 <> dst.1 -> cells (memcpy dst src n st) !! p = cells st !! p)).
Proof.
  unfold memcpy.
  set (body := fun i => set_cells (copy_cell (ptr_add dst i) (ptr_add src i))).
  split; [|split].
  - unfold performed. simpl. f_equal.
    apply (for_loop_preserves (fun s => trace s = trace st)); [done|].
    by intros j s <-.
  - apply (for_loop_bookkeeping body n st). done.
  - intros Hreg. by apply (for_loop_copy_cells body).
Qed.

Section SsoMoves.
Variable Size : Z.

(** ** Moves of an SSO handle (C5, C10) *)

Lemma handle_sso_take_heap (this : Z) (x : handle_sso.t) st :
  sso_heap_resident Size x ->
  handle_sso_take Size this false x st =
    ({| handle_sso.buffer := this; handle_sso._data := handle_sso._data x;
        handle_sso._size := handle_sso._size x |}, moved_from x, st).
Proof.
  intros Hres. unfold handle_sso_take.
  by rewrite bool_decide_eq_true_2.
Qed.

Lemma handle_sso_take_inline (this : Z) (x : handle_sso.t) st :
  sso_inline_resident Size x ->
  handle_sso_take Size this false x st =
    ({| handle_sso.buffer := this; handle_sso._data := buffer_data this;
        handle_sso._size := handle_sso._size x |}, moved_from x,
     for_loop (handle_sso._size x)
       (fun i => placement_new_copy (ptr_add (buffer_data this) i)
                                    (ptr_add (handle_sso._data x) i)) st).
Proof.
  intros [Hd Hs]. unfold handle_sso_take.
  rewrite bool_decide_eq_false_2 by lia.
  by rewrite decide_True by lia.
Qed.

(** [clean()] nulls the pointer and keeps the size field; it destroys
    elements and touches cells only in the region its pointer points
    into. *)
Lemma handle_sso_clean_spec (h : handle_sso.t) st :
  let r := handle_sso_clean Size h st in
  handle_sso.buffer r.1 = handle_sso.buffer h /\
  handle_sso._data r.1 = nullptr /\
  handle_sso._size r.1 = handle_sso._size h /\
  forall reg, (handle_sso._data h).1 <> reg ->
    (exists evs, performed st r.2 evs /\ Forall (spares reg) evs) /\
    (forall p, p.1 = reg -> cells r.2 !! p = cells st !! p).
Proof.
  unfold handle_sso_clean.
  destruct (handle_sso_is_null h) eqn:Hnull; simpl.
  - apply bool_decide_eq_true_1 in Hnull.
    repeat split; try done.
    exists []. split; [unfold performed; by rewrite app_nil_r|constructor].
  - split; [done|]. split; [done|]. split; [done|].
    intros reg Hreg.
    destruct (destroy_elements_spec (handle_sso_data h) (handle_sso._size h) st)
      as (Htr & _ & Hcells).
    pose proof (destroy_events_spare (handle_sso_data h) (handle_sso._size h) reg Hreg)
      as Hsp.
    destruct (handle_sso_on_heap Size h).
    + set (blk := {| blk_ptr := handle_sso._data h; blk_size := _ |}).
      destruct (deallocate_spec blk
                  (destroy_elements (handle_sso_data h) (handle_sso._size h) st))
        as (Htr2 & _ & _ & Hcells2 & _).
      split.
      * eexists. split; [exact (performed_trans _ _ _ _ _ Htr Htr2)|].
        apply Forall_app. split; [done|].
        apply Forall_singleton. intros p ?. discriminate.
      * intros p Hp. rewrite Hcells2 by (simpl; congruence).
        apply Hcells. unfold handle_sso_data. congruence.
    + split; [eauto|].
      intros p Hp. apply Hcells. unfold handle_sso_data. congruence.
Qed.

Lemma sso_wf_outside (self x : handle_sso.t) :
  sso_data_wf self -> handle_sso.buffer self <> handle_sso.buffer x ->
  (handle_sso._data self).1 <> InlineBuffer (handle_sso.buffer x).
Proof.
  intros [->|[->|[b ->]]] Hne; simpl; congruence.
Qed.

(** C5, as amended.  Move construction from a heap-resident source steals
    the pointer and performs nothing: no allocator call, no element copy.
    Move assignment first cleans the destination (which destroys its old
    elements and deallocates its old block when it was on the heap) and then
    does the same, performing nothing more.  From an inline-resident source,
    both copy-construct each of the source's elements into the destination's
    own buffer, so that the destination holds equal elements at another
    address.  In all cases the source is left with a null pointer and size
    0. *)
Theorem sso_move_by_residency (this : Z) (self x : handle_sso.t) st :
  (sso_heap_resident Size x ->
   handle_sso_move_ctor Size this x st =
     ({| handle_sso.buffer := this; handle_sso._data := handle_sso._data x;
         handle_sso._size := handle_sso._size x |}, moved_from x, st)) /\
  (sso_inline_resident Size x -> this <> handle_sso.buffer x ->
   exists h st',
     handle_sso_move_ctor Size this x st = (h, moved_from x, st') /\
     handle_sso._data h = buffer_data this /\
     handle_sso._data h <> handle_sso._data x /\
     handle_sso._size h = handle_sso._size x /\
     (forall i, 0 <= i < handle_sso._size x ->
        cells st' !! ptr_add (handle_sso._data h) i
        = cells st !! ptr_add (handle_sso._data x) i) /\
     performed st st'
       (copy_events (buffer_data this) (handle_sso._data x) (handle_sso._size x))) /\
  (sso_heap_resident Size x -> handle_sso.buffer self <> handle_sso.buffer x ->
   handle_sso_move_assign Size self x st =
     ({| handle_sso.buffer := handle_sso.buffer self;
         handle_sso._data := handle_sso._data x;
         handle_sso._size := handle_sso._size x |}, moved_from x,
      (handle_sso_clean Size self st).2)) /\
  (sso_inline_resident Size x -> handle_sso.buffer self <> handle_sso.buffer x ->
   sso_data_wf self ->
   exists h st',
     handle_sso_move_assign Size self x st = (h, moved_from x, st') /\
     handle_sso._data h = buffer_data (handle_sso.buffer self) /\
     handle_sso._data h <> handle_sso._data x /\
     handle_sso._size h = handle_sso._size x /\
     (forall i, 0 <= i < handle_sso._size x ->
        cells st' !! ptr_add (handle_sso._data h) i
        = cells st !! ptr_add (handle_sso._data x) i) /\
     performed (handle_sso_clean Size self st).2 st'
       (copy_events (buffer_data (handle_sso.buffer self)) (handle_sso._data x)
          (handle_sso._size x))).
Proof.
  split; [|split; [|split]].
  - intros Hres. by apply handle_sso_take_heap.
  - intros Hres Hne.
    unfold handle_sso_move_ctor. rewrite handle_sso_take_inline by done.
    destruct Hres as [Hd Hs].
    assert (Hreg : (buffer_data this).1 <> (handle_sso._data x).1)
      by (rewrite Hd; simpl; congruence).
    destruct (copy_construct_loop_spec (buffer_data this) (handle_sso._data x)
                (handle_sso._size x) st) as (Htr & _ & Hcells).
    destruct (Hcells Hreg) as [Hcopied _].
    do 2 eexists. split; [reflexivity|]. simpl.
    split; [done|]. split; [rewrite Hd; unfold buffer_data; congruence|].
    split; [done|]. split; [exact Hcopied|exact Htr].
  - intros Hres Hne. unfold handle_sso_move_assign.
    destruct (handle_sso_clean Size self st) as [self1 st1].
    rewrite decide_False by done. by apply handle_sso_take_heap.
  - intros Hres Hne Hwf. unfold handle_sso_move_assign.
    destruct (handle_sso_clean_spec self st) as (_ & _ & _ & Hclean).
    destruct (Hclean _ (sso_wf_outside self x Hwf Hne)) as [_ Hkept].
    destruct (handle_sso_clean Size self st) as [self1 st1]. simpl in *.
    rewrite decide_False by done. rewrite handle_sso_take_inline by done.
    destruct Hres as [Hd Hs].
    assert (Hreg : (buffer_data (handle_sso.buffer self)).1 <> (handle_sso._data x).1)
      by (rewrite Hd; simpl; congruence).
    destruct (copy_construct_loop_spec (buffer_data (handle_sso.buffer self))
                (handle_sso._data x) (handle_sso._size x) st1) as (Htr & _ & Hcells).
    destruct (Hcells Hreg) as [Hcopied _].
    do 2 eexists. split; [reflexivity|]. simpl.
    split; [done|]. split; [rewrite Hd; unfold buffer_data; congruence|].
    split; [done|]. split; [|exact Htr].
    intros i Hi. rewrite Hcopied by done.
    apply Hkept. by rewrite ptr_add_region, Hd.
Qed.

(** C10.  Moving from an inline-resident source (by construction, or by
    assignment to another handle) leaves the source with a null pointer and
    size 0, calls no destructor on an element of the source's buffer and
    leaves those elements in memory; destroying the source afterwards
    performs nothing.  Move-assigning the source to itself is different:
    [clean()] calls the destructor of each of its elements (when the type is
    not trivial), each element is then copy-constructed from itself, and the
    handle is left null. *)
Theorem sso_move_spares_inline_source (this : Z) (self x : handle_sso.t) st :
  sso_inline_resident Size x ->
  (this <> handle_sso.buffer x ->
   exists h x' st' evs,
     handle_sso_move_ctor Size this x st = (h, x', st') /\
     handle_sso._data x' = nullptr /\ handle_sso._size x' = 0 /\
     performed st st' evs /\
     Forall (spares (InlineBuffer (handle_sso.buffer x))) evs /\
     (forall p, p.1 = InlineBuffer (handle_sso.buffer x) ->
        cells st' !! p = cells st !! p) /\
     handle_sso_dtor Size x' st' = st') /\
  (handle_sso.buffer self <> handle_sso.buffer x -> sso_data_wf self ->
   exists h x' st' evs,
     handle_sso_move_assign Size self x st = (h, x', st') /\
     handle_sso._data x' = nullptr /\ handle_sso._size x' = 0 /\
     performed st st' evs /\
     Forall (spares (InlineBuffer (handle_sso.buffer x))) evs /\
     (forall p, p.1 = InlineBuffer (handle_sso.buffer x) ->
        cells st' !! p = cells st !! p) /\
     handle_sso_dtor Size x' st' = st') /\
  (exists st',
     handle_sso_move_assign Size x x st = (moved_from x, moved_from x, st') /\
     performed st st'
       (destroy_events (handle_sso._data x) (handle_sso._size x)
        ++ copy_events (handle_sso._data x) (handle_sso._data x)
             (handle_sso._size x)) /\
     handle_sso_dtor Size (moved_from x) st' = st').
Proof.
  intros Hres. pose proof Hres as [Hd Hsz].
  assert (Hcopy : forall dst src n,
            Forall (spares (InlineBuffer (handle_sso.buffer x))) (copy_events dst src n)).
  { intros. apply Forall_fmap, Forall_forall. intros i _ p ?. discriminate. }
  assert (Hself : exists st',
            handle_sso_move_assign Size x x st = (moved_from x, moved_from x, st') /\
            performed st st'
              (destroy_events (handle_sso._data x) (handle_sso._size x)
               ++ copy_events (handle_sso._data x) (handle_sso._data x)
                    (handle_sso._size x)) /\
            handle_sso_dtor Size (moved_from x) st' = st').
  { unfold handle_sso_move_assign, handle_sso_clean.
    unfold handle_sso_is_null, handle_sso_on_heap, handle_sso_data.
    rewrite Hd. simpl.
    rewrite (bool_decide_eq_false_2 (Size < _)) by lia.
    rewrite decide_True by done.
    unfold handle_sso_take. simpl.
    rewrite (bool_decide_eq_false_2 (Size < _)) by lia.
    rewrite decide_True by lia.
    destruct (destroy_elements_spec (buffer_data (handle_sso.buffer x))
                (handle_sso._size x) st) as (Ht1 & _ & _).
    destruct (copy_construct_loop_spec (buffer_data (handle_sso.buffer x))
                (buffer_data (handle_sso.buffer x)) (handle_sso._size x)
                (destroy_elements (buffer_data (handle_sso.buffer x))
                   (handle_sso._size x) st)) as (Ht2 & _ & _).
    eexists. split; [reflexivity|].
    split; [exact (performed_trans _ _ _ _ _ Ht1 Ht2)|]. done. }
  split; [|split; [|exact Hself]].
  - intros Hne. unfold handle_sso_move_ctor.
    rewrite handle_sso_take_inline by done.
    destruct (copy_construct_loop_spec (buffer_data this) (handle_sso._data x)
                (handle_sso._size x) st) as (Htr & _ & Hcells).
    destruct Hcells as [_ Hframe]; [rewrite Hd; simpl; congruence|].
    do 4 eexists. split; [reflexivity|]. simpl.
    split; [done|]. split; [done|]. split; [exact Htr|]. split; [apply Hcopy|].
    split; [|done]. intros p Hp. apply Hframe. simpl. congruence.
  - intros Hne Hwf. unfold handle_sso_move_assign.
    destruct (handle_sso_clean_spec self st) as (_ & _ & _ & Hclean).
    destruct (Hclean _ (sso_wf_outside self x Hwf Hne)) as [(evs & Hevs & Hsp) Hkept].
    destruct (handle_sso_clean Size self st) as [self1 st1]. simpl in *.
    rewrite decide_False by done. rewrite handle_sso_take_inline by done.
    destruct (copy_construct_loop_spec (buffer_data (handle_sso.buffer self))
                (handle_sso._data x) (handle_sso._size x) st1) as (Htr & _ & Hcells).
    destruct Hcells as [_ Hframe]; [rewrite Hd; simpl; congruence|].
    do 4 eexists. split; [reflexivity|]. simpl.
    split; [done|]. split; [done|].
    split; [exact (performed_trans _ _ _ _ _ Hevs Htr)|].
    split; [apply Forall_app; split; [done|apply Hcopy]|].
    split; [|done]. intros p Hp. rewrite Hframe by (simpl; congruence).
    by apply Hkept.
Qed.

End SsoMoves.

(** ** Cloning (C6, C8) *)

Lemma allocate_inv (s : Z) st (blk : blk_t) st1 :
  allocate s st = (blk, st1) ->
  blk_ptr blk <> nullptr ->
  blk_ptr blk = (HeapBlock (fresh_key (live st)), 0) /\
  cells st1 = cells st /\
  live st1 = <[fresh_key (live st) := s]> (live st) /\
  refcounts st1 = refcounts st /\
  performed st st1 [EvAllocate s (HeapBlock (fresh_key (live st)), 0)].
Proof.
  unfold allocate. destruct (decide (s <= avail st)); intros [= <- <-]; [done|].
  intros Hp. by destruct Hp.
Qed.

(** A fresh block is not the storage of a pointer whose storage is live. *)
Lemma fresh_block_not_live (p : ptr) st :
  storage_live p st -> p.1 <> HeapBlock (fresh_key (live st)).
Proof.
  intros Hlive Heq. destruct (Hlive _ Heq) as [s Hs].
  by rewrite fresh_key_fresh in Hs.
Qed.

Lemma handle_heap_clone_zero (xdata : ptr) st :
  handle_heap_clone xdata 0 st = Some (handle_heap.null, st).
Proof. done. Qed.

(** The clone of a buffer of [n <> 0] elements: an unshared heap handle on a
    block that was not allocated before; nothing but the cells of that block
    is written, and the table of reference counts is not consulted. *)
Lemma handle_heap_clone_spec (xdata : ptr) (n : Z) st h st' :
  handle_heap_clone xdata n st = Some (h, st') ->
  n <> 0 ->
  storage_live xdata st ->
  let b := fresh_key (live st) in
  h = {| handle_heap._data := (HeapBlock b, 0);
         handle_heap._size := to_size_t n; handle_heap._id := 0 |} /\
  xdata.1 <> HeapBlock b /\
  (forall p, p.1 <> HeapBlock b -> cells st' !! p = cells st !! p) /\
  live st' = <[b := to_size_t (n * sizeof)]> (live st) /\
  refcounts st' = refcounts st /\
  (exists evs, performed st st' evs /\ Forall no_rtable_call evs) /\
  (0 <= n <= LONG_MAX -> forall i, 0 <= i < n ->
     cells st' !! ptr_add (HeapBlock b, 0) i = cells st !! ptr_add xdata i).
Proof.
  intros Hclone Hn Hlive b.
  pose proof (fresh_block_not_live xdata st Hlive) as Hreg. fold b in Hreg.
  unfold handle_heap_clone, handle_heap_ctor_noinit in Hclone.
  rewrite decide_False in Hclone by done.
  destruct (allocate _ st) as [blk st1] eqn:Halloc.
  destruct (decide (blk_ptr blk = nullptr)) as [|Hp]; [done|].
  destruct (allocate_inv _ _ _ _ Halloc Hp) as (Hb & Hc1 & Hl1 & Hr1 & Ht1).
  fold b in Hb, Hl1, Ht1. rewrite Hb in Hclone.
  injection Hclone as <- <-.
  split; [done|]. split; [done|].
  unfold clone_into, handle_heap_is_null. simpl.
  assert (Hreg' : (HeapBlock b, 0).1 <> xdata.1) by (simpl; congruence).
  destruct is_trivially_copyable.
  - destruct (memcpy_spec (HeapBlock b, 0) xdata n st1)
      as (Ht2 & (Hl2 & _ & Hr2 & _) & Hcells).
    destruct (Hcells Hreg') as [Hcopied Hframe].
    split; [intros p Hp'; rewrite Hframe by done; by rewrite Hc1|].
    split; [congruence|]. split; [congruence|]. split.
    + eexists. split; [exact (performed_trans _ _ _ _ _ Ht1 Ht2)|].
      repeat constructor.
    + intros Hrange i Hi. rewrite Hcopied by done. by rewrite Hc1.
  - destruct (copy_construct_loop_spec (HeapBlock b, 0) xdata (to_size_t n) st1)
      as (Ht2 & (Hl2 & _ & Hr2 & _) & Hcells).
    destruct (Hcells Hreg') as [Hcopied Hframe].
    split; [intros p Hp'; rewrite Hframe by done; by rewrite Hc1|].
    split; [congruence|]. split; [congruence|]. split.
    + eexists. split; [exact (performed_trans _ _ _ _ _ Ht1 Ht2)|].
      apply Forall_app. split; [repeat constructor|].
      apply Forall_fmap, Forall_forall. by intros.
    + intros Hrange i Hi. rewrite Hcopied by (rewrite to_size_t_small; lia).
      by rewrite Hc1.
Qed.

Lemma handle_heap_clone_total (xdata : ptr) (n : Z) st :
  to_size_t (n * sizeof) <= avail st -> is_Some (handle_heap_clone xdata n st).
Proof.
  intros Hroom. unfold handle_heap_clone, handle_heap_ctor_noinit.
  destruct (decide (n = 0)); [eauto|].
  pose proof (allocate_ptr _ st Hroom) as Hp.
  destruct (allocate _ st) as [b st1]. simpl in Hp.
  rewrite decide_False; [eauto|]. by rewrite Hp.
Qed.

(** Destroying an unshared heap handle on block [b]: the table is not
    consulted, and no cell and no block other than [b] is touched. *)
Lemma handle_heap_dtor_unshared (h : handle_heap.t) (b : Z) st :
  handle_heap._id h = 0 ->
  handle_heap._data h = (HeapBlock b, 0) ->
  refcounts (handle_heap_dtor h st) = refcounts st /\
  (exists evs, performed st (handle_heap_dtor h st) evs /\ Forall no_rtable_call evs) /\
  (forall p, p.1 <> HeapBlock b -> cells (handle_heap_dtor h st) !! p = cells st !! p) /\
  (forall b', b' <> b -> live (handle_heap_dtor h st) !! b' = live st !! b').
Proof.
  intros Hid Hdata. unfold handle_heap_dtor, handle_heap_decref.
  unfold handle_heap_is_null, handle_heap_has_shared_memory. rewrite Hid, Hdata.
  rewrite bool_decide_eq_false_2 by done.
  rewrite bool_decide_eq_false_2 by (intros H; by apply H).
  set (blk := {| blk_ptr := (HeapBlock b, 0); blk_size := _ |}).
  destruct (destroy_elements_spec (HeapBlock b, 0) (handle_heap._size h) st)
    as (Ht1 & (_ & _ & Hr1 & _) & Hc1).
  destruct (deallocate_spec blk
              (destroy_elements (HeapBlock b, 0) (handle_heap._size h) st))
    as (Ht2 & Hr2 & _ & Hc2 & Hl2).
  split; [congruence|]. split; [|split].
  - eexists. split; [exact (performed_trans _ _ _ _ _ Ht1 Ht2)|].
    apply Forall_app. split; [|repeat constructor].
    unfold destroy_events. destruct is_trivial; [constructor|].
    apply Forall_fmap, Forall_forall. by intros.
  - intros p Hp. rewrite Hc2 by done. by apply Hc1.
  - intros b' Hb'. rewrite Hl2 by (simpl; congruence).
    by destruct (destroy_elements_spec (HeapBlock b, 0) (handle_heap._size h) st)
      as (_ & (-> & _) & _).
Qed.





Lemma handle_heap_clone_unshared (xdata : ptr) (n : Z) st h st' :
  handle_heap_clone xdata n st = Some (h, st') ->
  storage_live xdata st ->
  handle_heap._id h = 0 /\ leaves_alone xdata h st'.
Proof.
  intros Hclone Hlive. destruct (decide (n = 0)) as [->|Hn].
  - rewrite handle_heap_clone_zero in Hclone. injection Hclone as <- <-.
    split; [done|]. unfold leaves_alone. simpl.
    split; [done|]. split; [|done].
    exists []. split; [unfold performed; by rewrite app_nil_r|constructor].
  - destruct (handle_heap_clone_spec _ _ _ _ _ Hclone Hn Hlive)
      as (-> & Hreg & _). split; [done|].
    destruct (handle_heap_dtor_unshared
                {| handle_heap._data := (HeapBlock (fresh_key (live st)), 0);
                   handle_heap._size := to_size_t n; handle_heap._id := 0 |}
                (fresh_key (live st)) st' eq_refl eq_refl)
      as (Hr & Hev & Hc & Hl).
    split; [done|]. split; [done|]. split.
    + intros p Hp. apply Hc. congruence.
    + intros b Hb. apply Hl. congruence.
Qed.

(** The clone of the [n] elements at [xdata], for [n] in the range of a
    [long]: its size is [n], it lies in another region than [xdata] and its
    elements are those at [xdata], which are left as they were; the table of
    reference counts is not touched. *)
Lemma handle_heap_clone_contents (xdata : ptr) (n : Z) st h st' :
  handle_heap_clone xdata n st = Some (h, st') ->
  storage_live xdata st ->
  refcounts st' = refcounts st /\
  (exists evs, performed st st' evs /\ Forall no_rtable_call evs) /\
  (forall p, p.1 = xdata.1 -> cells st' !! p = cells st !! p) /\
  (0 <= n <= LONG_MAX ->
   handle_heap_size h = n /\
   handle_heap_is_null h = bool_decide (n = 0) /\
   (n <> 0 -> (handle_heap_data h).1 <> xdata.1) /\
   forall i, 0 <= i < n ->
     cells st' !! ptr_add (handle_heap_data h) i = cells st !! ptr_add xdata i).
Proof.
  intros Hclone Hlive. destruct (decide (n = 0)) as [->|Hn].
  - rewrite handle_heap_clone_zero in Hclone. injection Hclone as <- <-.
    split; [done|]. split.
    { exists []. split; [unfold performed; by rewrite app_nil_r|constructor]. }
    split; [done|]. intros _. split; [done|]. split; [done|].
    split; [done|]. intros i Hi. lia.
  - destruct (handle_heap_clone_spec _ _ _ _ _ Hclone Hn Hlive)
      as (-> & Hreg & Hframe & _ & Hr & Hev & Hcells).
    split; [done|]. split; [done|].
    split; [intros p Hp; apply Hframe; congruence|].
    intros Hrange. unfold handle_heap_size, handle_heap_data, handle_heap_is_null.
    simpl. split; [rewrite to_size_t_small by done; by apply to_long_small|].
    split; [by rewrite (bool_decide_eq_false_2 (n = 0))|].
    split; [intros _; congruence|]. by apply Hcells.
Qed.

(** C8.  The copy of a heap handle made from a heap handle or from a shared
    handle is an unshared clone.  The constructor yields a handle whenever
    the allocator can serve the request.  That handle has id 0, whatever the
    id of the source; it has the size of the source and, in storage of its
    own, elements equal to the source's; constructing it performs no
    operation on the table of reference counts and changes no element of
    the source.  Destroying the copy performs no operation on the table
    either, leaves the table as it is, and changes neither the cells nor the
    allocation of the source's buffer. *)
Theorem heap_copy_is_unshared (xh : handle_heap.t) (xs : handle_shared.t) st :
  (storage_live (handle_heap_data xh) st ->
   (forall h st', handle_heap_copy_ctor xh st = Some (h, st') ->
      handle_heap._id h = 0 /\
      handle_heap_has_shared_memory h = false /\
      leaves_alone (handle_heap_data xh) h st' /\
      refcounts st' = refcounts st /\
      (exists evs, performed st st' evs /\ Forall no_rtable_call evs) /\
      (forall p, p.1 = (handle_heap_data xh).1 -> cells st' !! p = cells st !! p) /\
      (0 <= handle_heap._size xh <= LONG_MAX ->
       handle_heap_size h = handle_heap_size xh /\
       handle_heap_is_null h = bool_decide (handle_heap_size xh = 0) /\
       (handle_heap_size xh <> 0 ->
        (handle_heap_data h).1 <> (handle_heap_data xh).1) /\
       forall i, 0 <= i < handle_heap_size xh ->
         cells st' !! ptr_add (handle_heap_data h) i
         = cells st !! ptr_add (handle_heap_data xh) i)) /\
   (to_size_t (handle_heap_size xh * sizeof) <= avail st ->
    is_Some (handle_heap_copy_ctor xh st))) /\
  (storage_live (handle_shared_data xs) st ->
   (forall h st', handle_heap_copy_ctor_shared xs st = Some (h, st') ->
      handle_heap._id h = 0 /\
      handle_heap_has_shared_memory h = false /\
      leaves_alone (handle_shared_data xs) h st' /\
      refcounts st' = refcounts st /\
      (exists evs, performed st st' evs /\ Forall no_rtable_call evs) /\
      (forall p, p.1 = (handle_shared_data xs).1 -> cells st' !! p = cells st !! p) /\
      (0 <= handle_shared._size xs <= LONG_MAX ->
       handle_heap_size h = handle_shared_size xs /\
       handle_heap_is_null h = bool_decide (handle_shared_size xs = 0) /\
       (handle_shared_size xs <> 0 ->
        (handle_heap_data h).1 <> (handle_shared_data xs).1) /\
       forall i, 0 <= i < handle_shared_size xs ->
         cells st' !! ptr_add (handle_heap_data h) i
         = cells st !! ptr_add (handle_shared_data xs) i)) /\
   (to_size_t (handle_shared_size xs * sizeof) <= avail st ->
    is_Some (handle_heap_copy_ctor_shared xs st))).
Proof.
  split; intros Hlive; (split; [|apply handle_heap_clone_total]);
    intros h st' Hcopy;
    destruct (handle_heap_clone_unshared _ _ _ _ _ Hcopy Hlive) as [Hid Hl];
    destruct (handle_heap_clone_contents _ _ _ _ _ Hcopy Hlive)
      as (Hr & Hev & Hsrc & Hclone);
    (split; [done|]);
    (split; [unfold handle_heap_has_shared_memory; rewrite Hid;
             apply bool_decide_eq_false_2; intros H; by apply H|]);
    (split; [done|]); (split; [done|]); (split; [done|]); (split; [done|]);
    intros Hrange; apply Hclone.
  - unfold handle_heap_size. by rewrite to_long_small.
  - unfold handle_shared_size. by rewrite to_long_small.
Qed.

End Properties.

(** * Concrete runs *)

(** The two copies of the null shared handle: the constructor performs
    nothing, the assignment increments the count under id 0. *)
Lemma copy_of_null_shared :
  handle_shared_copy_ctor handle_shared.null (initial Z 0)
    = (handle_shared.null, initial Z 0) /\
  trace (handle_shared_copy_assign handle_shared.null handle_shared.null
           (initial Z 0)).2 = [EvRtableIncref 0] /\
  refcounts (handle_shared_copy_assign handle_shared.null handle_shared.null
               (initial Z 0)).2 = {[ 0 := 1 ]}.
Proof. vm_compute. done. Qed.

(** C1, counterexample.  The heap handle at address 20 is null and its id
    is 0; the shared handle built from it is the null handle and the state
    is unchanged, so that no id is registered and the heap handle's id
    field is still 0. *)
Lemma promote_null_registers_nothing :
  heaps four_longs !! 20 = Some handle_heap.null /\
  handle_heap._id handle_heap.null = 0 /\
  handle_shared_from_heap 20 four_longs = Some (handle_shared.null, four_longs) /\
  heap_id_at 20 four_longs = 0 /\
  ~ (exists s st', handle_shared_from_heap 20 four_longs = Some (s, st') /\
                   heap_id_at 20 st' <> 0).
Proof.
  split; [reflexivity|]. split; [reflexivity|].
  split; [reflexivity|]. split; [reflexivity|].
  intros (s & st' & H & Hid). vm_compute in H. injection H as <- <-.
  by apply Hid.
Qed.

(** C1, on the heap handle at address 10 of [four_longs]. *)
Lemma promote_twice_same_id_witness :
  exists s1 st1 s2 st2,
    handle_shared_from_heap 10 four_longs = Some (s1, st1) /\
    handle_shared_from_heap 10 st1 = Some (s2, st2) /\
    handle_shared._id s1 = handle_shared._id s2 /\
    heap_id_at 10 st2 = handle_shared._id s1 /\
    handle_shared._id s1 <> 0.
Proof.
  destruct (promote_twice_same_id 10 heap_of_four four_longs eq_refl eq_refl)
    as [_ H].
  destruct (H eq_refl)
    as (s1 & st1 & s2 & st2 & id & H1 & H2 & Hid & _ & Hs1 & _ & _ & Hs2 & Hh2 & _).
  exists s1, st1, s2, st2. repeat split; congruence.
Defined.

(** C3, counterexample.  A stack handle of capacity 3 constructed with
    size 0 is not null and has size 3. *)
Lemma stack_ctor_ignores_size :
  let h := (handle_stack_ctor 3 1 0 (initial Z 0)).1 in
  handle_stack_is_null h = false /\
  handle_stack_size 3 h = 3 /\
  ~ (handle_stack_size 3 h = 0 /\ handle_stack_is_null h = bool_decide (0 = 0)).
Proof.
  split; [reflexivity|]. split; [reflexivity|]. intros [H _]. discriminate H.
Qed.

(** C3, on a heap handle of three [long]s and an SSO handle of no vector. *)
Lemma owning_ctor_size_and_null_witness :
  (exists h st',
     handle_heap_ctor false 3 (initial Z 1000) = Some (h, st') /\
     handle_heap_size h = 3 /\ handle_heap_is_null h = false) /\
  (exists h st',
     handle_sso_ctor false 2 1 0 (initial (list Z) 1000) = Some (h, st') /\
     handle_sso_size h = 0 /\ handle_sso_is_null h = true).
Proof.
  assert (H3 : 0 <= 3 <= LONG_MAX) by (unfold LONG_MAX; lia).
  assert (H0 : 0 <= 0 <= LONG_MAX) by (unfold LONG_MAX; lia).
  split.
  - destruct (owning_ctor_size_and_null false 2 3
                (initial Z 1000) H3) as (Hheap & _ & Htotal & _).
    destruct Htotal as [[[h st'] Hc] _]; [vm_compute; discriminate|].
    exists h, st'. split; [exact Hc|]. exact (Hheap h st' Hc).
  - destruct (owning_ctor_size_and_null false 2 0
                (initial (list Z) 1000) H0) as (_ & Hsso & Htotal & _).
    destruct Htotal as [_ Hs]; [vm_compute; discriminate|].
    destruct (Hs 1) as [[h st'] Hc].
    exists h, st'. split; [exact Hc|]. exact (Hsso 1 h st' Hc).
Defined.

(** The promotion of the heap handle at address 10, evaluated. *)
Lemma in_promoted_four :
  promoted_four.1 =
    {| handle_shared._data := (HeapBlock 1, 0); handle_shared._size := 4;
       handle_shared._id := 1; handle_shared._foreign_handle := 0;
       handle_shared._foreign_decref := 0 |} /\
  heaps promoted_four.2 !! 10 =
    Some {| handle_heap._data := (HeapBlock 1, 0); handle_heap._size := 4;
            handle_heap._id := 1 |} /\
  rtable_refcount 1 promoted_four.2 = 2.
Proof. vm_compute. done. Qed.

(** On the promoted heap handle: destroying the heap handle first only
    decrements the count, and destroying the shared handle next releases
    the block. *)
Lemma shared_release_only_by_last_witness :
  let h := {| handle_heap._data := (HeapBlock 1, 0); handle_heap._size := 4;
              handle_heap._id := 1 |} in
  let s := promoted_four.1 in
  let st := promoted_four.2 in
  (handle_heap_is_null h = false /\
   handle_heap_has_shared_memory h = true /\
   (rtable_decref (handle_heap._id h) st).1 = false) /\
  performed st (handle_heap_dtor h st) [EvRtableDecref 1] /\
  cells (handle_heap_dtor h st) = cells st /\
  performed (handle_heap_dtor h st) (handle_shared_dtor s (handle_heap_dtor h st))
    [EvRtableDecref 1; EvDeallocate (HeapBlock 1, 0) 32].
Proof.
  intros h s st.
  assert (Hn : handle_heap_is_null h = false) by reflexivity.
  assert (Hs : handle_heap_has_shared_memory h = true) by reflexivity.
  assert (Hd : (rtable_decref (handle_heap._id h) st).1 = false)
    by (vm_compute; reflexivity).
  split; [done|].
  destruct (shared_release_only_by_last h s st)
    as (Hheap & _).
  destruct (Hheap Hn Hs Hd) as (Hp & Hc & _).
  split; [exact Hp|]. split; [exact Hc|].
  destruct (shared_release_only_by_last h s (handle_heap_dtor h st))
    as (_ & _ & _ & _ & _ & Hlast).
  apply Hlast; vm_compute; reflexivity.
Defined.

(** C4, on the shared handle of [promoted_four] once the heap handle has
    been destroyed and it is the only holder: [s = s] followed by the
    destruction of [s] deallocates block 1 twice. *)
Lemma shared_self_assign_releases_twice_witness :
  let h := {| handle_heap._data := (HeapBlock 1, 0); handle_heap._size := 4;
              handle_heap._id := 1 |} in
  let s := promoted_four.1 in
  let st := handle_heap_dtor h promoted_four.2 in
  handle_shared_is_null s = false /\
  handle_shared._foreign_handle s = 0 /\
  rtable_refcount (handle_shared._id s) st = 1 /\
  performed st
    (handle_shared_dtor (handle_shared_copy_assign s s st).1
       (handle_shared_copy_assign s s st).2)
    [EvRtableDecref 1; EvDeallocate (HeapBlock 1, 0) 32; EvRtableIncref 1;
     EvRtableDecref 1; EvDeallocate (HeapBlock 1, 0) 32].
Proof.
  intros h s st.
  assert (H1 : handle_shared_is_null s = false) by (vm_compute; reflexivity).
  assert (H2 : handle_shared._foreign_handle s = 0) by (vm_compute; reflexivity).
  assert (H3 : rtable_refcount (handle_shared._id s) st = 1)
    by (vm_compute; reflexivity).
  split; [exact H1|]. split; [exact H2|]. split; [exact H3|].
  destruct (shared_self_assign_releases_twice s st H1 H2 H3) as (_ & _ & _ & Hp).
  exact Hp.
Defined.

(** C5, counterexample.  Move-assigning a heap-resident source to a handle
    that is itself on the heap calls the allocator: the destination's block
    is deallocated. *)
Lemma sso_move_assign_deallocates :
  sso_heap_resident 2 sso_block_2 /\
  handle_sso.buffer sso_block_1 <> handle_sso.buffer sso_block_2 /\
  let st' := (handle_sso_move_assign 2 sso_block_1 sso_block_2
                two_blocks).2 in
  trace st' = [EvDeallocate (HeapBlock 1, 0) 32] /\
  existsb is_allocator_call (trace st') = true.
Proof.
  split; [unfold sso_heap_resident; simpl; lia|].
  split; [simpl; lia|]. vm_compute. done.
Qed.

(** C5, on a heap-resident source of [long]s and an inline-resident source
    of vectors. *)
Lemma sso_move_by_residency_witness :
  (sso_heap_resident 2 sso_block_2 /\
   handle_sso_move_ctor 2 1 sso_block_2 two_blocks =
     ({| handle_sso.buffer := 1; handle_sso._data := (HeapBlock 2, 0);
         handle_sso._size := 3 |}, moved_from sso_block_2, two_blocks)) /\
  (sso_inline_resident 2 sso_inline_2 /\ 1 <> handle_sso.buffer sso_inline_2 /\
   exists h st',
     handle_sso_move_ctor 2 1 sso_inline_2 two_vectors
       = (h, moved_from sso_inline_2, st') /\
     handle_sso._data h = buffer_data 1 /\
     cells st' !! ptr_add (handle_sso._data h) 1 = Some [2; 3]).
Proof.
  assert (Hheap : sso_heap_resident 2 sso_block_2)
    by (unfold sso_heap_resident; simpl; lia).
  assert (Hin : sso_inline_resident 2 sso_inline_2)
    by (unfold sso_inline_resident; simpl; split; [reflexivity|lia]).
  assert (Hne : 1 <> handle_sso.buffer sso_inline_2) by (simpl; lia).
  split.
  - split; [exact Hheap|].
    destruct (sso_move_by_residency 2 1 sso_block_1 sso_block_2
                two_blocks) as (H & _).
    exact (H Hheap).
  - split; [exact Hin|]. split; [exact Hne|].
    destruct (sso_move_by_residency 2 1 sso_inline_2
                sso_inline_2 two_vectors) as (_ & H & _).
    destruct (H Hin Hne) as (h & st' & Hm & Hd & _ & _ & Hcells & _).
    exists h, st'. split; [exact Hm|]. split; [exact Hd|].
    rewrite Hcells by (simpl; lia). reflexivity.
Defined.

(** C10, on the inline-resident source of two vectors, moved into a new
    object at address 1 and move-assigned to a null handle with buffer 1. *)
Lemma sso_move_spares_inline_source_witness :
  let self := handle_sso_default 1 in
  sso_inline_resident 2 sso_inline_2 /\ 1 <> handle_sso.buffer sso_inline_2 /\
  handle_sso.buffer self <> handle_sso.buffer sso_inline_2 /\
  sso_data_wf self /\
  (exists h x' st' evs,
     handle_sso_move_ctor 2 1 sso_inline_2 two_vectors
       = (h, x', st') /\
     handle_sso._data x' = nullptr /\ handle_sso._size x' = 0 /\
     performed two_vectors st' evs /\
     Forall (spares (InlineBuffer 2)) evs /\
     cells st' !! (InlineBuffer 2, 0) = Some [1] /\
     handle_sso_dtor 2 x' st' = st') /\
  (exists h x' st' evs,
     handle_sso_move_assign 2 self sso_inline_2 two_vectors
       = (h, x', st') /\
     handle_sso._data x' = nullptr /\ handle_sso._size x' = 0 /\
     performed two_vectors st' evs /\
     Forall (spares (InlineBuffer 2)) evs /\
     cells st' !! (InlineBuffer 2, 1) = Some [2; 3] /\
     handle_sso_dtor 2 x' st' = st').
Proof.
  intros self.
  assert (Hin : sso_inline_resident 2 sso_inline_2)
    by (unfold sso_inline_resident; simpl; split; [reflexivity|lia]).
  assert (Hne : 1 <> handle_sso.buffer sso_inline_2) by (simpl; lia).
  assert (Hne' : handle_sso.buffer self <> handle_sso.buffer sso_inline_2)
    by (simpl; lia).
  assert (Hwf : sso_data_wf self) by (left; reflexivity).
  split; [exact Hin|]. split; [exact Hne|]. split; [exact Hne'|].
  split; [exact Hwf|].
  destruct (sso_move_spares_inline_source 2 1 self
              sso_inline_2 two_vectors Hin) as (H & H' & _).
  split.
  - destruct (H Hne) as (h & x' & st' & evs & Hm & Hd & Hs & Hp & Hsp & Hc & Hdt).
    exists h, x', st', evs. repeat split; try done.
    rewrite Hc by reflexivity. reflexivity.
  - destruct (H' Hne' Hwf)
      as (h & x' & st' & evs & Hm & Hd & Hs & Hp & Hsp & Hc & Hdt).
    exists h, x', st', evs. repeat split; try done.
    rewrite Hc by reflexivity. reflexivity.
Defined.

(** C10, counterexample.  Move-assigning the inline-resident handle of two
    vectors to itself calls the destructor of both of its elements before
    it is set to null. *)
Lemma sso_self_move_assign_destroys_source :
  let r := handle_sso_move_assign 2 sso_inline_2 sso_inline_2 two_vectors in
  sso_inline_resident 2 sso_inline_2 /\
  is_trivial (T := list Z) = false /\
  r.1.2 = moved_from sso_inline_2 /\
  trace r.2 = [EvDestroy (InlineBuffer 2, 0); EvDestroy (InlineBuffer 2, 1);
               EvCopyConstruct (InlineBuffer 2, 0) (InlineBuffer 2, 0);
               EvCopyConstruct (InlineBuffer 2, 1) (InlineBuffer 2, 1)] /\
  ~ (exists evs, performed two_vectors r.2 evs /\
                 Forall (spares (InlineBuffer 2)) evs).
Proof.
  intros r.
  assert (Ht : trace r.2
               = [EvDestroy (InlineBuffer 2, 0); EvDestroy (InlineBuffer 2, 1);
                  EvCopyConstruct (InlineBuffer 2, 0) (InlineBuffer 2, 0);
                  EvCopyConstruct (InlineBuffer 2, 1) (InlineBuffer 2, 1)])
    by reflexivity.
  split; [split; [reflexivity|simpl; lia]|]. split; [reflexivity|].
  split; [reflexivity|]. split; [exact Ht|].
  intros (evs & Hp & Hsp). unfold performed in Hp. rewrite Ht in Hp.
  simpl in Hp. subst evs. apply Forall_cons in Hsp as [Hs _].
  by apply (Hs (InlineBuffer 2, 0)).
Qed.

(** Block 1 is allocated in [four_longs]. *)
Lemma storage_live_four : storage_live (HeapBlock 1, 0) four_longs.
Proof. intros b [= <-]. vm_compute. eauto. Qed.

(** [sso_inline_2] is a well-formed, non-null handle in [two_vectors]. *)
Lemma sso_inline_2_wf :
  handle_sso_is_null sso_inline_2 = false /\
  0 <= handle_sso._size sso_inline_2 <= LONG_MAX /\
  storage_live (handle_sso._data sso_inline_2) two_vectors /\
  sso_data_wf sso_inline_2.
Proof.
  split; [reflexivity|]. split; [unfold LONG_MAX; simpl; lia|].
  split; [intros b [=]|]. right. left. reflexivity.
Qed.


(** C7, on the heap handle at address 10 with offset 2. *)
Lemma borrowed_from_heap_offset_witness :
  heaps four_longs !! 10 = Some heap_of_four /\
  exists b,
    handle_borrowed_ctor (BorrowHeapVoid 10 2) four_longs = Some (b, four_longs) /\
    handle_borrowed_data b = (HeapBlock 1, 2) /\
    heaps four_longs !! 10 = Some heap_of_four.
Proof.
  split; [reflexivity|].
  destruct (borrowed_from_heap_offset 10 heap_of_four 2 four_longs eq_refl)
    as ((b & st' & Hc & Hd & Hx & ->) & _).
  exists b. split; [exact Hc|]. split; [exact Hd|exact Hx].
Defined.

(** C8, on the promoted heap handle and the shared handle made from it. *)
Lemma heap_copy_is_unshared_witness :
  let h := {| handle_heap._data := (HeapBlock 1, 0); handle_heap._size := 4;
              handle_heap._id := 1 |} in
  let s := promoted_four.1 in
  let st := promoted_four.2 in
  storage_live (handle_heap_data h) st /\
  storage_live (handle_shared_data s) st /\
  0 <= handle_heap._size h <= LONG_MAX /\
  0 <= handle_shared._size s <= LONG_MAX /\
  to_size_t (handle_heap_size h * sizeof) <= avail st /\
  to_size_t (handle_shared_size s * sizeof) <= avail st /\
  (exists c st', handle_heap_copy_ctor h st = Some (c, st') /\
                 handle_heap._id c = 0 /\
                 handle_heap_size c = 4 /\
                 (handle_heap_data c).1 <> HeapBlock 1 /\
                 cells st' !! ptr_add (handle_heap_data c) 3 = Some 14 /\
                 refcounts st' = refcounts st /\
                 refcounts (handle_heap_dtor c st') = refcounts st') /\
  (exists c st', handle_heap_copy_ctor_shared s st = Some (c, st') /\
                 handle_heap._id c = 0 /\
                 handle_heap_size c = 4 /\
                 (handle_heap_data c).1 <> HeapBlock 1 /\
                 cells st' !! ptr_add (handle_heap_data c) 3 = Some 14 /\
                 cells (handle_heap_dtor c st') !! (HeapBlock 1, 3) = Some 14).
Proof.
  intros h s st.
  assert (Hl : storage_live (handle_heap_data h) st)
    by (intros b [= <-]; vm_compute; eauto).
  assert (Hl' : storage_live (handle_shared_data s) st)
    by (intros b [= <-]; vm_compute; eauto).
  assert (Hr : 0 <= handle_heap._size h <= LONG_MAX) by (vm_compute; split; discriminate).
  assert (Hr' : 0 <= handle_shared._size s <= LONG_MAX)
    by (vm_compute; split; discriminate).
  assert (Ha : to_size_t (handle_heap_size h * sizeof) <= avail st)
    by (vm_compute; discriminate).
  assert (Ha' : to_size_t (handle_shared_size s * sizeof) <= avail st)
    by (vm_compute; discriminate).
  split; [exact Hl|]. split; [exact Hl'|]. split; [exact Hr|]. split; [exact Hr'|].
  split; [exact Ha|]. split; [exact Ha'|].
  destruct (heap_copy_is_unshared h s st) as (H1 & H2).
  split.
  - destruct (H1 Hl) as [Hprops [[c st'] Hc]]; [exact Ha|].
    destruct (Hprops c st' Hc) as (Hid & _ & Hleave & Hrc & _ & _ & Hclone).
    destruct (Hclone Hr) as (Hsize & _ & Hreg & Hcells).
    destruct Hleave as (Hrd & _).
    exists c, st'. split; [exact Hc|]. split; [exact Hid|].
    split; [exact Hsize|]. split; [apply Hreg; vm_compute; discriminate|].
    split; [|split; [exact Hrc|exact Hrd]].
    rewrite Hcells by (vm_compute; split; [discriminate|reflexivity]).
    reflexivity.
  - destruct (H2 Hl') as [Hprops [[c st'] Hc]]; [exact Ha'|].
    destruct (Hprops c st' Hc) as (Hid & _ & Hleave & _ & _ & Hsrc & Hclone).
    destruct (Hclone Hr') as (Hsize & _ & Hreg & Hcells).
    destruct Hleave as (_ & _ & Hkeep & _).
    exists c, st'. split; [exact Hc|]. split; [exact Hid|].
    split; [exact Hsize|]. split; [apply Hreg; vm_compute; discriminate|].
    split.
    + rewrite Hcells by (vm_compute; split; [discriminate|reflexivity]).
      reflexivity.
    + rewrite Hkeep by (vm_compute; reflexivity).
      rewrite Hsrc by (vm_compute; reflexivity). reflexivity.
Defined.

(** C9, counterexample.  The copy of a borrowed handle constructed from the
    heap handle at address 10 has that heap handle as its [parent()],
    although it was constructed from a borrowed handle. *)
Lemma borrowed_copy_keeps_parent :
  handle_borrowed_ctor (BorrowHeapVoid 10 0) four_longs
    = Some (borrowed_of_four, four_longs) /\
  handle_borrowed_ctor (BorrowCopy borrowed_of_four) four_longs
    = Some (borrowed_of_four, four_longs) /\
  handle_borrowed_parent borrowed_of_four = Some 10 /\
  ~ (forall c b (st' : state Z),
       handle_borrowed_ctor c four_longs = Some (b, st') ->
       handle_borrowed_parent b <> None ->
       exists x k, c = BorrowHeapVoid x k).
Proof.
  split; [reflexivity|]. split; [reflexivity|]. split; [reflexivity|].
  intros H.
  destruct (H (BorrowCopy borrowed_of_four) borrowed_of_four four_longs eq_refl)
    as (x & k & Heq); [discriminate|discriminate].
Qed.

(** C9, on a borrowed handle made from a shared handle and on a copy of a
    borrowed handle. *)
Lemma borrowed_parent_origin_witness :
  handle_borrowed_ctor (BorrowShared promoted_four.1 1) four_longs
    = Some (from_data (HeapBlock 1, 1), four_longs) /\
  handle_borrowed_parent (from_data (HeapBlock 1, 1)) <> Some 10 /\
  handle_borrowed_ctor (BorrowCopy borrowed_of_four) four_longs
    = Some (borrowed_of_four, four_longs) /\
  handle_borrowed_parent borrowed_of_four = Some 10.
Proof.
  assert (H1 : handle_borrowed_ctor (BorrowShared promoted_four.1 1) four_longs
               = Some (from_data (HeapBlock 1, 1), four_longs)) by reflexivity.
  assert (H2 : handle_borrowed_ctor (BorrowCopy borrowed_of_four) four_longs
               = Some (borrowed_of_four, four_longs)) by reflexivity.
  split; [exact H1|]. split; [|split; [exact H2|]].
  - intros Hp.
    apply (borrowed_parent_origin _ _ _ _ 10 H1) in Hp
      as [[k Hk]|(b0 & Hb & _)]; discriminate.
  - apply (borrowed_parent_origin _ _ _ _ 10 H2). right.
    exists borrowed_of_four. split; reflexivity.
Defined.

(** * Properties of the other operations *)

Section MoreProperties.
Context {T : Type} `{VT : ValueType T}.
Implicit Types st : state T.

(** ** Allocation and deallocation *)

Lemma to_size_t_mul (n s : Z) : to_size_t (to_size_t n * s) = to_size_t (n * s).
Proof. unfold to_size_t. apply Z.mul_mod_idemp_l. unfold SIZE_MODULUS. lia. Qed.


Lemma allocate_either (zero : bool) (s : Z) st (blk : blk_t) st1 :
  (if zero then allocate_zero s st else allocate s st) = (blk, st1) ->
  blk_ptr blk <> nullptr ->
  let b := fresh_key (live st) in
  blk_ptr blk = (HeapBlock b, 0) /\
  live st1 = <[b := s]> (live st) /\
  avail st1 = avail st - s /\
  refcounts st1 = refcounts st /\
  heaps st1 = heaps st /\
  trace st1 = trace st ++ [if zero then EvAllocateZero s (HeapBlock b, 0)
                           else EvAllocate s (HeapBlock b, 0)] /\
  (forall p, p.1 <> HeapBlock b -> cells st1 !! p = cells st !! p).
Proof.
  destruct zero; unfold allocate, allocate_zero;
    (destruct (decide (s <= avail st)); intros [= <- <-];
     [intros _|intros Hp; by destruct Hp]); simpl;
    repeat (split; [done|]); [|done].
  intros p Hp.
  apply (for_loop_preserves (fun s0 => cells s0 !! p = cells st !! p)); [done|].
  intros j s0 <-. simpl. apply lookup_insert_ne. intros <-. by apply Hp.
Qed.

Lemma deallocate_live (b s : Z) (bytes : Z) st :
  live st !! b = Some s ->
  let st' := deallocate {| blk_ptr := (HeapBlock b, 0); blk_size := bytes |} st in
  live st' = delete b (live st) /\
  avail st' = avail st + s /\
  refcounts st' = refcounts st /\
  heaps st' = heaps st /\
  trace st' = trace st ++ [EvDeallocate (HeapBlock b, 0) bytes] /\
  (forall p, p.1 = HeapBlock b -> cells st' !! p = None) /\
  (forall p, p.1 <> HeapBlock b -> cells st' !! p = cells st !! p).
Proof.
  intros Hl. unfold deallocate. simpl. rewrite Hl. simpl.
  repeat (split; [done|]). split.
  - intros p Hp. apply map_lookup_filter_None. right. intros v _ Hn.
    by apply Hn.
  - intros p Hp. rewrite map_lookup_filter.
    destruct (cells st !! p) as [v|]; [|done]. simpl.
    rewrite option_guard_True; [done|]. unfold in_block. simpl. congruence.
Qed.

Lemma default_construct_loop_spec (data : ptr) (n : Z) st :
  let st' := for_loop n (fun i => placement_new_default (ptr_add data i)) st in
  performed st st' (default_events data n) /\
  same_bookkeeping st st' /\
  (forall p, p.1 <> data.1 -> cells st' !! p = cells st !! p).
Proof.
  simpl. split; [|split].
  - by apply (for_loop_trace (fun i => EvDefaultConstruct (ptr_add data i))).
  - by apply for_loop_bookkeeping.
  - intros p Hp.
    apply (for_loop_preserves (fun s0 => cells s0 !! p = cells st !! p)); [done|].
    intros j s0 <-. simpl. apply lookup_insert_ne. intros <-. by apply Hp.
Qed.

(** A loop that stores [v] in the cells [p], [p + 1], ...: the cells written
    and the cells left. *)
Lemma write_loop_cells (p : ptr) (v : T) body (n : Z) st :
  (forall j s, cells (body j s) = <[ptr_add p j := v]> (cells s)) ->
  (forall i, 0 <= i < n -> cells (for_loop n body st) !! ptr_add p i = Some v) /\
  (forall q, q.1 <> p.1 -> cells (for_loop n body st) !! q = cells st !! q).
Proof.
  intros Hbody. split.
  - intros i Hi.
    pose (P := fun (j : Z) (s : state T) =>
      forall t, 0 <= t < j -> cells s !! ptr_add p t = Some v).
    cut (P n (for_loop n body st)).
    { intros HP. by apply HP. }
    apply for_loop_ind; [lia| |].
    + intros t Ht. lia.
    + intros j s Hj HP t Ht. rewrite Hbody.
      destruct (decide (t = j)) as [->|Hne]; [apply lookup_insert_eq|].
      rewrite lookup_insert_ne by (intros H; apply ptr_add_inj in H; lia).
      apply HP. lia.
  - intros q Hq.
    apply (for_loop_preserves (fun s => cells s !! q = cells st !! q)); [done|].
    intros j s <-. rewrite Hbody. apply lookup_insert_ne.
    intros <-. by apply Hq.
Qed.

(** Zero-filling a buffer is no call: nothing is recorded and the
    bookkeeping stays. *)
Lemma zero_fill_silent (p : ptr) (n : Z) st :
  let st' := for_loop n (fun i => set_cells <[ptr_add p i := zero_value]>) st in
  trace st' = trace st /\ same_bookkeeping st st'.
Proof.
  simpl. split.
  - by apply (for_loop_preserves (fun s => trace s = trace st)).
  - by apply for_loop_bookkeeping.
Qed.

(** ** Construction followed by destruction *)

(** X1.  A heap handle constructed from a size and then destroyed leaves the
    allocator as it was: the block it allocated is deallocated, the bytes
    available and the table of reference counts are as before, no cell
    outside its block has changed and no cell of its block is left.  What is
    performed in between is one allocation, the default construction of each
    element when the type asks for it, the destruction of each element when
    the type is not trivial, and one deallocation of the same pointer and
    size. *)
Theorem heap_ctor_dtor_balanced init_dcmplx (n : Z) st h st1 :
  handle_heap_ctor init_dcmplx n st = Some (h, st1) ->
  let st2 := handle_heap_dtor h st1 in
  live st2 = live st /\ avail st2 = avail st /\
  refcounts st2 = refcounts st /\
  (forall p, p.1 <> (handle_heap._data h).1 -> cells st2 !! p = cells st !! p) /\
  (n = 0 -> st2 = st) /\
  (n <> 0 ->
   (forall p, p.1 = (handle_heap._data h).1 -> cells st2 !! p = None) /\
   performed st st2 (heap_lifetime_events init_dcmplx n (handle_heap._data h))).
Proof.
  unfold handle_heap_ctor. intros Hc.
  destruct (decide (n = 0)) as [->|Hn].
  { injection Hc as <- <-. simpl. repeat (split; [done|]). done. }
  set (zero := is_complex && init_dcmplx) in *.
  destruct (if zero then _ else _) as [blk st0] eqn:Halloc.
  destruct (decide (blk_ptr blk = nullptr)) as [|Hp]; [done|].
  destruct (allocate_either zero _ _ _ _ Halloc Hp)
    as (Hb & Hl0 & Ha0 & Hr0 & _ & Ht0 & Hc0).
  set (b := fresh_key (live st)) in *. rewrite Hb in Hc.
  injection Hc as <- <-. simpl.
  set (stc := if negb is_trivial && negb is_complex then _ else st0).
  assert (Hstc : performed st0 stc
                   (if negb is_trivial && negb is_complex
                    then default_events (HeapBlock b, 0) (to_size_t n) else []) /\
                 same_bookkeeping st0 stc /\
                 (forall p, p.1 <> HeapBlock b -> cells stc !! p = cells st0 !! p)).
  { subst stc. destruct (negb is_trivial && negb is_complex).
    - apply default_construct_loop_spec.
    - split; [unfold performed; by rewrite app_nil_r|]. split; done. }
  destruct Hstc as (Ht1 & (Hl1 & Ha1 & Hr1 & _) & Hc1).
  unfold handle_heap_dtor, handle_heap_decref,
    handle_heap_is_null, handle_heap_has_shared_memory. simpl.
  destruct (destroy_elements_spec (HeapBlock b, 0) (to_size_t n) stc)
    as (Ht2 & (Hl2 & Ha2 & Hr2 & _) & Hc2).
  set (std := destroy_elements (HeapBlock b, 0) (to_size_t n) stc) in *.
  assert (Hlive : live std !! b = Some (to_size_t (n * sizeof)))
    by (rewrite Hl2, Hl1, Hl0; apply lookup_insert_eq).
  destruct (deallocate_live b _ (to_size_t (to_size_t n * sizeof)) std Hlive)
    as (Hl3 & Ha3 & Hr3 & _ & Ht3 & Hgone & Hc3).
  split; [rewrite Hl3, Hl2, Hl1, Hl0; apply delete_insert_id, fresh_key_fresh|].
  split; [rewrite Ha3, Ha2, Ha1, Ha0; lia|].
  split; [congruence|].
  split; [intros p Hp'; rewrite Hc3, Hc2, Hc1, Hc0 by done; done|].
  split; [done|]. intros _. split; [exact Hgone|].
  unfold performed, heap_lifetime_events. fold zero.
  rewrite Ht3, Ht2, Ht1, Ht0. rewrite <- !app_assoc. simpl.
  by rewrite to_size_t_mul.
Qed.

(** ** Moves and copy assignment of heap handles *)

Lemma handle_heap_eta (h : handle_heap.t) :
  {| handle_heap._data := handle_heap._data h;
     handle_heap._size := handle_heap._size h;
     handle_heap._id := handle_heap._id h |} = h.
Proof. by destruct h. Qed.

(** [decref()] of a heap handle changes no heap-handle object and no cell
    outside the region its pointer points into. *)
Lemma handle_heap_decref_frame (h : handle_heap.t) st :
  heaps (handle_heap_decref h st) = heaps st /\
  (forall p, p.1 <> (handle_heap._data h).1 ->
     cells (handle_heap_decref h st) !! p = cells st !! p).
Proof.
  unfold handle_heap_decref.
  destruct (handle_heap_is_null h); [done|].
  assert (Hrel : forall s0,
            heaps (deallocate {| blk_ptr := handle_heap._data h;
                                 blk_size := to_size_t (handle_heap._size h * sizeof) |}
                     (destroy_elements (handle_heap._data h) (handle_heap._size h) s0))
            = heaps s0 /\
            (forall p, p.1 <> (handle_heap._data h).1 ->
               cells (deallocate {| blk_ptr := handle_heap._data h;
                                    blk_size := to_size_t (handle_heap._size h * sizeof) |}
                        (destroy_elements (handle_heap._data h) (handle_heap._size h) s0))
                 !! p = cells s0 !! p)).
  { intros s0.
    destruct (destroy_elements_spec (handle_heap._data h) (handle_heap._size h) s0)
      as (_ & (_ & _ & _ & Hh1) & Hc1).
    set (blk := {| blk_ptr := handle_heap._data h; blk_size := _ |}).
    destruct (deallocate_spec blk
                (destroy_elements (handle_heap._data h) (handle_heap._size h) s0))
      as (_ & _ & Hh2 & Hc2 & _).
    split; [congruence|]. intros p Hp. rewrite Hc2 by done. by apply Hc1. }
  destruct (handle_heap_has_shared_memory h).
  - destruct (rtable_decref_spec (handle_heap._id h) st) as (_ & _ & _ & Hc & _ & _ & Hh).
    destruct (rtable_decref (handle_heap._id h) st) as [last s0]. simpl in *.
    destruct last; simpl.
    + destruct (Hrel s0) as [Hh' Hc']. split; [congruence|].
      intros p Hp. rewrite Hc' by done. by rewrite Hc.
    + split; [done|]. intros. by rewrite Hc.
  - apply Hrel.
Qed.

Lemma from_heap_of_null (x : Z) st :
  heaps st !! x = Some handle_heap.null ->
  handle_shared_from_heap x st = Some (handle_shared.null, st).
Proof. unfold handle_shared_from_heap. by intros ->. Qed.

(** X2.  Moving a heap handle carries its id with it.  After the heap handle
    at [x] is moved into a new object at [this], that object holds the
    pointer, size and id, the object at [x] is null and its destruction
    performs nothing, and nothing else in the state has changed.  If the
    handle had been promoted, a shared handle built from the new object
    takes the existing id and only increments its count, while one built
    from the moved-from object is null. *)
Theorem heap_move_carries_promotion (this x : Z) (hx : handle_heap.t) st st' :
  heaps st !! x = Some hx ->
  this <> x ->
  handle_heap_move_ctor_at this x st = Some st' ->
  heaps st' !! this = Some hx /\
  heaps st' !! x = Some handle_heap.null /\
  cells st' = cells st /\ live st' = live st /\
  refcounts st' = refcounts st /\ trace st' = trace st /\
  handle_heap_dtor handle_heap.null st' = st' /\
  handle_shared_from_heap x st' = Some (handle_shared.null, st') /\
  (handle_heap_is_null hx = false -> handle_heap._id hx <> 0 ->
   handle_shared_from_heap this st' =
     Some ({| handle_shared._data := handle_heap_data hx;
              handle_shared._size := to_size_t (handle_heap_size hx);
              handle_shared._id := handle_heap._id hx;
              handle_shared._foreign_handle := 0;
              handle_shared._foreign_decref := 0 |},
           rtable_incref (handle_heap._id hx) st')).
Proof.
  intros Hx Hne Hm. unfold handle_heap_move_ctor_at in Hm. rewrite Hx in Hm.
  simpl in Hm. rewrite handle_heap_eta in Hm. injection Hm as <-.
  assert (Hthis : heaps (set_heaps <[x:=handle_heap.null]>
                           (set_heaps <[this:=hx]> st)) !! this = Some hx).
  { simpl. rewrite lookup_insert_ne by done. apply lookup_insert_eq. }
  assert (Hxn : heaps (set_heaps <[x:=handle_heap.null]>
                         (set_heaps <[this:=hx]> st)) !! x
                = Some handle_heap.null) by apply lookup_insert_eq.
  split; [exact Hthis|]. split; [exact Hxn|].
  do 5 (split; [done|]). split.
  - by apply from_heap_of_null.
  - intros Hnull Hid. by apply from_heap_registered.
Qed.

(** X3.  Move assignment of a heap handle releases the old value of the
    destination exactly as its destructor would, and then takes over the
    pointer, size and id of the source, which is left null.  Assigning a
    handle to itself releases its buffer and leaves it null. *)
Theorem heap_move_assign_releases_then_steals (this x : Z)
    (hthis hx : handle_heap.t) st :
  heaps st !! this = Some hthis ->
  heaps st !! x = Some hx ->
  exists st',
    handle_heap_move_assign_at this x st = Some st' /\
    cells st' = cells (handle_heap_dtor hthis st) /\
    live st' = live (handle_heap_dtor hthis st) /\
    avail st' = avail (handle_heap_dtor hthis st) /\
    refcounts st' = refcounts (handle_heap_dtor hthis st) /\
    trace st' = trace (handle_heap_dtor hthis st) /\
    heaps st' !! x = Some handle_heap.null /\
    (this <> x -> heaps st' !! this = Some hx) /\
    (forall y, y <> this -> y <> x -> heaps st' !! y = heaps st !! y).
Proof.
  intros Hthis Hx. unfold handle_heap_move_assign_at. rewrite Hthis.
  destruct (handle_heap_decref_frame hthis st) as [Hh _].
  rewrite Hh, Hx. simpl. rewrite handle_heap_eta.
  eexists. split; [reflexivity|]. simpl.
  do 5 (split; [done|]).
  split; [apply lookup_insert_eq|]. split.
  - intros Hne. rewrite lookup_insert_ne by done. rewrite lookup_insert_eq. done.
  - intros y H1 H2. rewrite !lookup_insert_ne by done. by rewrite Hh.
Qed.

(** X4.  Copy assignment of a heap handle, [*this = handle_heap{x}], makes
    the destination an unshared clone of the source: same size, elements
    equal to those the source held before the assignment, id 0.  This holds
    also when the source is the destination itself, because the clone is
    made before the old buffer is released.  When source and destination are
    different objects on different storage, the source and its elements are
    unchanged. *)
Theorem heap_copy_assign_clones (this x : Z) (hthis hx : handle_heap.t) st st' :
  heaps st !! x = Some hx ->
  heaps st !! this = Some hthis ->
  0 <= handle_heap._size hx <= LONG_MAX ->
  storage_live (handle_heap._data hx) st ->
  storage_live (handle_heap._data hthis) st ->
  handle_heap_copy_assign_at this x st = Some st' ->
  exists h,
    heaps st' !! this = Some h /\
    handle_heap._id h = 0 /\
    handle_heap_size h = handle_heap_size hx /\
    (forall i, 0 <= i < handle_heap_size hx ->
       cells st' !! ptr_add (handle_heap_data h) i
       = cells st !! ptr_add (handle_heap_data hx) i) /\
    (this <> x -> heaps st' !! x = Some hx) /\
    ((handle_heap._data hthis).1 <> (handle_heap._data hx).1 ->
     forall p, p.1 = (handle_heap._data hx).1 -> cells st' !! p = cells st !! p).
Proof.
  intros Hx Hthis Hrange Hlx Hlt Ha.
  unfold handle_heap_copy_assign_at in Ha. rewrite Hx in Ha.
  destruct (handle_heap_copy_ctor hx st) as [[tmp st1]|] eqn:Hc; [|done].
  unfold handle_heap_copy_ctor, handle_heap_size, handle_heap_data in *.
  rewrite to_long_small in * by done.
  destruct (handle_heap_decref_frame hthis st1) as [Hh2 Hc2].
  destruct (decide (handle_heap._size hx = 0)) as [Hz|Hz].
  - rewrite Hz, handle_heap_clone_zero in Hc. injection Hc as <- <-.
    rewrite Hthis in Ha. simpl in Ha. injection Ha as <-.
    exists handle_heap.null. simpl.
    split; [apply lookup_insert_eq|]. split; [done|].
    split; [by rewrite Hz|]. split; [intros; lia|]. split.
    + intros Hne. rewrite lookup_insert_ne by done. by rewrite Hh2.
    + intros Hreg p Hp. apply Hc2. congruence.
  - destruct (handle_heap_clone_spec _ _ _ _ _ Hc Hz Hlx)
      as (-> & Hreg & Hframe & Hl1 & _ & _ & Hcells).
    assert (Hh1 : heaps st1 = heaps st).
    { unfold handle_heap_clone, handle_heap_ctor_noinit in Hc.
      rewrite decide_False in Hc by done.
      destruct (allocate _ st) as [blk s0] eqn:Halloc.
      destruct (decide (blk_ptr blk = nullptr)) as [|Hp]; [done|].
      destruct (allocate_either false _ _ _ _ Halloc Hp) as (_ & _ & _ & _ & Hh0 & _).
      injection Hc as _ <-. unfold clone_into. simpl.
      destruct (handle_heap_is_null _); [done|].
      destruct is_trivially_copyable.
      - by destruct (memcpy_spec (blk_ptr blk) (handle_heap._data hx)
                       (handle_heap._size hx) s0) as (_ & (_ & _ & _ & ->) & _).
      - by destruct (copy_construct_loop_spec (blk_ptr blk) (handle_heap._data hx)
                       (to_size_t (handle_heap._size hx)) s0)
             as (_ & (_ & _ & _ & ->) & _). }
    rewrite Hh1, Hthis in Ha. simpl in Ha. injection Ha as <-.
    set (b := fresh_key (live st)) in *.
    pose proof (fresh_block_not_live _ st Hlt) as Hregt. fold b in Hregt.
    eexists. simpl. split; [apply lookup_insert_eq|]. simpl.
    split; [done|].
    split; [rewrite to_size_t_small by done; by apply to_long_small|]. split.
    + intros i Hi. rewrite Hc2 by (simpl; congruence). by apply Hcells.
    + split.
      * intros Hne. rewrite lookup_insert_ne by done. by rewrite Hh2, Hh1.
      * intros Hr p Hp. rewrite Hc2 by congruence. apply Hframe. congruence.
Qed.

(** ** Moves and copy assignment of shared handles *)

Lemma handle_shared_dtor_invalidated (x : handle_shared.t) st :
  handle_shared_dtor (handle_shared_invalidate x) st = st.
Proof. done. Qed.

(** X5.  A move of a shared handle transfers the reference without counting
    it again: after a move construction, or a move assignment from another
    object, destroying the destination and the moved-from source (in either
    order) does to the state exactly what destroying the handles held before
    the move would have done, so that each buffer's count is decremented
    once; the moved-from source is null with id 0 and destroying it performs
    nothing.  Move-assigning a handle to itself releases its reference and
    leaves it null. *)
Theorem shared_move_transfers_reference (self x : handle_shared.t) st :
  let '(s, x') := handle_shared_move_ctor x in
  let '(s2, x2, st2) := handle_shared_move_assign self x st in
  let '(s3, st3) := handle_shared_move_assign_self self st in
  (s = x /\ handle_shared_is_null x' = true /\ handle_shared._id x' = 0 /\
   handle_shared_dtor x' (handle_shared_dtor s st) = handle_shared_dtor x st /\
   handle_shared_dtor s (handle_shared_dtor x' st) = handle_shared_dtor x st) /\
  (s2 = x /\ handle_shared_is_null x2 = true /\ handle_shared._id x2 = 0 /\
   st2 = handle_shared_dtor self st /\
   handle_shared_dtor x2 (handle_shared_dtor s2 st2)
     = handle_shared_dtor x (handle_shared_dtor self st) /\
   handle_shared_dtor s2 (handle_shared_dtor x2 st2)
     = handle_shared_dtor x (handle_shared_dtor self st)) /\
  (handle_shared_is_null s3 = true /\ handle_shared._id s3 = 0 /\
   st3 = handle_shared_dtor self st /\ handle_shared_dtor s3 st3 = st3).
Proof.
  unfold handle_shared_move_ctor, handle_shared_move_assign,
    handle_shared_move_assign_self.
  rewrite !handle_shared_copy_same. repeat split.
Qed.

(** X6.  Copy assignment of a shared handle from a non-null source, while
    the old buffer of the destination has other holders (or the destination
    is null): the destination takes the five fields of the source, and all
    that is performed is the [decref] of the old id (none for a null
    destination) followed by the [incref] of the new one; no element is
    destroyed, nothing is deallocated and memory is unchanged. *)
Theorem shared_copy_assign_others_remain (self x : handle_shared.t) st :
  handle_shared_is_null x = false ->
  (handle_shared_is_null self = false ->
   (rtable_decref (handle_shared._id self) st).1 = false) ->
  let r := handle_shared_copy_assign self x st in
  r.1 = x /\
  performed st r.2
    (if handle_shared_is_null self then [EvRtableIncref (handle_shared._id x)]
     else [EvRtableDecref (handle_shared._id self);
           EvRtableIncref (handle_shared._id x)]) /\
  cells r.2 = cells st /\ live r.2 = live st /\ avail r.2 = avail st.
Proof.
  intros Hx Hrem. unfold handle_shared_copy_assign.
  rewrite handle_shared_copy_same. simpl. split; [done|].
  destruct (handle_shared_is_null self) eqn:Hn.
  - unfold handle_shared_decref. rewrite Hn. done.
  - specialize (Hrem eq_refl).
    pose proof (handle_shared_dtor_others_remain self st Hn Hrem) as Hd.
    unfold handle_shared_dtor in Hd. rewrite Hd.
    destruct (rtable_decref_spec (handle_shared._id self) st)
      as (_ & _ & Ht & Hc & Hl & Ha & _).
    unfold handle_shared_incref, performed in *. simpl.
    rewrite Ht, <- app_assoc. done.
Qed.

(** X7.  Copy-assigning a shared handle to itself when it is the last
    holder of a natively allocated buffer (the table's [decref] returns
    true): the elements are destroyed and the block is deallocated before
    the fields are copied back and the count is incremented, so that the
    handle is left non-null, with its old pointer, on a block that is no
    longer allocated and holds no element. *)
Theorem shared_self_copy_assign_last_holder (s : handle_shared.t) (b : Z) st :
  handle_shared._data s = (HeapBlock b, 0) ->
  is_Some (live st !! b) ->
  handle_shared._foreign_handle s = 0 ->
  (rtable_decref (handle_shared._id s) st).1 = true ->
  let r := handle_shared_copy_assign s s st in
  r.1 = s /\ handle_shared_is_null r.1 = false /\
  live r.2 !! b = None /\
  (forall p, p.1 = HeapBlock b -> cells r.2 !! p = None) /\
  performed st r.2
    (EvRtableDecref (handle_shared._id s)
       :: destroy_events (handle_shared._data s) (handle_shared._size s)
       ++ [EvDeallocate (handle_shared._data s)
             (to_size_t (handle_shared._size s * sizeof));
           EvRtableIncref (handle_shared._id s)]).
Proof.
  intros Hdata [sz Hlive] Hf Hlast. unfold handle_shared_copy_assign.
  rewrite handle_shared_copy_same. simpl.
  assert (Hn : handle_shared_is_null s = false)
    by (unfold handle_shared_is_null; by rewrite Hdata).
  split; [done|]. split; [done|].
  pose proof (handle_shared_dtor_last s st Hn Hlast) as Ht.
  rewrite decide_False in Ht by (intros H; by apply H).
  unfold handle_shared_dtor in Ht.
  unfold handle_shared_decref in *. rewrite Hn in *.
  destruct (rtable_decref_spec (handle_shared._id s) st)
    as (_ & _ & _ & _ & Hl0 & _).
  destruct (rtable_decref (handle_shared._id s) st) as [last st0].
  simpl in *. subst last. simpl in *.
  rewrite decide_False in * by (intros H; by apply H).
  rewrite Hdata in *.
  destruct (destroy_elements_spec (HeapBlock b, 0) (handle_shared._size s) st0)
    as (_ & (Hl1 & _) & _).
  assert (Hlb : live (destroy_elements (HeapBlock b, 0) (handle_shared._size s) st0)
                  !! b = Some sz) by (by rewrite Hl1, Hl0).
  destruct (deallocate_live b sz (to_size_t (handle_shared._size s * sizeof)) _ Hlb)
    as (Hl2 & _ & _ & _ & _ & Hgone & _).
  split; [rewrite Hl2; apply lookup_delete_eq|].
  split; [exact Hgone|].
  unfold handle_shared_incref, performed in *. simpl. rewrite Ht.
  rewrite <- !app_assoc. simpl. by rewrite <- app_assoc.
Qed.

(** ** Stack handles *)

Section Stack.
Variable Size : Z.

(** X8.  For a stack handle a move is a copy.  Move construction and move
    assignment from another object copy-construct [Size] elements into the
    destination's own buffer, one constructor call each and nothing else:
    the destination's elements equal the source's at another address, the
    source keeps its elements, and the allocator is not involved. *)
Theorem stack_move_is_copy (this : Z) (self x : handle_stack.t) st :
  (this <> handle_stack.buffer x ->
   let r := handle_stack_move_ctor Size this x st in
   handle_stack_data r.1 = buffer_data this /\
   handle_stack_data r.1 <> handle_stack_data x /\
   (forall i, 0 <= i < Size ->
      cells r.2 !! ptr_add (handle_stack_data r.1) i
      = cells st !! ptr_add (handle_stack_data x) i) /\
   (forall p, p.1 = InlineBuffer (handle_stack.buffer x) ->
      cells r.2 !! p = cells st !! p) /\
   performed st r.2 (copy_events (buffer_data this) (handle_stack_data x) Size) /\
   same_bookkeeping st r.2) /\
  (handle_stack.buffer self <> handle_stack.buffer x ->
   let r := handle_stack_move_assign Size self x st in
   r.1 = self /\
   (forall i, 0 <= i < Size ->
      cells r.2 !! ptr_add (handle_stack_data self) i
      = cells st !! ptr_add (handle_stack_data x) i) /\
   (forall p, p.1 = InlineBuffer (handle_stack.buffer x) ->
      cells r.2 !! p = cells st !! p) /\
   performed st r.2
     (copy_events (handle_stack_data self) (handle_stack_data x) Size) /\
   same_bookkeeping st r.2).
Proof.
  split.
  - intros Hne. simpl.
    destruct (copy_construct_loop_spec (buffer_data this) (handle_stack_data x)
                Size st) as (Ht & Hb & Hcells).
    destruct Hcells as [Hcopied Hframe]; [simpl; intros [= H]; by apply Hne|].
    split; [done|]. split; [unfold handle_stack_data, buffer_data; intros [= H]; by apply Hne|].
    split; [exact Hcopied|]. split; [|done].
    intros p Hp. apply Hframe. simpl. rewrite Hp. intros [= H]. by apply Hne.
  - intros Hne. simpl.
    destruct (copy_construct_loop_spec (handle_stack_data self) (handle_stack_data x)
                Size st) as (Ht & Hb & Hcells).
    destruct Hcells as [Hcopied Hframe]; [simpl; intros [= H]; by apply Hne|].
    split; [done|]. split; [exact Hcopied|]. split; [|done].
    intros p Hp. apply Hframe. simpl. rewrite Hp. intros [= H]. by apply Hne.
Qed.

End Stack.

(** ** SSO handles *)

Section Sso.
Variable Size : Z.

Lemma allocator_calls_app (evs1 evs2 : list event) :
  allocator_calls (evs1 ++ evs2) = (allocator_calls evs1 + allocator_calls evs2)%nat.
Proof. unfold allocator_calls. by rewrite filter_app, length_app. Qed.

Lemma allocator_calls_fmap (f : Z -> event) (l : list Z) :
  (forall i, is_allocator_call (f i) = false) ->
  allocator_calls (f <$> l) = 0%nat.
Proof.
  intros Hf. unfold allocator_calls. induction l as [|i l IH]; [done|].
  simpl. rewrite filter_cons_False by (rewrite Hf; discriminate). exact IH.
Qed.

Lemma allocator_calls_default (init : bool) (data : ptr) (n : Z) :
  allocator_calls (if init then default_events data n else []) = 0%nat.
Proof. destruct init; [|done]. by apply allocator_calls_fmap. Qed.

(** X9.  Constructing an SSO handle of [n] elements with [n] up to the
    capacity never calls the allocator and cannot fail, whatever memory is
    left; above the capacity it calls the allocator exactly once, first.  In
    both cases the only other operations are the default constructions of
    the [n] elements, when the type asks for them, after which each element
    reads as a default-constructed value.  ([0 < Size] is the static
    assertion of the class.) *)
Theorem sso_ctor_allocator_use init_dcmplx (this n : Z) st :
  0 < Size ->
  0 <= n <= LONG_MAX ->
  (n <= Size ->
   exists h st',
     handle_sso_ctor init_dcmplx Size this n st = Some (h, st') /\
     performed st st'
       (if negb is_trivial && negb is_complex
        then default_events (handle_sso._data h) n else []) /\
     allocator_calls
       (if negb is_trivial && negb is_complex
        then default_events (handle_sso._data h) n else []) = 0%nat /\
     live st' = live st /\ avail st' = avail st /\
     (n <> 0 -> handle_sso._data h = buffer_data this) /\
     (negb is_trivial && negb is_complex = true ->
      forall i, 0 <= i < n ->
        cells st' !! ptr_add (handle_sso._data h) i = Some default_value)) /\
  (Size < n ->
   forall h st', handle_sso_ctor init_dcmplx Size this n st = Some (h, st') ->
     handle_sso._data h = (HeapBlock (fresh_key (live st)), 0) /\
     performed st st'
       ((if is_complex && init_dcmplx
         then EvAllocateZero (to_size_t (n * sizeof)) (handle_sso._data h)
         else EvAllocate (to_size_t (n * sizeof)) (handle_sso._data h))
        :: (if negb is_trivial && negb is_complex
            then default_events (handle_sso._data h) n else [])) /\
     allocator_calls
       ((if is_complex && init_dcmplx
         then EvAllocateZero (to_size_t (n * sizeof)) (handle_sso._data h)
         else EvAllocate (to_size_t (n * sizeof)) (handle_sso._data h))
        :: (if negb is_trivial && negb is_complex
            then default_events (handle_sso._data h) n else [])) = 1%nat /\
     live st' = <[fresh_key (live st) := to_size_t (n * sizeof)]> (live st) /\
     avail st' = avail st - to_size_t (n * sizeof) /\
     (negb is_trivial && negb is_complex = true ->
      forall i, 0 <= i < n ->
        cells st' !! ptr_add (handle_sso._data h) i = Some default_value)).
Proof.
  intros HSize Hn. unfold handle_sso_ctor. rewrite to_size_t_small by done.
  set (init := negb is_trivial && negb is_complex).
  assert (Hloop : forall data s0,
            let s1 := if init
                      then for_loop n (fun i => placement_new_default (ptr_add data i)) s0
                      else s0 in
            performed s0 s1 (if init then default_events data n else []) /\
            same_bookkeeping s0 s1 /\
            (init = true -> forall i, 0 <= i < n ->
               cells s1 !! ptr_add data i = Some default_value)).
  { intros data s0. destruct init; simpl.
    - destruct (default_construct_loop_spec data n s0) as (? & ? & _).
      split; [done|]. split; [done|]. intros _.
      by apply (write_loop_cells data default_value).
    - split; [unfold performed; by rewrite app_nil_r|done]. }
  split.
  - intros Hle. destruct (decide (n = 0)) as [->|Hz].
    + exists (handle_sso_default this), st.
      split; [done|]. simpl.
      assert (Hnone : (if init then default_events nullptr 0 else [])
                      = ([] : list event)) by (by destruct init).
      rewrite Hnone.
      split; [unfold performed; by rewrite app_nil_r|].
      repeat (split; [done|]). intros _ i Hi. lia.
    + rewrite bool_decide_eq_false_2 by lia. simpl.
      destruct (Hloop (buffer_data this) st) as (Ht & (Hl & Ha & _) & Hv).
      do 2 eexists. split; [reflexivity|]. simpl. split; [exact Ht|].
      split; [apply allocator_calls_default|]. done.
  - intros Hlt h st' Hc.
    rewrite decide_False in Hc by lia.
    rewrite bool_decide_eq_true_2 in Hc by lia. simpl in Hc.
    set (zero := is_complex && init_dcmplx) in *.
    destruct (if zero then _ else _) as [blk st0] eqn:Halloc.
    destruct (decide (blk_ptr blk = nullptr)) as [|Hp]; [done|].
    destruct (allocate_either zero _ _ _ _ Halloc Hp)
      as (Hb & Hl0 & Ha0 & _ & _ & Ht0 & _).
    injection Hc as <- <-. simpl.
    destruct (Hloop (blk_ptr blk) st0) as (Ht & (Hl & Ha & _) & Hv).
    split; [done|]. rewrite Hb in *. split.
    { assert (Ht0' : performed st st0
                       [if zero
                        then EvAllocateZero (to_size_t (n * sizeof))
                               (HeapBlock (fresh_key (live st)), 0)
                        else EvAllocate (to_size_t (n * sizeof))
                               (HeapBlock (fresh_key (live st)), 0)])
        by (unfold performed; rewrite Ht0; by destruct zero).
      exact (performed_trans _ _ _ [_] _ Ht0' Ht). }
    split.
    { change (?e :: ?l) with ([e] ++ l).
      rewrite allocator_calls_app, allocator_calls_default.
      by destruct zero. }
    split; [congruence|]. split; [congruence|]. done.
Qed.

Lemma allocate_heap_block (zero : bool) (s : Z) st (blk : blk_t) st1 :
  (if zero then allocate_zero s st else allocate s st) = (blk, st1) ->
  blk_ptr blk <> nullptr -> exists b, blk_ptr blk = (HeapBlock b, 0).
Proof.
  intros Ha Hp. destruct (allocate_either zero _ _ _ _ Ha Hp) as (Hb & _). eauto.
Qed.

Lemma sso_invariant_intro (this : Z) (data : ptr) (size : Z) :
  (size = 0 /\ data = nullptr) \/
  (0 < size <= Size /\ data = buffer_data this) \/
  (Size < size /\ exists b, data = (HeapBlock b, 0)) ->
  sso_invariant Size {| handle_sso.buffer := this; handle_sso._data := data;
                        handle_sso._size := size |}.
Proof.
  unfold sso_invariant, sso_inline_resident. simpl.
  intros [[-> ->]|[[? ->]|[? ?]]]; eauto.
Qed.

Lemma sso_invariant_moved_from (x : handle_sso.t) :
  sso_invariant Size (moved_from x).
Proof. apply sso_invariant_intro. eauto. Qed.

Lemma handle_sso_take_invariant (this : Z) (x : handle_sso.t) st :
  0 < Size ->
  sso_invariant Size x ->
  sso_invariant Size (handle_sso_take Size this false x st).1.1 /\
  (handle_sso_take Size this false x st).1.2 = moved_from x.
Proof.
  intros HSize Hinv. unfold handle_sso_take.
  destruct Hinv as [[Hd Hs]|[[Hd Hs]|[Hs [b Hd]]]].
  - rewrite Hs. rewrite bool_decide_eq_false_2 by lia. simpl.
    split; [|done]. apply sso_invariant_intro. eauto.
  - rewrite bool_decide_eq_false_2 by lia. rewrite decide_True by lia. simpl.
    split; [|done]. apply sso_invariant_intro. eauto.
  - rewrite bool_decide_eq_true_2 by lia. simpl.
    split; [|done]. apply sso_invariant_intro. rewrite Hd. eauto.
Qed.

(** X10.  The constructors of the SSO handle establish its invariant, and
    the moves and the copy assignment keep it: a handle is null with size 0,
    or holds up to [Size] elements in its own buffer, or holds more than
    [Size] elements on a block from the allocator.  A moved-from source is
    the null handle. *)
Theorem sso_invariant_kept init_dcmplx (this n : Z) (self x : handle_sso.t) st :
  0 < Size ->
  (0 <= n <= LONG_MAX ->
   (forall h st', handle_sso_ctor init_dcmplx Size this n st = Some (h, st') ->
      sso_invariant Size h) /\
   (forall h st', handle_sso_ctor_noinit Size this n st = Some (h, st') ->
      sso_invariant Size h)) /\
  (sso_invariant Size x -> 0 <= handle_sso._size x <= LONG_MAX ->
   forall h st', handle_sso_copy_ctor Size this x st = Some (h, st') ->
     sso_invariant Size h) /\
  (sso_invariant Size x ->
   sso_invariant Size (handle_sso_move_ctor Size this x st).1.1 /\
   (handle_sso_move_ctor Size this x st).1.2 = moved_from x) /\
  (sso_invariant Size x ->
   sso_invariant Size (handle_sso_move_assign Size self x st).1.1 /\
   (handle_sso_move_assign Size self x st).1.2 = moved_from x) /\
  (sso_invariant Size x -> sso_invariant Size self ->
   forall h st', handle_sso_copy_assign Size self x st = Some (h, st') ->
     sso_invariant Size h).
Proof.
  intros HSize.
  assert (Hnoinit : forall m h st', 0 <= m <= LONG_MAX ->
            handle_sso_ctor_noinit Size this m st = Some (h, st') ->
            sso_invariant Size h).
  { intros m h st' Hm Hc. unfold handle_sso_ctor_noinit in Hc.
    rewrite to_size_t_small in Hc by done.
    destruct (decide (m = 0)) as [->|Hz].
    { injection Hc as <- <-. apply sso_invariant_intro. eauto. }
    destruct (bool_decide (Size < m)) eqn:Hb; simpl in Hc.
    - apply bool_decide_eq_true_1 in Hb.
      destruct (allocate _ st) as [blk st0] eqn:Halloc.
      destruct (decide (blk_ptr blk = nullptr)) as [|Hp]; [done|].
      injection Hc as <- <-. apply sso_invariant_intro. right. right.
      split; [done|]. exact (allocate_heap_block false _ _ _ _ Halloc Hp).
    - apply bool_decide_eq_false_1 in Hb.
      injection Hc as <- <-. apply sso_invariant_intro. right. left.
      split; [lia|done]. }
  split; [|split; [|split; [|split]]].
  - intros Hn. split; [|intros h st'; by apply Hnoinit].
    intros h st' Hc. unfold handle_sso_ctor in Hc.
    rewrite to_size_t_small in Hc by done.
    destruct (decide (n = 0)) as [->|Hz].
    { injection Hc as <- <-. apply sso_invariant_intro. eauto. }
    destruct (bool_decide (Size < n)) eqn:Hb; simpl in Hc.
    + apply bool_decide_eq_true_1 in Hb.
      destruct (if is_complex && init_dcmplx then _ else _) as [blk st0] eqn:Halloc.
      destruct (decide (blk_ptr blk = nullptr)) as [|Hp]; [done|].
      injection Hc as <- <-. apply sso_invariant_intro. right. right.
      split; [done|]. exact (allocate_heap_block _ _ _ _ _ Halloc Hp).
    + apply bool_decide_eq_false_1 in Hb.
      injection Hc as <- <-. apply sso_invariant_intro. right. left.
      split; [lia|done].
  - intros Hx Hr h st' Hc. unfold handle_sso_copy_ctor in Hc.
    destruct (handle_sso_ctor_noinit Size this (handle_sso_size x) st)
      as [[h0 st0]|] eqn:Hn; [|done].
    injection Hc as <- <-. refine (Hnoinit _ _ _ _ Hn).
    unfold handle_sso_size. by rewrite to_long_small.
  - intros Hx. by apply handle_sso_take_invariant.
  - intros Hx. unfold handle_sso_move_assign.
    destruct (handle_sso_clean Size self st) as [self1 st1] eqn:Hcl.
    destruct (decide (handle_sso.buffer self = handle_sso.buffer x)) as [He|He].
    + destruct (handle_sso_take Size (handle_sso.buffer self) true self1 st1)
        as [[h0 x0] st2] eqn:Ht.
      unfold handle_sso_take in Ht.
      destruct (if bool_decide _ then _ else _) as [d s0] in Ht.
      injection Ht as <- <- <-. simpl.
      pose proof (handle_sso_clean_spec Size self st) as (Hb & _).
      rewrite Hcl in Hb. simpl in Hb.
      split; [apply sso_invariant_intro; eauto|].
      unfold moved_from. by rewrite Hb, He.
    + by apply handle_sso_take_invariant.
  - intros Hx Hself h st' Hc. unfold handle_sso_copy_assign in Hc.
    pose proof (handle_sso_clean_spec Size self st) as (_ & Hd & Hs & _).
    destruct (handle_sso_clean Size self st) as [self1 st1]. simpl in *.
    set (size := if bool_decide _ then handle_sso._size self1 else handle_sso._size x)
      in *.
    assert (Hsize : 0 <= size).
    { subst size. destruct (bool_decide _).
      - rewrite Hs. destruct Hself as [[_ ->]|[[_ ?]|[? _]]]; lia.
      - destruct Hx as [[_ ->]|[[_ ?]|[? _]]]; lia. }
    destruct (decide (size = 0)) as [Hz|Hz].
    { injection Hc as <- <-. apply sso_invariant_intro. left. by rewrite Hd. }
    destruct (bool_decide (Size < size)) eqn:Hb.
    + apply bool_decide_eq_true_1 in Hb.
      destruct (allocate _ st1) as [blk st0] eqn:Halloc.
      destruct (decide (blk_ptr blk = nullptr)) as [|Hp]; [done|].
      injection Hc as <- <-. apply sso_invariant_intro. right. right.
      split; [done|]. exact (allocate_heap_block false _ _ _ _ Halloc Hp).
    + apply bool_decide_eq_false_1 in Hb.
      injection Hc as <- <-. apply sso_invariant_intro. right. left.
      split; [lia|done].
Qed.


Lemma handle_sso_clean_live (h : handle_sso.t) st (b : Z) :
  (handle_sso._data h).1 <> HeapBlock b ->
  live (handle_sso_clean Size h st).2 !! b = live st !! b.
Proof.
  intros Hb. unfold handle_sso_clean.
  destruct (handle_sso_is_null h); [done|]. simpl.
  destruct (destroy_elements_spec (handle_sso_data h) (handle_sso._size h) st)
    as (_ & (Hl & _) & _).
  destruct (handle_sso_on_heap Size h); [|by rewrite Hl].
  set (blk := {| blk_ptr := handle_sso._data h; blk_size := _ |}).
  destruct (deallocate_spec blk
              (destroy_elements (handle_sso_data h) (handle_sso._size h) st))
    as (_ & _ & _ & _ & Hl2).
  rewrite Hl2 by done. by rewrite Hl.
Qed.

(** X11.  Copy assignment of an SSO handle from another object gives the
    destination the size of the source and elements equal to the source's,
    in storage of its own (its buffer up to the capacity, a new block
    above), and leaves the elements of the source as they were. *)
Theorem sso_copy_assign_clones (self x : handle_sso.t) st h st' :
  0 < Size ->
  handle_sso.buffer self <> handle_sso.buffer x ->
  sso_invariant Size x ->
  sso_data_wf self ->
  storage_live (handle_sso._data x) st ->
  (handle_sso._size x <> 0 ->
   (handle_sso._data self).1 <> (handle_sso._data x).1) ->
  handle_sso_copy_assign Size self x st = Some (h, st') ->
  handle_sso.buffer h = handle_sso.buffer self /\
  handle_sso._size h = handle_sso._size x /\
  (handle_sso._size x = 0 -> handle_sso._data h = nullptr) /\
  (handle_sso._size x <> 0 ->
   (handle_sso._data h).1 <> (handle_sso._data x).1 /\
   (forall i, 0 <= i < handle_sso._size x ->
      cells st' !! ptr_add (handle_sso._data h) i
      = cells st !! ptr_add (handle_sso._data x) i) /\
   (forall p, p.1 = (handle_sso._data x).1 -> cells st' !! p = cells st !! p)).
Proof.
  intros HSize Hne Hx Hwf Hlive Hown Hc. unfold handle_sso_copy_assign in Hc.
  pose proof (handle_sso_clean_spec Size self st) as (_ & Hd & _ & Hclean).
  pose proof (handle_sso_clean_live self st) as Hcl.
  destruct (handle_sso_clean Size self st) as [self1 st1]. simpl in *.
  rewrite bool_decide_eq_false_2 in Hc by done.
  destruct (decide (handle_sso._size x = 0)) as [Hz|Hz].
  { injection Hc as <- <-. simpl. rewrite Hd. done. }
  specialize (Hown Hz).
  destruct (Hclean _ Hown) as [_ Hkept].
  assert (Hcopy : forall data s0,
            data.1 <> (handle_sso._data x).1 ->
            (forall p, p.1 = (handle_sso._data x).1 -> cells s0 !! p = cells st !! p) ->
            let s1 := for_loop (handle_sso._size x)
                        (fun i => placement_new_copy (ptr_add data i)
                                    (ptr_add (handle_sso._data x) i)) s0 in
            (forall i, 0 <= i < handle_sso._size x ->
               cells s1 !! ptr_add data i = cells st !! ptr_add (handle_sso._data x) i) /\
            (forall p, p.1 = (handle_sso._data x).1 -> cells s1 !! p = cells st !! p)).
  { intros data s0 Hreg Hs0.
    destruct (copy_construct_loop_spec data (handle_sso._data x)
                (handle_sso._size x) s0) as (_ & _ & Hcells).
    destruct (Hcells Hreg) as [Hcopied Hframe]. simpl. split.
    - intros i Hi. rewrite Hcopied by done. by apply Hs0.
    - intros p Hp. rewrite Hframe by congruence. by apply Hs0. }
  destruct (bool_decide (Size < handle_sso._size x)) eqn:Hb.
  - apply bool_decide_eq_true_1 in Hb.
    destruct (allocate _ st1) as [blk st0] eqn:Halloc.
    destruct (decide (blk_ptr blk = nullptr)) as [|Hp]; [done|].
    destruct (allocate_either false _ _ _ _ Halloc Hp)
      as (Hblk & _ & _ & _ & _ & _ & Hc0).
    injection Hc as <- <-. simpl. split; [done|]. split; [done|].
    split; [done|]. intros _.
    assert (Hreg : (blk_ptr blk).1 <> (handle_sso._data x).1).
    { rewrite Hblk. simpl. intros Heq.
      assert (Hl1 : is_Some (live st1 !! fresh_key (live st1))).
      { rewrite Hcl by (by rewrite Heq).
        by apply Hlive. }
      destruct Hl1 as [? Hl1]. by rewrite fresh_key_fresh in Hl1. }
    split; [done|]. apply Hcopy; [done|].
    intros p Hp'. rewrite Hc0; [by apply Hkept|].
    rewrite Hp'. rewrite Hblk in Hreg. simpl in Hreg. congruence.
  - apply bool_decide_eq_false_1 in Hb.
    injection Hc as <- <-. simpl. split; [done|]. split; [done|].
    split; [done|]. intros _.
    assert (Hreg : (buffer_data (handle_sso.buffer self)).1 <> (handle_sso._data x).1).
    { destruct Hx as [[_ ?]|[[-> _]|[? _]]]; [done| |lia].
      simpl. intros [= H]. by apply Hne. }
    split; [done|]. apply Hcopy; [done|exact Hkept].
Qed.

Lemma destroy_elements_gone (data : ptr) (n : Z) st :
  is_trivial = false ->
  forall i, 0 <= i < n ->
    cells (destroy_elements data n st) !! ptr_add data i = None.
Proof.
  intros Htriv i Hi. unfold destroy_elements. rewrite Htriv.
  pose (P := fun (j : Z) (s : state T) =>
    forall t, 0 <= t < j -> cells s !! ptr_add data t = None).
  cut (P n (for_loop n (fun i => destroy_at (ptr_add data i)) st)).
  { intros HP. by apply HP. }
  apply for_loop_ind; [lia| |].
  - intros t Ht. lia.
  - intros j s Hj HP t Ht. simpl.
    destruct (decide (t = j)) as [->|Hne]; [apply lookup_delete_eq|].
    rewrite lookup_delete_ne by (intros H; apply ptr_add_inj in H; lia).
    apply HP. lia.
Qed.

(** X12.  Copy-assigning an inline-resident SSO handle of a non-trivial
    element type to itself is not a no-op: [clean()] first calls the
    destructor of each of its elements, then each element is
    copy-constructed from itself, in place.  The handle keeps its pointer
    and size, but none of the elements it held is left. *)
Theorem sso_self_copy_assign_inline (x : handle_sso.t) st :
  is_trivial = false ->
  sso_inline_resident Size x ->
  exists st',
    handle_sso_copy_assign Size x x st = Some (x, st') /\
    performed st st'
      (destroy_events (handle_sso._data x) (handle_sso._size x)
       ++ copy_events (handle_sso._data x) (handle_sso._data x)
            (handle_sso._size x)) /\
    (forall i, 0 <= i < handle_sso._size x ->
       cells st' !! ptr_add (handle_sso._data x) i = None).
Proof.
  intros Htriv [Hd Hs]. unfold handle_sso_copy_assign, handle_sso_clean.
  unfold handle_sso_is_null, handle_sso_on_heap, handle_sso_data.
  rewrite Hd. simpl.
  rewrite (bool_decide_eq_false_2 (Size < _)) by lia.
  rewrite bool_decide_eq_true_2 by done.
  rewrite decide_False by lia. simpl.
  rewrite (bool_decide_eq_false_2 (Size < _)) by lia.
  set (data := buffer_data (handle_sso.buffer x)) in *.
  set (n := handle_sso._size x) in *.
  destruct (destroy_elements_spec data n st) as (Ht1 & _ & _).
  pose proof (destroy_elements_gone data n st Htriv) as Hgone.
  set (st1 := destroy_elements data n st) in *.
  destruct (copy_construct_loop_spec data data n st1) as (Ht2 & _ & _).
  eexists. split.
  { f_equal. f_equal. destruct x as [bx dx sx]. simpl in *. by subst. }
  split; [exact (performed_trans _ _ _ _ _ Ht1 Ht2)|].
  intros i Hi.
  pose (P := fun (j : Z) (s : state T) =>
    forall t, 0 <= t < n -> cells s !! ptr_add data t = None).
  cut (P n (for_loop n
              (fun i => placement_new_copy (ptr_add data i) (ptr_add data i)) st1)).
  { intros HP. by apply HP. }
  apply for_loop_ind; [lia|exact Hgone|].
  intros j s Hj HP t Ht. simpl. rewrite copy_cell_lookup.
  destruct (decide (ptr_add data t = ptr_add data j)); apply HP; lia.
Qed.

End Sso.

(** ** The lifetime of a stack handle *)

Section StackLifetime.
Variable Size : Z.

(** X18.  A stack handle lives in place.  Constructed from a size and then
    destroyed, it has used only the buffer of its own object: the data
    pointer is that buffer; the delegation to [handle_stack{}] zero-fills
    the buffer; the calls performed are the default construction of each of
    the [Size] elements (when the type asks for it) followed by the
    destruction of each (when the type is not trivial); the allocator and the
    table of reference counts are never involved, and every cell outside the
    buffer is as before.  After the constructor each element reads as a
    default-constructed value, or as zero where no constructor is called.
    After the destructor the elements of a trivial type are still there,
    reading zero, and none of a non-trivial type is left. *)
Theorem stack_lifetime_in_place (this n : Z) st :
  let r := handle_stack_ctor Size this n st in
  let st2 := handle_stack_dtor Size r.1 r.2 in
  handle_stack_data r.1 = buffer_data this /\
  performed st r.2
    (if negb is_trivial && negb is_complex
     then default_events (buffer_data this) Size else []) /\
  performed st st2
    ((if negb is_trivial && negb is_complex
      then default_events (buffer_data this) Size else [])
     ++ destroy_events (buffer_data this) Size) /\
  same_bookkeeping st st2 /\
  (forall p, p.1 <> InlineBuffer this -> cells st2 !! p = cells st !! p) /\
  (forall i, 0 <= i < Size ->
     cells r.2 !! ptr_add (buffer_data this) i
     = Some (if negb is_trivial && negb is_complex
             then default_value else zero_value)) /\
  (is_trivial = true ->
   st2 = r.2 /\
   forall i, 0 <= i < Size ->
     cells st2 !! ptr_add (buffer_data this) i = Some zero_value) /\
  (is_trivial = false ->
   forall i, 0 <= i < Size -> cells st2 !! ptr_add (buffer_data this) i = None).
Proof.
  unfold handle_stack_dtor, handle_stack_ctor. simpl.
  change (handle_stack_data {| handle_stack.buffer := this |})
    with (buffer_data this).
  destruct (zero_fill_silent (buffer_data this) Size st)
    as (Ht0 & (? & ? & ? & ?)).
  destruct (write_loop_cells (buffer_data this) zero_value
              (fun i => set_cells <[ptr_add (buffer_data this) i := zero_value]>)
              Size st) as [Hz0 Hc0]; [done|].
  set (st0 := for_loop Size
                (fun i => set_cells <[ptr_add (buffer_data this) i := zero_value]>)
                st) in *.
  set (init := negb is_trivial && negb is_complex).
  set (st1 := if init then _ else st0).
  assert (Hinit : performed st st1
                 (if init then default_events (buffer_data this) Size else []) /\
               same_bookkeeping st0 st1 /\
               (forall p, p.1 <> InlineBuffer this -> cells st1 !! p = cells st0 !! p) /\
               (forall i, 0 <= i < Size ->
                  cells st1 !! ptr_add (buffer_data this) i
                  = Some (if init then default_value else zero_value))).
  { subst st1. destruct init.
    - destruct (default_construct_loop_spec (buffer_data this) Size st0)
        as (Hp & Hb & Hc).
      split; [unfold performed in *; by rewrite Hp, Ht0|]. split; [done|].
      split; [done|].
      by apply (write_loop_cells (buffer_data this) default_value).
    - split; [unfold performed; by rewrite Ht0, app_nil_r|]. done. }
  destruct Hinit as (Hp1 & (? & ? & ? & ?) & Hc1 & Hv1).
  destruct (destroy_elements_spec (buffer_data this) Size st1)
    as (Hp2 & (? & ? & ? & ?) & Hc2).
  split; [done|]. split; [done|]. split; [by eapply performed_trans|].
  split; [repeat split; congruence|]. split; [|split; [done|split]].
  - intros p Hp. rewrite Hc2, Hc1 by done. by apply Hc0.
  - intros Htriv.
    assert (Hsame : destroy_elements (buffer_data this) Size st1 = st1)
      by (unfold destroy_elements; by rewrite Htriv).
    split; [done|]. intros i Hi. rewrite Hsame, Hv1 by done.
    subst init. by rewrite Htriv.
  - intros Htriv i Hi. by apply destroy_elements_gone.
Qed.

End StackLifetime.

(** ** Zero-filled construction of a heap handle *)

Lemma allocate_zero_cells (s : Z) st (blk : blk_t) st1 :
  allocate_zero s st = (blk, st1) ->
  blk_ptr blk <> nullptr ->
  forall i, 0 <= i < s `div` sizeof ->
    cells st1 !! ptr_add (blk_ptr blk) i = Some zero_value.
Proof.
  unfold allocate_zero.
  destruct (decide (s <= avail st)); intros [= <- <-]; simpl;
    [intros _|intros Hp; by destruct Hp].
  intros i Hi. set (p := (HeapBlock (fresh_key (live st)), 0)).
  pose (P := fun (j : Z) (s0 : state T) =>
    forall t, 0 <= t < j -> cells s0 !! ptr_add p t = Some zero_value).
  cut (P (s `div` sizeof)
         (for_loop (s `div` sizeof)
            (fun i => set_cells <[ptr_add p i := zero_value]>) st)).
  { intros HP. by apply HP. }
  apply for_loop_ind; [lia| |].
  - intros t Ht. lia.
  - intros j s0 Hj HP t Ht. simpl.
    destruct (decide (t = j)) as [->|Hne]; [apply lookup_insert_eq|].
    rewrite lookup_insert_ne by (intros H; apply ptr_add_inj in H; lia).
    apply HP. lia.
Qed.

(** X19.  The zero-filling constructor of the heap handle, for a size whose
    byte count fits a [size_t]: the handle has that size and id 0, every one
    of its elements reads as zero, no cell outside its block has changed, the
    only operation performed is one [allocate_zero] of [n * sizeof(T)]
    bytes, and for a complex element type with [init_dcmplx] the constructor
    from a size alone does the same. *)
Theorem heap_ctor_zero_fills init_dcmplx (n : Z) st h st' :
  0 < sizeof ->
  0 <= n <= LONG_MAX ->
  n * sizeof < SIZE_MODULUS ->
  handle_heap_ctor_zero n st = Some (h, st') ->
  handle_heap_size h = n /\ handle_heap._id h = 0 /\
  handle_heap_is_null h = bool_decide (n = 0) /\
  (forall i, 0 <= i < n ->
     cells st' !! ptr_add (handle_heap_data h) i = Some zero_value) /\
  (forall p, p.1 <> (handle_heap_data h).1 -> cells st' !! p = cells st !! p) /\
  (n = 0 -> st' = st) /\
  (n <> 0 ->
   performed st st' [EvAllocateZero (n * sizeof) (handle_heap_data h)]) /\
  (is_complex && init_dcmplx = true ->
   handle_heap_ctor init_dcmplx n st = Some (h, st')).
Proof.
  intros Hsz Hn Hbytes. unfold handle_heap_ctor_zero, handle_heap_ctor.
  destruct (decide (n = 0)) as [->|Hn0].
  - intros [= <- <-]. rewrite bool_decide_eq_true_2 by done.
    repeat split; try done. intros i Hi. lia.
  - assert (Hb : to_size_t (n * sizeof) = n * sizeof)
      by (unfold to_size_t; apply Z.mod_small; nia).
    rewrite Hb.
    destruct (allocate_zero (n * sizeof) st) as [b st1] eqn:Ha.
    destruct (decide (blk_ptr b = nullptr)) as [|Hp]; [done|].
    intros [= <- <-]. unfold handle_heap_size, handle_heap_data,
      handle_heap_is_null. simpl.
    pose proof (allocate_zero_cells _ _ _ _ Ha Hp) as Hz.
    destruct (allocate_either true _ _ _ _ Ha Hp)
      as (Hptr & _ & _ & _ & _ & Htr & Hc).
    rewrite Z.div_mul in Hz by lia.
    rewrite (bool_decide_eq_false_2 (n = 0)) by done.
    split; [rewrite to_size_t_small by done; by apply to_long_small|].
    split; [done|]. split; [by apply bool_decide_eq_false_2|].
    split; [exact Hz|]. split; [|split; [done|split]].
    + intros p Hne. apply Hc. by rewrite Hptr in Hne.
    + intros _. unfold performed. by rewrite Htr, Hptr.
    + intros Hcx. rewrite Hcx.
      destruct (decide (blk_ptr b = nullptr)); [done|].
      apply andb_true_iff in Hcx as [-> _]. simpl.
      by rewrite andb_false_r.
Qed.

(** ** Borrowed handles *)

Lemma ptr_add_add (p : ptr) (j k : Z) : ptr_add (ptr_add p j) k = ptr_add p (j + k).
Proof. unfold ptr_add. simpl. f_equal. lia. Qed.

(** X13.  Borrowing from a borrowed handle adds the offsets and forgets the
    owner: a handle borrowed at offset [k1] from the heap handle at [x] has
    that heap handle as its parent, and a handle borrowed from it at offset
    [k2] points [k1 + k2] elements into the heap handle's buffer and has no
    parent, so that the owner can no longer be reached from it. *)
Theorem reborrow_adds_offsets (x : Z) (hx : handle_heap.t) (k1 k2 : Z) st :
  heaps st !! x = Some hx ->
  exists b1 b2,
    handle_borrowed_ctor (BorrowHeapVoid x k1) st = Some (b1, st) /\
    handle_borrowed_ctor (BorrowBorrowed b1 k2) st = Some (b2, st) /\
    handle_borrowed_parent b1 = Some x /\
    handle_borrowed_data b2 = ptr_add (handle_heap_data hx) (k1 + k2) /\
    handle_borrowed_parent b2 = None /\
    handle_borrowed_ctor (BorrowBorrowedConst b1 k2) st = Some (b2, st).
Proof.
  intros Hx. simpl. rewrite Hx. do 2 eexists.
  split; [reflexivity|]. split; [reflexivity|]. simpl.
  split; [done|]. split; [apply ptr_add_add|]. done.
Qed.

End MoreProperties.

(** ** Concrete runs of the other operations *)

(** X1, on a heap handle of three [long]s in an empty state. *)
Lemma heap_ctor_dtor_balanced_witness :
  exists h st1,
    handle_heap_ctor false 3 (initial Z 1000) = Some (h, st1) /\
    live (handle_heap_dtor h st1) = live (initial Z 1000) /\
    avail (handle_heap_dtor h st1) = 1000 /\
    performed (initial Z 1000) (handle_heap_dtor h st1)
      (heap_lifetime_events (T := Z) false 3 (handle_heap._data h)).
Proof.
  destruct (handle_heap_ctor false 3 (initial Z 1000)) as [[h st1]|] eqn:Hc;
    [|vm_compute in Hc; discriminate].
  exists h, st1. split; [reflexivity|].
  destruct (heap_ctor_dtor_balanced false 3 (initial Z 1000) h st1 Hc)
    as (Hl & Ha & _ & _ & _ & Hn).
  destruct Hn as [_ Hp]; [lia|].
  split; [exact Hl|]. split; [exact Ha|exact Hp].
Defined.

(** X2, on the promoted heap handle at address 10, moved to address 30. *)
Lemma heap_move_carries_promotion_witness :
  let hx := {| handle_heap._data := (HeapBlock 1, 0); handle_heap._size := 4;
               handle_heap._id := 1 |} in
  heaps promoted_four.2 !! 10 = Some hx /\ 30 <> 10 /\
  exists st',
    handle_heap_move_ctor_at 30 10 promoted_four.2 = Some st' /\
    heaps st' !! 30 = Some hx /\
    heaps st' !! 10 = Some handle_heap.null /\
    handle_shared_from_heap 30 st' =
      Some ({| handle_shared._data := (HeapBlock 1, 0);
               handle_shared._size := 4; handle_shared._id := 1;
               handle_shared._foreign_handle := 0;
               handle_shared._foreign_decref := 0 |},
            rtable_incref 1 st').
Proof.
  intros hx.
  assert (H1 : heaps promoted_four.2 !! 10 = Some hx) by (vm_compute; reflexivity).
  assert (H2 : 30 <> 10) by lia.
  split; [exact H1|]. split; [exact H2|].
  destruct (handle_heap_move_ctor_at 30 10 promoted_four.2) as [st'|] eqn:Hm;
    [|vm_compute in Hm; discriminate].
  exists st'. split; [reflexivity|].
  destruct (heap_move_carries_promotion 30 10 hx promoted_four.2 st' H1 H2 Hm)
    as (Ha & Hb & _ & _ & _ & _ & _ & _ & Hs).
  split; [exact Ha|]. split; [exact Hb|].
  apply Hs; [reflexivity|simpl; lia].
Defined.

(** X3, on the heap handles at addresses 20 (null) and 10 of
    [four_longs]. *)
Lemma heap_move_assign_releases_then_steals_witness :
  heaps four_longs !! 20 = Some handle_heap.null /\
  heaps four_longs !! 10 = Some heap_of_four /\
  exists st',
    handle_heap_move_assign_at 20 10 four_longs = Some st' /\
    heaps st' !! 10 = Some handle_heap.null /\
    heaps st' !! 20 = Some heap_of_four.
Proof.
  assert (H1 : heaps four_longs !! 20 = Some handle_heap.null) by reflexivity.
  assert (H2 : heaps four_longs !! 10 = Some heap_of_four) by reflexivity.
  split; [exact H1|]. split; [exact H2|].
  destruct (heap_move_assign_releases_then_steals 20 10 handle_heap.null
              heap_of_four four_longs H1 H2)
    as (st' & Hm & _ & _ & _ & _ & _ & Hx & Ht & _).
  exists st'. split; [exact Hm|]. split; [exact Hx|]. apply Ht. lia.
Defined.

(** X4, on the same two heap handles. *)
Lemma heap_copy_assign_clones_witness :
  heaps four_longs !! 10 = Some heap_of_four /\
  heaps four_longs !! 20 = Some handle_heap.null /\
  0 <= handle_heap._size heap_of_four <= LONG_MAX /\
  storage_live (handle_heap._data heap_of_four) four_longs /\
  storage_live (handle_heap._data handle_heap.null) four_longs /\
  exists st' h,
    handle_heap_copy_assign_at 20 10 four_longs = Some st' /\
    heaps st' !! 20 = Some h /\
    handle_heap._id h = 0 /\
    handle_heap_size h = 4 /\
    cells st' !! ptr_add (handle_heap_data h) 3 = Some 14 /\
    heaps st' !! 10 = Some heap_of_four.
Proof.
  assert (H1 : heaps four_longs !! 10 = Some heap_of_four) by reflexivity.
  assert (H2 : heaps four_longs !! 20 = Some handle_heap.null) by reflexivity.
  assert (H3 : 0 <= handle_heap._size heap_of_four <= LONG_MAX)
    by (unfold LONG_MAX; simpl; lia).
  pose proof storage_live_four as H4.
  assert (H5 : storage_live (handle_heap._data handle_heap.null) four_longs)
    by (intros b [=]).
  split; [exact H1|]. split; [exact H2|]. split; [exact H3|].
  split; [exact H4|]. split; [exact H5|].
  destruct (handle_heap_copy_assign_at 20 10 four_longs) as [st'|] eqn:Hm;
    [|vm_compute in Hm; discriminate].
  destruct (heap_copy_assign_clones 20 10 handle_heap.null heap_of_four
              four_longs st' H1 H2 H3 H4 H5 Hm)
    as (h & Hh & Hid & Hs & Hc & Hx & _).
  exists st', h. split; [reflexivity|]. split; [exact Hh|]. split; [exact Hid|].
  split; [exact Hs|]. split; [|apply Hx; lia].
  rewrite Hc by (vm_compute; split; [discriminate|reflexivity]). reflexivity.
Defined.

(** X6, on the shared handle of [promoted_four], whose buffer the heap
    handle holds too. *)
Lemma shared_copy_assign_others_remain_witness :
  let s := promoted_four.1 in
  let st := promoted_four.2 in
  handle_shared_is_null s = false /\
  (rtable_decref (handle_shared._id s) st).1 = false /\
  (handle_shared_copy_assign s s st).1 = s /\
  performed st (handle_shared_copy_assign s s st).2
    [EvRtableDecref 1; EvRtableIncref 1] /\
  cells (handle_shared_copy_assign s s st).2 = cells st.
Proof.
  intros s st.
  assert (H1 : handle_shared_is_null s = false) by (vm_compute; reflexivity).
  assert (H2 : (rtable_decref (handle_shared._id s) st).1 = false)
    by (vm_compute; reflexivity).
  split; [exact H1|]. split; [exact H2|].
  destruct (shared_copy_assign_others_remain s s st H1 (fun _ => H2))
    as (Ha & Hb & Hc & _).
  split; [exact Ha|]. split; [|exact Hc].
  rewrite H1 in Hb. exact Hb.
Defined.

(** X7, on the shared handle of [promoted_four] after the heap handle has
    been destroyed. *)
Lemma shared_self_copy_assign_last_holder_witness :
  let h := {| handle_heap._data := (HeapBlock 1, 0); handle_heap._size := 4;
              handle_heap._id := 1 |} in
  let s := promoted_four.1 in
  let st := handle_heap_dtor h promoted_four.2 in
  handle_shared._data s = (HeapBlock 1, 0) /\
  is_Some (live st !! 1) /\
  handle_shared._foreign_handle s = 0 /\
  (rtable_decref (handle_shared._id s) st).1 = true /\
  handle_shared_is_null (handle_shared_copy_assign s s st).1 = false /\
  live (handle_shared_copy_assign s s st).2 !! 1 = None /\
  cells (handle_shared_copy_assign s s st).2 !! (HeapBlock 1, 2) = None.
Proof.
  intros h s st.
  assert (H1 : handle_shared._data s = (HeapBlock 1, 0)) by (vm_compute; reflexivity).
  assert (H2 : is_Some (live st !! 1)) by (exists 32; vm_compute; reflexivity).
  assert (H3 : handle_shared._foreign_handle s = 0) by (vm_compute; reflexivity).
  assert (H4 : (rtable_decref (handle_shared._id s) st).1 = true)
    by (vm_compute; reflexivity).
  split; [exact H1|]. split; [exact H2|]. split; [exact H3|]. split; [exact H4|].
  destruct (shared_self_copy_assign_last_holder s 1 st H1 H2 H3 H4)
    as (_ & Hn & Hl & Hc & _).
  split; [exact Hn|]. split; [exact Hl|]. by apply Hc.
Defined.

(** X8, on stack handles of two vectors: the buffer 2 of [two_vectors] is
    moved into the buffers 1 and 3. *)
Lemma stack_move_is_copy_witness :
  let x := {| handle_stack.buffer := 2 |} in
  let self := {| handle_stack.buffer := 3 |} in
  (1 <> handle_stack.buffer x /\
   handle_stack_data (handle_stack_move_ctor 2 1 x two_vectors).1 = buffer_data 1 /\
   performed two_vectors (handle_stack_move_ctor 2 1 x two_vectors).2
     (copy_events (buffer_data 1) (handle_stack_data x) 2)) /\
  (handle_stack.buffer self <> handle_stack.buffer x /\
   (handle_stack_move_assign 2 self x two_vectors).1 = self /\
   same_bookkeeping two_vectors (handle_stack_move_assign 2 self x two_vectors).2).
Proof.
  intros x self.
  assert (H1 : 1 <> handle_stack.buffer x) by (simpl; lia).
  assert (H2 : handle_stack.buffer self <> handle_stack.buffer x) by (simpl; lia).
  destruct (stack_move_is_copy 2 1 self x two_vectors) as [Hc Ha].
  split.
  - split; [exact H1|]. destruct (Hc H1) as (Hd & _ & _ & _ & Hp & _).
    split; [exact Hd|exact Hp].
  - split; [exact H2|]. destruct (Ha H2) as (Hs & _ & _ & _ & Hb).
    split; [exact Hs|exact Hb].
Defined.

(** X9, on SSO handles of capacity 2 with one and with three vectors. *)
Lemma sso_ctor_allocator_use_witness :
  0 < 2 /\ 0 <= 1 <= LONG_MAX /\ 1 <= 2 /\ 0 <= 3 <= LONG_MAX /\ 2 < 3 /\
  (exists h st',
     handle_sso_ctor false 2 1 1 (initial (list Z) 1000) = Some (h, st') /\
     handle_sso._data h = buffer_data 1 /\
     performed (initial (list Z) 1000) st' [EvDefaultConstruct (InlineBuffer 1, 0)] /\
     cells st' !! (InlineBuffer 1, 0) = Some []) /\
  (exists h st',
     handle_sso_ctor false 2 1 3 (initial (list Z) 1000) = Some (h, st') /\
     handle_sso._data h = (HeapBlock 1, 0) /\
     performed (initial (list Z) 1000) st'
       [EvAllocate 72 (HeapBlock 1, 0);
        EvDefaultConstruct (HeapBlock 1, 0); EvDefaultConstruct (HeapBlock 1, 1);
        EvDefaultConstruct (HeapBlock 1, 2)] /\
     cells st' !! (HeapBlock 1, 2) = Some []).
Proof.
  assert (H1 : 0 < 2) by lia.
  assert (H2 : 0 <= 1 <= LONG_MAX) by (unfold LONG_MAX; lia).
  assert (H3 : 1 <= 2) by lia.
  assert (H4 : 0 <= 3 <= LONG_MAX) by (unfold LONG_MAX; lia).
  assert (H5 : 2 < 3) by lia.
  split; [exact H1|]. split; [exact H2|]. split; [exact H3|].
  split; [exact H4|]. split; [exact H5|]. split.
  - destruct (sso_ctor_allocator_use 2 false 1 1 (initial (list Z) 1000) H1 H2)
      as [Hin _].
    destruct (Hin H3) as (h & st' & Hc & Hp & _ & _ & _ & Hd & Hv).
    assert (Hdata : handle_sso._data h = buffer_data 1) by (apply Hd; lia).
    exists h, st'. split; [exact Hc|]. split; [exact Hdata|].
    rewrite Hdata in Hp, Hv. split; [exact Hp|].
    apply (Hv eq_refl 0). lia.
  - destruct (sso_ctor_allocator_use 2 false 1 3 (initial (list Z) 1000) H1 H4)
      as [_ Hout].
    destruct (handle_sso_ctor false 2 1 3 (initial (list Z) 1000))
      as [[h st']|] eqn:Hc; [|vm_compute in Hc; discriminate].
    destruct (Hout H5 h st' eq_refl) as (Hd & Hp & _ & _ & _ & Hv).
    exists h, st'. split; [reflexivity|]. split; [exact Hd|].
    rewrite Hd in Hp, Hv. split; [exact Hp|].
    apply (Hv eq_refl 2). lia.
Defined.

(** [sso_inline_2] satisfies the invariant for capacity 2. *)
Lemma sso_inline_2_invariant : sso_invariant 2 sso_inline_2.
Proof. right. left. split; [reflexivity|simpl; lia]. Qed.

(** X10, on the move of [sso_inline_2] into the buffer 1. *)
Lemma sso_invariant_kept_witness :
  0 < 2 /\ sso_invariant 2 sso_inline_2 /\
  sso_invariant 2 (handle_sso_move_ctor 2 1 sso_inline_2 two_vectors).1.1 /\
  (handle_sso_move_ctor 2 1 sso_inline_2 two_vectors).1.2 = moved_from sso_inline_2.
Proof.
  assert (H1 : 0 < 2) by lia.
  pose proof sso_inline_2_invariant as H2.
  split; [exact H1|]. split; [exact H2|].
  destruct (sso_invariant_kept 2 false 1 0 sso_inline_2 sso_inline_2 two_vectors H1)
    as (_ & _ & Hm & _).
  exact (Hm H2).
Defined.

(** X11, on the copy assignment of [sso_inline_2] to a null handle with
    buffer 1. *)
Lemma sso_copy_assign_clones_witness :
  let self := handle_sso_default 1 in
  0 < 2 /\
  handle_sso.buffer self <> handle_sso.buffer sso_inline_2 /\
  sso_invariant 2 sso_inline_2 /\
  sso_data_wf self /\
  storage_live (handle_sso._data sso_inline_2) two_vectors /\
  (handle_sso._data self).1 <> (handle_sso._data sso_inline_2).1 /\
  exists h st',
    handle_sso_copy_assign 2 self sso_inline_2 two_vectors = Some (h, st') /\
    handle_sso._size h = 2 /\
    cells st' !! ptr_add (handle_sso._data h) 1 = Some [2; 3] /\
    cells st' !! (InlineBuffer 2, 1) = Some [2; 3].
Proof.
  intros self.
  assert (H1 : 0 < 2) by lia.
  assert (H2 : handle_sso.buffer self <> handle_sso.buffer sso_inline_2)
    by (simpl; lia).
  pose proof sso_inline_2_invariant as H3.
  assert (H4 : sso_data_wf self) by (left; reflexivity).
  destruct sso_inline_2_wf as (_ & _ & H5 & _).
  assert (H6 : (handle_sso._data self).1 <> (handle_sso._data sso_inline_2).1)
    by (simpl; discriminate).
  split; [exact H1|]. split; [exact H2|]. split; [exact H3|]. split; [exact H4|].
  split; [exact H5|]. split; [exact H6|].
  destruct (handle_sso_copy_assign 2 self sso_inline_2 two_vectors)
    as [[h st']|] eqn:Hm; [|vm_compute in Hm; discriminate].
  destruct (sso_copy_assign_clones 2 self sso_inline_2 two_vectors h st'
              H1 H2 H3 H4 H5 (fun _ => H6) Hm) as (_ & Hs & _ & Hn).
  destruct Hn as (_ & Hc & Hk); [simpl; lia|].
  exists h, st'. split; [reflexivity|]. split; [exact Hs|]. split.
  - rewrite Hc by (simpl; lia). reflexivity.
  - rewrite Hk by reflexivity. reflexivity.
Defined.

(** X12, on [sso_inline_2] assigned to itself. *)
Lemma sso_self_copy_assign_inline_witness :
  is_trivial (T := list Z) = false /\
  sso_inline_resident 2 sso_inline_2 /\
  exists st',
    handle_sso_copy_assign 2 sso_inline_2 sso_inline_2 two_vectors
      = Some (sso_inline_2, st') /\
    cells st' !! ptr_add (handle_sso._data sso_inline_2) 1 = None.
Proof.
  assert (H1 : is_trivial (T := list Z) = false) by reflexivity.
  assert (H2 : sso_inline_resident 2 sso_inline_2)
    by (split; [reflexivity|simpl; lia]).
  split; [exact H1|]. split; [exact H2|].
  destruct (sso_self_copy_assign_inline 2 sso_inline_2 two_vectors H1 H2)
    as (st' & Hm & _ & Hc).
  exists st'. split; [exact Hm|]. apply Hc. simpl; lia.
Defined.

(** X13, on the heap handle at address 10, borrowed at offset 1 and again at
    offset 2. *)
Lemma reborrow_adds_offsets_witness :
  heaps four_longs !! 10 = Some heap_of_four /\
  exists b1 b2,
    handle_borrowed_ctor (BorrowHeapVoid 10 1) four_longs = Some (b1, four_longs) /\
    handle_borrowed_ctor (BorrowBorrowed b1 2) four_longs = Some (b2, four_longs) /\
    handle_borrowed_data b2 = (HeapBlock 1, 3) /\
    handle_borrowed_parent b2 = None.
Proof.
  assert (H1 : heaps four_longs !! 10 = Some heap_of_four) by reflexivity.
  split; [exact H1|].
  destruct (reborrow_adds_offsets 10 heap_of_four 1 2 four_longs H1)
    as (b1 & b2 & Ha & Hb & _ & Hd & Hp & _).
  exists b1, b2. split; [exact Ha|]. split; [exact Hb|]. split; [exact Hd|exact Hp].
Defined.

(** X18, on a stack handle of two vectors in the buffer 1, next to the
    buffer 2 of [two_vectors], and on a stack handle of two [long]s. *)
Lemma stack_lifetime_in_place_witness :
  let r := handle_stack_ctor 2 1 0 two_vectors in
  let st2 := handle_stack_dtor 2 r.1 r.2 in
  let r' := handle_stack_ctor 2 1 0 (initial Z 0) in
  is_trivial (T := list Z) = false /\
  is_trivial (T := Z) = true /\
  same_bookkeeping two_vectors st2 /\
  cells st2 !! ptr_add (buffer_data 1) 1 = None /\
  cells st2 !! (InlineBuffer 2, 1) = Some [2; 3] /\
  cells (handle_stack_dtor 2 r'.1 r'.2) !! ptr_add (buffer_data 1) 1 = Some 0.
Proof.
  intros r st2 r'.
  assert (H1 : is_trivial (T := list Z) = false) by reflexivity.
  assert (H2 : is_trivial (T := Z) = true) by reflexivity.
  split; [exact H1|]. split; [exact H2|].
  destruct (stack_lifetime_in_place 2 1 0 two_vectors)
    as (_ & _ & _ & Hb & Hc & _ & _ & Hn).
  destruct (stack_lifetime_in_place 2 1 0 (initial Z 0))
    as (_ & _ & _ & _ & _ & _ & Ht & _).
  split; [exact Hb|]. split; [apply (Hn H1); lia|]. split.
  - subst st2 r. rewrite Hc by discriminate. reflexivity.
  - destruct (Ht H2) as [_ Hz]. apply Hz. lia.
Defined.

(** X19, on a zero-filled heap handle of three [long]s. *)
Lemma heap_ctor_zero_fills_witness :
  0 < sizeof (T := Z) /\ 0 <= 3 <= LONG_MAX /\
  3 * sizeof (T := Z) < SIZE_MODULUS /\
  exists h st',
    handle_heap_ctor_zero 3 (initial Z 1000) = Some (h, st') /\
    handle_heap_size h = 3 /\
    cells st' !! ptr_add (handle_heap_data h) 2 = Some 0 /\
    performed (initial Z 1000) st' [EvAllocateZero 24 (handle_heap_data h)].
Proof.
  assert (H1 : 0 < sizeof (T := Z)) by (simpl; lia).
  assert (H2 : 0 <= 3 <= LONG_MAX) by (unfold LONG_MAX; lia).
  assert (H3 : 3 * sizeof (T := Z) < SIZE_MODULUS)
    by (unfold SIZE_MODULUS; simpl; lia).
  split; [exact H1|]. split; [exact H2|]. split; [exact H3|].
  destruct (handle_heap_ctor_zero 3 (initial Z 1000)) as [[h st']|] eqn:Hc;
    [|vm_compute in Hc; discriminate].
  destruct (heap_ctor_zero_fills false 3 (initial Z 1000) h st' H1 H2 H3 Hc)
    as (Hs & _ & _ & Hz & _ & _ & Hp & _).
  exists h, st'. split; [reflexivity|]. split; [exact Hs|].
  split; [apply Hz; lia|]. apply Hp. lia.
Defined.

(** * Properties of the character buffer *)

Module h5_props.
Import h5_details.
Local Open Scope nat_scope.

Lemma c_string_length (l : list ascii) : length (c_string l) <= length l.
Proof.
  induction l as [|c l IH]; simpl; [lia|].
  destruct (decide (c = NUL)); simpl; lia.
Qed.

Lemma c_string_app_nul (l r : list ascii) :
  c_string (c_string l ++ NUL :: r) = c_string l.
Proof.
  induction l as [|c l IH]; simpl.
  - by destruct (decide (NUL = NUL)).
  - destruct (decide (c = NUL)) as [->|Hc]; simpl.
    + by destruct (decide (NUL = NUL)).
    + destruct (decide (c = NUL)); [done|]. by rewrite IH.
Qed.

Lemma c_string_c_str (x : list ascii) : c_string (c_str x) = c_string x.
Proof.
  unfold c_str. induction x as [|c x IH]; simpl.
  - by destruct (decide (NUL = NUL)).
  - destruct (decide (c = NUL)); [done|]. by rewrite IH.
Qed.

Lemma c_string_id (x : list ascii) : NUL ∉ x -> c_string x = x.
Proof.
  induction x as [|c x IH]; [done|]. intros Hn. simpl.
  destruct (decide (c = NUL)) as [->|_]; [destruct Hn; left|].
  rewrite IH; [done|]. intros H. apply Hn. by right.
Qed.

Lemma write_chars_spec (cs pre mid post : list ascii) :
  length mid = length cs ->
  write_chars (length pre) cs (pre ++ mid ++ post) = pre ++ cs ++ post.
Proof.
  revert pre mid. induction cs as [|c cs IH]; intros pre mid Hlen.
  - by destruct mid.
  - destruct mid as [|m mid]; [done|]. simpl in *.
    replace (length pre) with (length pre + 0) at 2 by lia.
    rewrite insert_app_r. simpl.
    replace (pre ++ c :: mid ++ post) with ((pre ++ [c]) ++ mid ++ post)
      by (by rewrite <- app_assoc).
    replace (S (length pre)) with (length (pre ++ [c]))
      by (rewrite length_app; simpl; lia).
    rewrite IH by lia. by rewrite <- app_assoc.
Qed.

Lemma max_width_ge (v : list (list ascii)) (x : list ascii) :
  x ∈ v -> length x + 1 <= max_width v.
Proof.
  unfold max_width.
  cut (forall s0, (x ∈ v -> length x + 1 <=
                     foldl (fun s y => Nat.max s (length y + 1)) s0 v) /\
                  s0 <= foldl (fun s y => Nat.max s (length y + 1)) s0 v).
  { intros H. apply H. }
  induction v as [|y v IH]; intros s0; simpl.
  - split; [by intros ?%elem_of_nil|lia].
  - destruct (IH (Nat.max s0 (length y + 1))) as [IH1 IH2].
    split; [|lia]. intros [->|Hin]%elem_of_cons; [lia|by apply IH1].
Qed.

Lemma padded_length (s : nat) (x : list ascii) :
  length x <= s -> length (padded s x) = s.
Proof. intros. unfold padded. rewrite length_app, length_replicate. lia. Qed.

Lemma copy_strings_spec (s : nat) (v : list (list ascii)) :
  forall (i : nat) (pre : list ascii),
    length pre = i * s ->
    (forall x, x ∈ v -> length x + 1 <= s) ->
    copy_strings i s v (pre ++ replicate (length v * s) NUL)
    = pre ++ concat (padded s <$> (c_string <$> v)).
Proof.
  induction v as [|x v IH]; intros i pre Hpre Hw; simpl.
  - done.
  - assert (Hx : length (c_string x) + 1 <= s).
    { pose proof (c_string_length x). pose proof (Hw x ltac:(left)). lia. }
    unfold strcpy. rewrite c_string_c_str.
    rewrite replicate_add.
    replace (replicate s NUL)
      with (replicate (length (c_string x ++ [NUL])) NUL
            ++ replicate (s - length (c_string x) - 1) NUL).
    2: { rewrite <- replicate_add. f_equal. rewrite length_app. simpl. lia. }
    rewrite <- Hpre, <- !app_assoc.
    rewrite write_chars_spec by (by rewrite length_replicate).
    replace (pre ++ (c_string x ++ [NUL]) ++
             replicate (s - length (c_string x) - 1) NUL ++
             replicate (length v * s) NUL)
      with ((pre ++ padded s (c_string x)) ++ replicate (length v * s) NUL).
    2: { unfold padded. rewrite <- !app_assoc. do 2 f_equal.
         rewrite app_assoc. f_equal.
         set (k := s - length (c_string x) - 1).
         replace (s - length (c_string x)) with (S k) by (subst k; lia).
         done. }
    rewrite IH.
    + by rewrite <- app_assoc.
    + rewrite length_app, padded_length by lia. lia.
    + intros y Hy. apply Hw. by right.
Qed.

Lemma read_strings (s : nat) (v : list (list ascii)) :
  (forall x, x ∈ v -> length (c_string x) + 1 <= s) ->
  (fun i => c_string (drop (i * s) (concat (padded s <$> (c_string <$> v)))))
    <$> seq 0 (length v)
  = c_string <$> v.
Proof.
  induction v as [|x v IH]; intros Hw; [done|].
  assert (Hx : length (c_string x) + 1 <= s) by (apply Hw; left).
  rewrite !fmap_cons. cbn [length seq concat]. rewrite fmap_cons.
  f_equal.
  - unfold padded.
    replace (s - length (c_string x)) with (S (s - length (c_string x) - 1)) by lia.
    cbn [Nat.mul drop replicate]. rewrite <- app_assoc. apply c_string_app_nul.
  - rewrite <- fmap_S_seq, <- list_fmap_compose.
    etrans; [|apply IH; intros y Hy; apply Hw; by right].
    apply list_fmap_ext. intros _ i _. cbn [compose].
    replace (S i * s) with (length (padded s (c_string x)) + i * s)
      by (rewrite padded_length by lia; lia).
    by rewrite drop_app_add.
Qed.

Lemma to_char_buf_buffer (v : list (list ascii)) :
  buffer (to_char_buf v) = concat (padded (max_width v) <$> (c_string <$> v)).
Proof.
  unfold to_char_buf. simpl.
  apply (copy_strings_spec (max_width v) v 0 []); [done|].
  intros x. apply max_width_ge.
Qed.

Lemma c_string_fits (v : list (list ascii)) (x : list ascii) :
  x ∈ v -> length (c_string x) + 1 <= max_width v.
Proof.
  intros Hx. pose proof (max_width_ge v x Hx). pose proof (c_string_length x). lia.
Qed.

Lemma from_to_char_buf_strings (v : list (list ascii)) :
  from_char_buf (to_char_buf v) = c_string <$> v.
Proof.
  unfold from_char_buf. rewrite to_char_buf_buffer. simpl.
  apply read_strings. intros x. apply c_string_fits.
Qed.

(** X14.  Writing an array of strings to a character buffer and reading it
    back returns every string up to its first NUL character: a string
    without NUL comes back unchanged, one with an embedded NUL comes back
    cut there.  The buffer holds one slot per string, each as wide as the
    longest string plus one. *)
Theorem from_to_char_buf (v : list (list ascii)) :
  from_char_buf (to_char_buf v) = c_string <$> v /\
  lengths (to_char_buf v) = [length v; max_width v] /\
  length (buffer (to_char_buf v)) = length v * max_width v /\
  (forall x, x ∈ v -> length x < max_width v).
Proof.
  split; [apply from_to_char_buf_strings|]. split; [done|]. split.
  - rewrite to_char_buf_buffer.
    assert (Hall : forall y, y ∈ (padded (max_width v) <$> (c_string <$> v)) ->
                     length y = max_width v).
    { intros y (z & -> & (x & -> & Hx)%list_elem_of_fmap)%list_elem_of_fmap.
      apply padded_length. pose proof (c_string_fits v x Hx). lia. }
    replace (length v) with (length (padded (max_width v) <$> (c_string <$> v)))
      by (by rewrite !length_fmap).
    induction (padded (max_width v) <$> (c_string <$> v)) as [|y l IH]; [done|].
    simpl. rewrite length_app, IH.
    + rewrite (Hall y) by left. done.
    + intros z Hz. apply Hall. by right.
  - intros x Hx. pose proof (max_width_ge v x Hx). lia.
Qed.

(** X15.  For strings that contain no NUL character the round trip through
    the character buffer is the identity. *)
Theorem char_buf_round_trip (v : list (list ascii)) :
  (forall x, x ∈ v -> NUL ∉ x) ->
  from_char_buf (to_char_buf v) = v.
Proof.
  intros Hnul. rewrite from_to_char_buf_strings.
  induction v as [|x v IH]; [done|]. rewrite fmap_cons. f_equal.
  - apply c_string_id, Hnul. left.
  - apply IH. intros y Hy. apply Hnul. by right.
Qed.


(** X15, on the strings [ab] and [c]. *)
Lemma char_buf_round_trip_witness :
  let v := [["a"; "b"]; ["c"]]%char in
  (forall x, x ∈ v -> NUL ∉ x) /\
  from_char_buf (to_char_buf v) = v.
Proof.
  intros v.
  assert (H : forall x, x ∈ v -> NUL ∉ x).
  { intros x Hx Hn.
    repeat (apply elem_of_cons in Hx as [->|Hx];
            [repeat (apply elem_of_cons in Hn as [Hn|Hn]; [discriminate Hn|]);
             by apply elem_of_nil in Hn|]).
    by apply elem_of_nil in Hx. }
  split; [exact H|]. exact (char_buf_round_trip v H).
Defined.

End h5_props.

(** * Properties of the reduction checks and of the hyperslab *)

Module lazy_mpi_props.
Import lazy_mpi.

Lemma to_int_small (z : Z) : 0 <= z <= INT_MAX -> to_int z = z.
Proof.
  unfold to_int, INT_MAX. intros Hz. rewrite Z.mod_small by lia.
  by rewrite decide_True by lia.
Qed.

(** X16.  Whenever [invoke] reaches its MPI call, the receive buffer is the
    start of the target, the send buffer is the source or [MPI_IN_PLACE]
    (the latter only when target and source start at the same address), and
    the count is the number of elements of the source converted to [int]:
    that number itself as long as it fits an [int].  The ranges of
    [source.size()] elements at the source and at the target are then either
    the same range or disjoint: a target that overlaps the source without
    starting where it starts is rejected with an error. *)
Theorem invoke_ranges_equal_or_disjoint (check : view_t -> list Z -> bool)
    (r : reduce) (rank : Z) (target : view_t) (c : mpi_call) :
  invoke check r rank target = inr c ->
  recvbuf_of c = data_start target /\
  count_of c = to_int (size (source r)) /\
  (0 <= size (source r) <= INT_MAX -> count_of c = size (source r)) /\
  (sendbuf_of c = Buffer (data_start (source r)) \/
   (sendbuf_of c = MPI_IN_PLACE /\ data_start target = data_start (source r))) /\
  ((data_start target = data_start (source r) /\ size target = size (source r)) \/
   (forall i j, 0 <= i < size (source r) -> 0 <= j < size (source r) ->
      data_start (source r) + i <> data_start target + j)).
Proof.
  unfold invoke. intros H.
  cut (recvbuf_of c = data_start target /\
       count_of c = to_int (size (source r)) /\
       (sendbuf_of c = Buffer (data_start (source r)) \/
        (sendbuf_of c = MPI_IN_PLACE /\ data_start target = data_start (source r))) /\
       ((data_start target = data_start (source r) /\
         size target = size (source r)) \/
        (forall i j, 0 <= i < size (source r) -> 0 <= j < size (source r) ->
           data_start (source r) + i <> data_start target + j))).
  { intros (Hr & Hn & Hs & Hd). split; [done|]. split; [done|].
    split; [|done]. intros Hfit. rewrite Hn. by apply to_int_small. }
  destruct (bool_decide (data_start target = data_start (source r))) eqn:Hin.
  - apply bool_decide_eq_true_1 in Hin.
    destruct (decide (size (source r) <> size target)) as [|Hs]; [done|].
    assert (Hsize : size target = size (source r))
      by (destruct (decide (size target = size (source r))); [done|];
          exfalso; apply Hs; congruence).
    injection H as <-.
    destruct (all r); simpl; [by eauto 10|].
    destruct (bool_decide (rank = root r)); simpl; by eauto 10.
  - apply bool_decide_eq_false_1 in Hin.
    destruct ((bool_decide (rank = root r) || all r) && negb (check target _));
      [done|].
    destruct (decide (Z.abs (data_start target - data_start (source r))
                      < size (source r))) as [|Habs]; [done|].
    injection H as <-.
    assert (Hdis : forall i j, 0 <= i < size (source r) -> 0 <= j < size (source r) ->
                     data_start (source r) + i <> data_start target + j) by lia.
    destruct (all r); simpl; by eauto 10.
Qed.

(** X16, on a reduction of four elements at address 0 into a target at
    address 4, on the root. *)
Lemma invoke_ranges_equal_or_disjoint_witness :
  let src := {| data_start := 0; size := 4; shape := [4] |} in
  let tgt := {| data_start := 4; size := 4; shape := [4] |} in
  let r := {| source := src; root := 0; all := false |} in
  let c := MPI_Reduce (Buffer 0) 4 4 0 in
  invoke (fun _ _ => true) r 0 tgt = inr c /\
  0 <= size (source r) <= INT_MAX /\
  recvbuf_of c = 4 /\ count_of c = 4 /\
  (forall i j, 0 <= i < 4 -> 0 <= j < 4 -> 0 + i <> 4 + j).
Proof.
  intros src tgt r c.
  assert (H : invoke (fun _ _ => true) r 0 tgt = inr c) by reflexivity.
  assert (Hfit : 0 <= size (source r) <= INT_MAX) by (unfold INT_MAX; simpl; lia).
  split; [exact H|]. split; [exact Hfit|].
  destruct (invoke_ranges_equal_or_disjoint (fun _ _ => true) r 0 tgt c H)
    as (Hr & _ & Hn & _ & [[Hs _]|Hd]).
  - discriminate Hs.
  - split; [exact Hr|]. split; [exact (Hn Hfit)|]. exact Hd.
Defined.

End lazy_mpi_props.

Module h5_slice_props.
Import h5_slice.

Lemma product_counts (slice : list slice_item) :
  product (item_count <$> slice) = product (range_sizes slice).
Proof.
  unfold product, range_sizes.
  induction slice as [|[i|f s n] slice IH]; [done| |].
  - rewrite fmap_cons. cbn [foldr omap list_omap item_count].
    rewrite Z.mul_1_l. exact IH.
  - rewrite fmap_cons. cbn [foldr omap list_omap item_count]. by rewrite IH.
Qed.

Lemma sliced_rank_sizes (slice : list slice_item) :
  sliced_rank slice = length (range_sizes slice).
Proof.
  unfold sliced_rank, range_sizes.
  induction slice as [|[i|f s n] slice IH]; [done| |].
  - rewrite filter_cons_False by (simpl; discriminate). exact IH.
  - rewrite filter_cons_True by done. simpl. by rewrite IH.
Qed.

Lemma to_hsize_t_small (z : Z) : 0 <= z <= LONG_MAX -> to_hsize_t z = z.
Proof. unfold to_hsize_t, LONG_MAX. intros Hz. apply Z.mod_small. lia. Qed.

(** What [fill] does to the three lists of the hyperslab and to the shape:
    the positions from [n] on receive the elements of the slice, converted
    to [hsize_t], the shape entries from [m] on receive the sizes of its
    ranges, and every other entry stays. *)
Lemma fill_spec (slice : list slice_item) :
  forall (n m : nat) (hsl : hyperslab) (shape : list Z),
    (n + length slice <= length (offset hsl))%nat ->
    (n + length slice <= length (stride hsl))%nat ->
    (n + length slice <= length (count hsl))%nat ->
    (m + length (range_sizes slice) <= length shape)%nat ->
    let r := fill n m slice hsl shape in
    (forall k it, slice !! k = Some it ->
       offset r.1 !! (n + k)%nat = Some (to_hsize_t (item_offset it)) /\
       count r.1 !! (n + k)%nat = Some (to_hsize_t (item_count it)) /\
       stride r.1 !! (n + k)%nat
       = match item_stride it with
         | Some step => Some (to_hsize_t step)
         | None => stride hsl !! (n + k)%nat
         end) /\
    (forall k, (k < n \/ n + length slice <= k)%nat ->
       offset r.1 !! k = offset hsl !! k /\ count r.1 !! k = count hsl !! k /\
       stride r.1 !! k = stride hsl !! k) /\
    (forall j sz, range_sizes slice !! j = Some sz -> r.2 !! (m + j)%nat = Some sz) /\
    (forall j, (j < m)%nat -> r.2 !! j = shape !! j) /\
    length r.2 = length shape.
Proof.
  induction slice as [|it slice IH]; intros n m hsl shape Ho Hst Hc Hs.
  - simpl. repeat split; try done; intros ? ? ?; done.
  - simpl in Ho, Hst, Hc.
    destruct it as [ir|first step size]; simpl in Hs |- *.
    + set (hsl1 := {| offset := <[n:=to_hsize_t ir]> (offset hsl);
                      stride := stride hsl;
                      count := <[n:=1]> (count hsl) |}).
      destruct (IH (S n) m hsl1 shape) as (H1 & H2 & H3 & H4 & H5);
        [simpl; rewrite ?length_insert; lia..|lia|].
      split; [|split; [|done]].
      * intros [|k] it Hk; simpl in Hk.
        -- injection Hk as <-. replace (n + 0)%nat with n by lia.
           destruct (H2 n ltac:(lia)) as (-> & -> & ->). simpl.
           rewrite !list_lookup_insert_eq by lia. done.
        -- replace (n + S k)%nat with (S n + k)%nat by lia.
           destruct (H1 k it Hk) as (-> & -> & ->). done.
      * intros k Hk. destruct (H2 k ltac:(lia)) as (-> & -> & ->). simpl.
        rewrite !list_lookup_insert_ne by lia. done.
    + set (hsl1 := {| offset := <[n:=to_hsize_t first]> (offset hsl);
                      stride := <[n:=to_hsize_t step]> (stride hsl);
                      count := <[n:=to_hsize_t size]> (count hsl) |}).
      destruct (IH (S n) (S m) hsl1 (<[m:=size]> shape)) as (H1 & H2 & H3 & H4 & H5);
        [simpl; rewrite length_insert; lia..|rewrite length_insert; lia|].
      split; [|split; [|split; [|split]]].
      * intros [|k] it Hk; simpl in Hk.
        -- injection Hk as <-. replace (n + 0)%nat with n by lia.
           destruct (H2 n ltac:(lia)) as (-> & -> & ->). simpl.
           rewrite !list_lookup_insert_eq by lia. done.
        -- replace (n + S k)%nat with (S n + k)%nat by lia.
           destruct (H1 k it Hk) as (-> & -> & ->). simpl.
           destruct (item_stride it); [done|].
           rewrite list_lookup_insert_ne by lia. done.
      * intros k Hk. destruct (H2 k ltac:(lia)) as (-> & -> & ->). simpl.
        rewrite !list_lookup_insert_ne by lia. done.
      * intros [|j] sz Hj; simpl in Hj.
        -- injection Hj as <-. replace (m + 0)%nat with m by lia.
           rewrite H4 by lia. apply list_lookup_insert_eq. lia.
        -- replace (m + S j)%nat with (S m + j)%nat by lia. by apply H3.
      * intros j Hj. rewrite H4 by lia. apply list_lookup_insert_ne. lia.
      * by rewrite H5, length_insert.
Qed.

(** [fill] keeps the lengths of the lists of the hyperslab. *)
Lemma fill_lengths (slice : list slice_item) :
  forall (n m : nat) (hsl : hyperslab) (shape : list Z),
    length (offset (fill n m slice hsl shape).1) = length (offset hsl) /\
    length (count (fill n m slice hsl shape).1) = length (count hsl) /\
    length (stride (fill n m slice hsl shape).1) = length (stride hsl).
Proof.
  induction slice as [|[ir|first step size] slice IH]; intros n m hsl shape;
    simpl; [done| |].
  - destruct (IH (S n) m {| offset := <[n:=to_hsize_t ir]> (offset hsl);
                            stride := stride hsl;
                            count := <[n:=1]> (count hsl) |} shape)
      as (-> & -> & ->).
    simpl. by rewrite !length_insert.
  - destruct (IH (S n) (S m)
                {| offset := <[n:=to_hsize_t first]> (offset hsl);
                   stride := <[n:=to_hsize_t step]> (stride hsl);
                   count := <[n:=to_hsize_t size]> (count hsl) |}
                (<[m:=size]> shape))
      as (-> & -> & ->).
    simpl. by rewrite !length_insert.
Qed.

(** A list is determined by its length and its entries. *)
Lemma take_by_lookup (l : list Z) (f : slice_item -> Z) (slice : list slice_item) :
  (length slice <= length l)%nat ->
  (forall k it, slice !! k = Some it -> l !! k = Some (f it)) ->
  take (length slice) l = f <$> slice.
Proof.
  intros Hlen Hl. apply list_eq. intros k. rewrite list_lookup_fmap.
  destruct (slice !! k) as [it|] eqn:Hk; simpl.
  - rewrite lookup_take_lt by (by apply lookup_lt_Some in Hk). by apply Hl.
  - apply lookup_ge_None in Hk. apply lookup_ge_None.
    rewrite length_take. lia.
Qed.

(** X17.  The hyperslab and the shape made from a slice.  The shape lists
    the sizes of the ranges of the slice, in order.  Along each dimension of
    the slice the hyperslab holds, as [hsize_t] values, the integer or the
    first index of the range as offset, 1 or the size of the range as count,
    and the step of a range as stride (the stride at an integer is left as
    the library made it); the entries beyond the slice are left as the
    library made them.  When no index, first index or size of the slice is
    negative, the offsets and counts are those numbers themselves, and the
    number of elements that the hyperslab selects along the dimensions of
    the slice is the number of elements of an array of that shape. *)
Theorem hyperslab_selects_shape (hsl0 : hyperslab) (slice : list slice_item) :
  (length slice <= length (offset hsl0))%nat ->
  (length slice <= length (stride hsl0))%nat ->
  (length slice <= length (count hsl0))%nat ->
  let r := hyperslab_and_shape_from_slice hsl0 slice in
  r.2 = range_sizes slice /\
  take (length slice) (count r.1)
    = (fun it => to_hsize_t (item_count it)) <$> slice /\
  take (length slice) (offset r.1)
    = (fun it => to_hsize_t (item_offset it)) <$> slice /\
  (forall k it, slice !! k = Some it ->
     stride r.1 !! k = match item_stride it with
                       | Some step => Some (to_hsize_t step)
                       | None => stride hsl0 !! k
                       end) /\
  drop (length slice) (count r.1) = drop (length slice) (count hsl0) /\
  drop (length slice) (offset r.1) = drop (length slice) (offset hsl0) /\
  drop (length slice) (stride r.1) = drop (length slice) (stride hsl0) /\
  (Forall item_nonneg slice ->
   take (length slice) (count r.1) = item_count <$> slice /\
   take (length slice) (offset r.1) = item_offset <$> slice /\
   product (take (length slice) (count r.1)) = product r.2).
Proof.
  intros Ho Hst Hc. unfold hyperslab_and_shape_from_slice.
  destruct (fill_spec slice 0 0 hsl0 (replicate (sliced_rank slice) 0))
    as (H1 & H2 & H3 & _ & H5); [done|done|done| |].
  { rewrite length_replicate, sliced_rank_sizes. done. }
  destruct (fill_lengths slice 0 0 hsl0 (replicate (sliced_rank slice) 0))
    as (Hlo & Hlc & Hls).
  set (r := fill 0 0 slice hsl0 _) in *. simpl.
  rewrite length_replicate in H5.
  assert (Hshape : r.2 = range_sizes slice).
  { apply list_eq. intros j.
    destruct (range_sizes slice !! j) as [sz|] eqn:Hj.
    - by apply (H3 j sz).
    - apply lookup_ge_None. apply lookup_ge_None in Hj.
      rewrite H5, sliced_rank_sizes. done. }
  assert (Hcount : take (length slice) (count r.1)
                   = (fun it => to_hsize_t (item_count it)) <$> slice).
  { apply take_by_lookup; [lia|]. intros k it Hk.
    by destruct (H1 k it Hk) as (_ & ? & _). }
  assert (Hoffset : take (length slice) (offset r.1)
                    = (fun it => to_hsize_t (item_offset it)) <$> slice).
  { apply take_by_lookup; [lia|]. intros k it Hk.
    by destruct (H1 k it Hk) as (? & _ & _). }
  split; [exact Hshape|]. split; [exact Hcount|]. split; [exact Hoffset|].
  split; [|split; [|split; [|split]]].
  - intros k it Hk. by destruct (H1 k it Hk) as (_ & _ & ?).
  - apply list_eq. intros k. rewrite !lookup_drop.
    by destruct (H2 (length slice + k)%nat ltac:(lia)) as (_ & ? & _).
  - apply list_eq. intros k. rewrite !lookup_drop.
    by destruct (H2 (length slice + k)%nat ltac:(lia)) as (? & _ & _).
  - apply list_eq. intros k. rewrite !lookup_drop.
    by destruct (H2 (length slice + k)%nat ltac:(lia)) as (_ & _ & ?).
  - intros Hnn.
    assert (Hc' : take (length slice) (count r.1) = item_count <$> slice).
    { rewrite Hcount. apply list_fmap_ext. intros k it Hk.
      apply to_hsize_t_small.
      by destruct (proj1 (Forall_lookup _ _) Hnn k it Hk) as [_ ?]. }
    split; [exact Hc'|]. split.
    + rewrite Hoffset. apply list_fmap_ext. intros k it Hk.
      apply to_hsize_t_small.
      by destruct (proj1 (Forall_lookup _ _) Hnn k it Hk) as [? _].
    + rewrite Hc', Hshape. apply product_counts.
Qed.

(** X17, on the slice [(5, range(2, 14, 3), range(0, 7))] of a dataset of
    rank 3. *)
Lemma hyperslab_selects_shape_witness :
  let hsl0 := {| offset := [0; 0; 0]; stride := [1; 1; 1]; count := [0; 0; 0] |} in
  let slice := [Index 5; Range 2 3 4; Range 0 1 7] in
  (length slice <= length (offset hsl0))%nat /\
  (length slice <= length (stride hsl0))%nat /\
  (length slice <= length (count hsl0))%nat /\
  Forall item_nonneg slice /\
  (hyperslab_and_shape_from_slice hsl0 slice).2 = [4; 7] /\
  take 3 (count (hyperslab_and_shape_from_slice hsl0 slice).1) = [1; 4; 7] /\
  take 3 (offset (hyperslab_and_shape_from_slice hsl0 slice).1) = [5; 2; 0].
Proof.
  intros hsl0 slice.
  assert (H1 : (length slice <= length (offset hsl0))%nat) by (simpl; lia).
  assert (H2 : (length slice <= length (stride hsl0))%nat) by (simpl; lia).
  assert (H3 : (length slice <= length (count hsl0))%nat) by (simpl; lia).
  assert (H4 : Forall item_nonneg slice)
    by (repeat constructor; unfold LONG_MAX; simpl; lia).
  split; [exact H1|]. split; [exact H2|]. split; [exact H3|]. split; [exact H4|].
  destruct (hyperslab_selects_shape hsl0 slice H1 H2 H3)
    as (Hs & _ & _ & _ & _ & _ & _ & Hnn).
  destruct (Hnn H4) as (Hc & Ho & _).
  split; [exact Hs|]. split; [exact Hc|exact Ho].
Defined.

End h5_slice_props.
